(** * mfanalyser: the investment simulation engine, embedded and verified

    The development follows the TypeScript sources:

    - [services/mfApi.ts]            : [parseNavDate], [calculateSipReturns] and
                                       the early-exit [findNearestNav]
    - [components/SipCalculator.tsx] : [PastAnalysis], [FutureProjection] and the
                                       exhaustive [findNearestNav]
    - [components/NavChart.tsx]      : [periodReturns]
    - [components/FundDetails.tsx]   : the latest valuation shown in the header

    Modelling conventions.

    - A JavaScript number is a value of [num]: an exact rational, [NaN] or a
      signed infinity.  Arithmetic on finite values is exact (binary64 rounding
      and overflow are not modelled, and zero carries no sign); the special
      values follow IEEE 754.  The theorems stated on [num] are those in
      which rounding plays no part: they relate a result to the very
      expression the code evaluates, or rest on the order of values only.
    - Where rounding decides (sums of the same terms taken in different
      orders, a repeated sum against a product), the code is taken on
      binary64 numbers: module [B64], with IEEE 754 arithmetic and [Math.pow]
      and [parseFloat] as parameters.
    - A [Date] is kept as its local calendar fields; [getTime] is the number of
      milliseconds they denote in a zone with a fixed offset, taken to be zero
      (a fixed offset cancels in every difference and comparison the code makes).
      Time values are unbounded integers.
    - An invalid Date (time value NaN) is [None].
    - [new Date()] is a parameter [now] of the functions that read the clock.
    - A [while] loop over months is a function with a budget of turns computed
      from its two dates; a lemma shows that the budget is never what stops
      the loop. *)

From Stdlib Require Import ZArith QArith Qcanon List String Ascii Bool Lia Lqa.
From Stdlib Require Import Permutation Sorted.
From Stdlib Require Import Floats.
Import ListNotations.

(** A decimal literal of a binary64 number denotes, as in JavaScript, the
    binary64 number nearest to it. *)
Set Warnings "-inexact-float".

Open Scope Z_scope.

(** ** JavaScript numbers *)

Module JsNum.

Inductive num : Type :=
| Fin (q : Qc)
| NaN
| PInf
| NInf.

Definition ofZ (z : Z) : num := Fin (Q2Qc (inject_Z z)).

Definition zero : num := Fin (Q2Qc 0).
Definition one : num := Fin (Q2Qc 1).

(** Sign of a number as a comparison with zero; [None] for NaN. *)
Definition sgn (x : num) : option comparison :=
  match x with
  | Fin q => Some (Qccompare q (Q2Qc 0))
  | NaN => None
  | PInf => Some Gt
  | NInf => Some Lt
  end.

Definition inf_of (c : comparison) : num :=
  match c with
  | Gt => PInf
  | Lt => NInf
  | Eq => NaN
  end.

Definition sign_mul (a b : comparison) : comparison :=
  match a, b with
  | Eq, _ | _, Eq => Eq
  | Gt, c => c
  | Lt, c => CompOpp c
  end.

Definition neg (x : num) : num :=
  match x with
  | Fin q => Fin (- q)%Qc
  | NaN => NaN
  | PInf => NInf
  | NInf => PInf
  end.

Definition add (x y : num) : num :=
  match x, y with
  | NaN, _ | _, NaN => NaN
  | Fin a, Fin b => Fin (a + b)%Qc
  | PInf, NInf | NInf, PInf => NaN
  | PInf, _ | _, PInf => PInf
  | NInf, _ | _, NInf => NInf
  end.

Definition sub (x y : num) : num :=
  match x, y with
  | Fin a, Fin b => Fin (a - b)%Qc
  | _, _ => add x (neg y)
  end.

(** A product with an infinite factor is an infinity of the product's sign,
    and NaN when the other factor is zero. *)
Definition mul (x y : num) : num :=
  match x, y with
  | NaN, _ | _, NaN => NaN
  | Fin a, Fin b => Fin (a * b)%Qc
  | _, _ =>
      match sgn x, sgn y with
      | Some a, Some b => inf_of (sign_mul a b)
      | _, _ => NaN
      end
  end.

(** Division: a finite non-zero number over zero is an infinity, zero over
    zero is NaN, anything finite over an infinity is zero. *)
Definition div (x y : num) : num :=
  match x, y with
  | NaN, _ | _, NaN => NaN
  | Fin a, Fin b =>
      if Qc_eq_bool b (Q2Qc 0) then inf_of (Qccompare a (Q2Qc 0))
      else Fin (a / b)%Qc
  | Fin _, _ => zero
  | _, Fin b =>
      match sgn x with
      | Some a =>
          inf_of (sign_mul a (match Qccompare b (Q2Qc 0) with Eq => Gt | c => c end))
      | None => NaN
      end
  | _, _ => NaN
  end.

(** Three-way comparison; [None] when an operand is NaN, so that every
    relational operator is false on NaN. *)
Definition cmp (x y : num) : option comparison :=
  match x, y with
  | NaN, _ | _, NaN => None
  | Fin a, Fin b => Some (Qccompare a b)
  | PInf, PInf | NInf, NInf => Some Eq
  | PInf, _ | _, NInf => Some Gt
  | NInf, _ | _, PInf => Some Lt
  end.

Definition ltb (x y : num) : bool :=
  match cmp x y with Some Lt => true | _ => false end.
Definition gtb (x y : num) : bool :=
  match cmp x y with Some Gt => true | _ => false end.
Definition geb (x y : num) : bool :=
  match cmp x y with Some Gt | Some Eq => true | _ => false end.
Definition leb (x y : num) : bool :=
  match cmp x y with Some Lt | Some Eq => true | _ => false end.

(** [!x] : zero and NaN are the falsy numbers. *)
Definition falsy (x : num) : bool :=
  match x with
  | Fin q => Qc_eq_bool q (Q2Qc 0)
  | NaN => true
  | _ => false
  end.

(** [Math.pow] at a non-negative integer exponent. *)
Fixpoint pow (b : num) (n : nat) : num :=
  match n with
  | O => one
  | S k => mul b (pow b k)
  end.

End JsNum.

Import JsNum.

(** ** Strings: [split], [Number] and [parseFloat] *)

Module JsString.

Local Open Scope string_scope.

(** [s.split(sep)] for a one-character separator. *)
Fixpoint splitOn (sep : ascii) (s : string) : list string :=
  match s with
  | EmptyString => [EmptyString]
  | String c rest =>
      if Ascii.eqb c sep then EmptyString :: splitOn sep rest
      else
        match splitOn sep rest with
        | [] => [String c EmptyString]
        | w :: ws => String c w :: ws
        end
  end.

Definition digitOf (c : ascii) : option Z :=
  let n := Z.of_nat (nat_of_ascii c) in
  if ((48 <=? n)%Z && (n <=? 57)%Z)%bool then Some (n - 48) else None.

Fixpoint digitsValue (acc : Z) (s : string) : option Z :=
  match s with
  | EmptyString => Some acc
  | String c rest =>
      match digitOf c with
      | Some d => digitsValue (10 * acc + d) rest
      | None => None
      end
  end.

(** [Number(s)] on the fields of a date string: a run of decimal digits is
    its value and the empty string is 0.  Every other string is NaN ([None]);
    signs, fractions, exponents, radix prefixes and surrounding blanks, which
    [Number] also reads, do not occur in the dates of the feed. *)
Definition toNumber (s : string) : option Z := digitsValue 0 s.

Definition isBlank (c : ascii) : bool :=
  let n := nat_of_ascii c in
  Nat.eqb n 32 || (Nat.leb 9 n && Nat.leb n 13).

Fixpoint trimStart (s : string) : string :=
  match s with
  | String c rest => if isBlank c then trimStart rest else s
  | EmptyString => s
  end.

(** The longest run of digits at the front of [s]: its value on top of
    [acc], its length on top of [n], and what follows it. *)
Fixpoint takeDigits (s : string) (acc : Z) (n : nat) : Z * nat * string :=
  match s with
  | String c rest =>
      match digitOf c with
      | Some d => takeDigits rest (10 * acc + d) (S n)
      | None => (acc, n, s)
      end
  | EmptyString => (acc, n, s)
  end.

Definition isExpMark (c : ascii) : bool :=
  Ascii.eqb c "e" || Ascii.eqb c "E".

(** The decimal exponent at the front of [s], 0 when there is none. *)
Definition exponentOf (s : string) : Z :=
  match s with
  | String c rest =>
      if isExpMark c then
        let '(negative, body) :=
          match rest with
          | String "-" r => (true, r)
          | String "+" r => (false, r)
          | _ => (false, rest)
          end in
        let '(v, n, _) := takeDigits body 0 0 in
        if Nat.eqb n 0 then 0 else if negative then - v else v
      else 0
  | EmptyString => 0
  end.

(** [parseFloat(s)]: leading blanks, an optional sign, then [Infinity] or a
    decimal literal with optional fraction and exponent; what follows the
    literal is ignored, and a string with no literal at its front is NaN. *)
Definition parseFloat (s : string) : num :=
  let s0 := trimStart s in
  let '(negative, s1) :=
    match s0 with
    | String "-" r => (true, r)
    | String "+" r => (false, r)
    | _ => (false, s0)
    end in
  if String.prefix "Infinity" s1 then (if negative then NInf else PInf)
  else
    let '(ip, ni, s2) := takeDigits s1 0 0 in
    let '(fp, nf, s3) :=
      match s2 with
      | String "." r => takeDigits r 0 0
      | _ => (0, 0%nat, s2)
      end in
    if Nat.eqb (ni + nf) 0 then NaN
    else
      let scale := 10 ^ Z.of_nat nf in
      let mant := (inject_Z (ip * scale + fp) / inject_Z scale)%Q in
      let v := (mant * Qpower (inject_Z 10) (exponentOf s3))%Q in
      Fin (Q2Qc (if negative then (- v)%Q else v)).

End JsString.

Import JsString.

(** ** Dates *)

Module JsDate.

Definition msPerDay : Z := 86400000.

(** ECMAScript [DayFromYear]: the day number of 1 January of year [y]. *)
Definition dayFromYear (y : Z) : Z :=
  365 * (y - 1970) + (y - 1969) / 4 - (y - 1901) / 100 + (y - 1601) / 400.

Definition inLeapYear (y : Z) : bool :=
  ((y mod 4 =? 0) && negb (y mod 100 =? 0)) || (y mod 400 =? 0).

(** Days between 1 January and the first of month [m] (0-based). *)
Definition monthStart (leap : bool) (m : Z) : Z :=
  let l := if leap then 1 else 0 in
  match m with
  | 0 => 0
  | 1 => 31
  | 2 => 59 + l
  | 3 => 90 + l
  | 4 => 120 + l
  | 5 => 151 + l
  | 6 => 181 + l
  | 7 => 212 + l
  | 8 => 243 + l
  | 9 => 273 + l
  | 10 => 304 + l
  | _ => 334 + l
  end.

(** ECMAScript [MakeDay]: months beyond 0..11 carry into the year, and a
    day of the month beyond the month's length runs on into the next. *)
Definition makeDay (year month day : Z) : Z :=
  let ym := year + month / 12 in
  let mn := month mod 12 in
  dayFromYear ym + monthStart (inLeapYear ym) mn + day - 1.

Definition daysInMonth (leap : bool) (m : Z) : Z :=
  match m with
  | 1 => if leap then 29 else 28
  | 3 | 5 | 8 | 10 => 30
  | _ => 31
  end.

(** A valid Date as local calendar fields.  [getTime] is right for any
    fields.  [fullYear], [monthIdx] and [dayOfMonth] are what
    [getFullYear()], [getMonth()] and [getDate()] return when the day is a
    day of the month; a Date built from a day 1..31 that the month does not
    have is brought to that form by [normalize]. *)
Record Date : Type := mkDate {
  fullYear : Z;
  monthIdx : Z;
  dayOfMonth : Z;
  msOfDay : Z
}.

Definition getTime (d : Date) : Z :=
  makeDay (fullYear d) (monthIdx d) (dayOfMonth d) * msPerDay + msOfDay d.

(** A day past the end of the month is the day that many days into the
    next month: 31 February is 3 March, or 2 March in a leap year. *)
Definition normalize (d : Date) : Date :=
  let len := daysInMonth (inLeapYear (fullYear d)) (monthIdx d) in
  if dayOfMonth d >? len then
    {| fullYear := fullYear d + (monthIdx d + 1) / 12;
       monthIdx := (monthIdx d + 1) mod 12;
       dayOfMonth := dayOfMonth d - len;
       msOfDay := msOfDay d |}
  else d.

(** [new Date(year, monthIndex, day)] for a day in 1..31; a year in 0..99
    means 1900 + year. *)
Definition newDate (year monthIndex day : Z) : Date :=
  let y := if (0 <=? year) && (year <=? 99) then 1900 + year else year in
  normalize
    {| fullYear := y + monthIndex / 12;
       monthIdx := monthIndex mod 12;
       dayOfMonth := day;
       msOfDay := 0 |}.

(** [d.setMonth(m)]: the same day of month [m] of the year of [d]. *)
Definition setMonth (d : Date) (m : Z) : Date :=
  normalize
    {| fullYear := fullYear d + m / 12;
       monthIdx := m mod 12;
       dayOfMonth := dayOfMonth d;
       msOfDay := msOfDay d |}.

End JsDate.

Import JsDate.

(** ** types/index.ts *)

Record NavData : Type := mkNav {
  date : string;
  nav : string
}.

Module SipResult.
Record t : Type := mk {
  totalInvested : num;
  currentValue : num;
  totalUnits : num;
  returns : num;
  returnsPercentage : num;
  isProfit : bool
}.
End SipResult.

(** [s || '0'] on a string. *)
Definition orZero (s : string) : string :=
  match s with
  | EmptyString => "0"%string
  | _ => s
  end.

(** The running minimum [minDiff] of a nearest-date scan, which starts at
    [Infinity]. *)
Inductive bound : Type :=
| Infinity
| Finite (z : Z).

(** [diff < minDiff] *)
Definition below (diff : Z) (m : bound) : bool :=
  match m with
  | Infinity => true
  | Finite z => diff <? z
  end.

(** The two loop variables of a nearest-date scan. *)
Record scan : Type := mkScan {
  nearest : option NavData;
  minDiff : bound
}.

Definition scanInit : scan := {| nearest := None; minDiff := Infinity |}.

(** ** services/mfApi.ts *)

Module MfApi.

(** [parseNavDate]: a DD-MM-YYYY string to a Date.  A missing or
    non-numeric field makes the Date invalid. *)
Definition parseNavDate (dateStr : string) : option Date :=
  match map toNumber (splitOn "-"%char dateStr) with
  | Some day :: Some month :: Some year :: _ =>
      Some (newDate year (month - 1) day)
  | _ => None
  end.

(** [parseNavDate(s).getTime()], [None] for NaN. *)
Definition navTime (dateStr : string) : option Z :=
  option_map getTime (parseNavDate dateStr).

(** [Math.abs(entryDate.getTime() - targetTime)], [None] for NaN. *)
Definition diffTo (targetTime : Z) (entry : NavData) : option Z :=
  option_map (fun t => Z.abs (t - targetTime)) (navTime (date entry)).

(** [entryDate.getTime() > targetTime], false for NaN. *)
Definition passed (targetTime : Z) (entry : NavData) : bool :=
  match navTime (date entry) with
  | Some t => targetTime <? t
  | None => false
  end.

(** The loop of [findNearestNav]: an entry strictly closer than the running
    minimum replaces it (the test is false when the difference is NaN), then
    a [break] at the first entry dated after the target once [nearest] is
    set. *)
Fixpoint scanSorted (targetTime : Z) (sortedNav : list NavData) (st : scan)
  : scan :=
  match sortedNav with
  | [] => st
  | entry :: rest =>
      let st' :=
        match diffTo targetTime entry with
        | Some diff =>
            if below diff (minDiff st)
            then {| nearest := Some entry; minDiff := Finite diff |}
            else st
        | None => st
        end in
      match passed targetTime entry, nearest st' with
      | true, Some _ => st'
      | _, _ => scanSorted targetTime rest st'
      end
  end.

Definition findNearestNav (sortedNav : list NavData) (targetDate : Date)
  : option NavData :=
  nearest (scanSorted (getTime targetDate) sortedNav scanInit).

(** The comparator of the sort: the difference of the two time values.
    It is NaN when a date is invalid, which a sort reads as 0. *)
Definition byDate (a b : NavData) : Z :=
  match navTime (date a), navTime (date b) with
  | Some x, Some y => x - y
  | _, _ => 0
  end.

(** [[...navHistory].sort(byDate)].  The sort is stable; it is modelled as
    an insertion sort, which also fixes the order that ECMAScript leaves
    open when dates are invalid. *)
Fixpoint insertNav (a : NavData) (l : list NavData) : list NavData :=
  match l with
  | [] => [a]
  | b :: rest => if byDate a b <=? 0 then a :: l else b :: insertNav a rest
  end.

Definition sortNav (l : list NavData) : list NavData :=
  fold_right insertNav [] l.

(** The variables of the loop of [calculateSipReturns]. *)
Module Sip.
Record t : Type := mk {
  totalUnits : num;
  totalInvested : num;
  currentDate : Date
}.
End Sip.

Section CalculateSipReturns.

Variable navHistory : list NavData.
Variable monthlyAmount : num.

(** Valid Dates. *)
Variable startDate : Date.
Variable endDate : Date.

Definition sortedNav : list NavData := sortNav navHistory.

(** The body of [while (currentDate <= endDate)]. *)
Definition sipBody (st : Sip.t) : Sip.t :=
  let next := setMonth (Sip.currentDate st) (monthIdx (Sip.currentDate st) + 1) in
  match findNearestNav sortedNav (Sip.currentDate st) with
  | Some navEntry =>
      let nav := parseFloat (nav navEntry) in
      let units := div monthlyAmount nav in
      {| Sip.totalUnits := add (Sip.totalUnits st) units;
         Sip.totalInvested := add (Sip.totalInvested st) monthlyAmount;
         Sip.currentDate := next |}
  | None =>
      {| Sip.totalUnits := Sip.totalUnits st;
         Sip.totalInvested := Sip.totalInvested st;
         Sip.currentDate := next |}
  end.

(** [currentDate <= endDate] *)
Definition sipRunning (st : Sip.t) : bool :=
  getTime (Sip.currentDate st) <=? getTime endDate.

Fixpoint sipLoop (fuel : nat) (st : Sip.t) : Sip.t :=
  match fuel with
  | O => st
  | S f => if sipRunning st then sipLoop f (sipBody st) else st
  end.

(** A month is 28 days at least, which bounds the number of turns. *)
Definition sipTurns : nat :=
  Z.to_nat ((getTime endDate - getTime startDate) / (28 * msPerDay) + 1).

Definition sipEnd : Sip.t :=
  sipLoop sipTurns
    {| Sip.totalUnits := zero;
       Sip.totalInvested := zero;
       Sip.currentDate := startDate |}.

Definition calculateSipReturns : SipResult.t :=
  let st := sipEnd in
  let latestNav :=
    match navHistory with
    | [] => parseFloat "0"
    | first :: _ => parseFloat (orZero (nav first))
    end in
  let currentValue := mul (Sip.totalUnits st) latestNav in
  let returns := sub currentValue (Sip.totalInvested st) in
  {| SipResult.totalInvested := Sip.totalInvested st;
     SipResult.currentValue := currentValue;
     SipResult.totalUnits := Sip.totalUnits st;
     SipResult.returns := returns;
     SipResult.returnsPercentage :=
       if gtb (Sip.totalInvested st) zero
       then mul (div returns (Sip.totalInvested st)) (ofZ 100)
       else zero;
     SipResult.isProfit := geb returns zero |}.

End CalculateSipReturns.

End MfApi.

Import MfApi.

(** ** components/SipCalculator.tsx *)

Module SipCalculator.

Inductive InvestmentType : Type :=
| sip
| stepup
| onetime.

(** One turn of the loop of [findNearestNav]. *)
Definition scanStep (targetTime : Z) (st : scan) (entry : NavData) : scan :=
  match diffTo targetTime entry with
  | Some diff =>
      if below diff (minDiff st)
      then {| nearest := Some entry; minDiff := Finite diff |}
      else st
  | None => st
  end.

(** [findNearestNav(navData, targetDate)]: a scan of the whole array, in
    the order it is given. *)
Definition findNearestNav (navData : list NavData) (targetDate : Date)
  : option NavData :=
  nearest (fold_left (scanStep (getTime targetDate)) navData scanInit).

(** *** PastAnalysis *)

(** The per-year record [{ invested, units }] kept in [yearlyData]. *)
Module Yd.
Record t : Type := mk {
  invested : num;
  units : num
}.
End Yd.

(** [yearlyData]: a Map from year to record, in insertion order. *)
Definition YearlyData : Type := list (Z * Yd.t).

Fixpoint mapGet (k : Z) (m : YearlyData) : option Yd.t :=
  match m with
  | [] => None
  | (k', v) :: rest => if k' =? k then Some v else mapGet k rest
  end.

Definition mapHas (k : Z) (m : YearlyData) : bool :=
  match mapGet k m with
  | Some _ => true
  | None => false
  end.

(** [m.set(k, v)]: an existing key keeps its place, a new one goes last. *)
Fixpoint mapSet (k : Z) (v : Yd.t) (m : YearlyData) : YearlyData :=
  match m with
  | [] => [(k, v)]
  | (k', v') :: rest =>
      if k' =? k then (k, v) :: rest else (k', v') :: mapSet k v rest
  end.

(** The "add to yearly tracking" block.  [yd] is the object stored in the
    map, so the two [+=] update the map's entry. *)
Definition track (currentYear : Z) (currentAmount unitsBought : num)
    (m : YearlyData) : YearlyData :=
  let m1 :=
    if mapHas currentYear m then m
    else mapSet currentYear {| Yd.invested := zero; Yd.units := zero |} m in
  match mapGet currentYear m1 with
  | Some yd =>
      mapSet currentYear
        {| Yd.invested := add (Yd.invested yd) currentAmount;
           Yd.units := add (Yd.units yd) unitsBought |} m1
  | None => m1
  end.

(** [Array.from(keys).sort((a, b) => a - b)], as an insertion sort. *)
Fixpoint insertYear (y : Z) (l : list Z) : list Z :=
  match l with
  | [] => [y]
  | x :: rest => if y <? x then y :: l else x :: insertYear y rest
  end.

Definition sortYears (l : list Z) : list Z := fold_right insertYear [] l.

(** A row of [yearlyBreakdown]. *)
Module Row.
Record t : Type := mk {
  year : Z;
  invested : num;
  cumulativeInvested : num;
  units : num;
  cumulativeUnits : num;
  value : num;
  returns : num;
  returnsPercent : num;
  endYearNav : num
}.
End Row.

(** The value of the [result] memo, without the fields that only the
    display reads ([startDate], [buyNav], [currentNav]). *)
Module Past.
Record t : Type := mk {
  totalInvested : num;
  currentValue : num;
  totalUnits : num;
  returns : num;
  returnsPercentage : num;
  isProfit : bool;
  yearlyBreakdown : list Row.t
}.
End Past.

(** The variables of the monthly loop. *)
Module Loop.
Record t : Type := mk {
  totalUnits : num;
  totalInvested : num;
  currentDate : Date;
  currentAmount : num;
  yearCounter : Z;
  yearlyData : YearlyData
}.
End Loop.

(** The variables of the loop that builds the breakdown. *)
Module Build.
Record t : Type := mk {
  cumulativeInvested : num;
  cumulativeUnits : num;
  rows : list Row.t
}.
End Build.

Section PastAnalysis.

(** [new Date()], the feed and the component's state. *)
Variable now : Date.
Variable navData : list NavData.
Variable investmentType : InvestmentType.
Variable amount : num.
Variable stepUpPercent : num.

(** [selectedYear] and [selectedMonth] are non-negative integers, which the
    string [selectedFromDate] carries unchanged; year 0 gives the empty
    string. *)
Variable selectedYear : Z.
Variable selectedMonth : Z.

Definition startDate : Date := newDate selectedYear (selectedMonth - 1) 1.
Definition endDate : Date := now.

(** [parseFloat(navData[0]?.nav || '0')] *)
Definition currentNav : num :=
  match navData with
  | [] => parseFloat "0"
  | first :: _ => parseFloat (orZero (nav first))
  end.

Definition startYear : Z := fullYear startDate.

(** The step-up block at the top of the loop body: the new
    [currentAmount] and [yearCounter]. *)
Definition stepUp (st : Loop.t) : num * Z :=
  match investmentType with
  | stepup =>
      let yearsDiff := fullYear (Loop.currentDate st) - startYear in
      if yearsDiff >? Loop.yearCounter st
      then (mul amount
              (pow (add one (div stepUpPercent (ofZ 100))) (Z.to_nat yearsDiff)),
            yearsDiff)
      else (Loop.currentAmount st, Loop.yearCounter st)
  | _ => (Loop.currentAmount st, Loop.yearCounter st)
  end.

(** The body of [while (currentDate <= endDate)]. *)
Definition body (st : Loop.t) : Loop.t :=
  let currentYear := fullYear (Loop.currentDate st) in
  let '(currentAmount, yearCounter) := stepUp st in
  let next := setMonth (Loop.currentDate st) (monthIdx (Loop.currentDate st) + 1) in
  match findNearestNav navData (Loop.currentDate st) with
  | Some navEntry =>
      let nav := parseFloat (nav navEntry) in
      let unitsBought := div currentAmount nav in
      {| Loop.totalUnits := add (Loop.totalUnits st) unitsBought;
         Loop.totalInvested := add (Loop.totalInvested st) currentAmount;
         Loop.currentDate := next;
         Loop.currentAmount := currentAmount;
         Loop.yearCounter := yearCounter;
         Loop.yearlyData :=
           track currentYear currentAmount unitsBought (Loop.yearlyData st) |}
  | None =>
      {| Loop.totalUnits := Loop.totalUnits st;
         Loop.totalInvested := Loop.totalInvested st;
         Loop.currentDate := next;
         Loop.currentAmount := currentAmount;
         Loop.yearCounter := yearCounter;
         Loop.yearlyData := Loop.yearlyData st |}
  end.

(** [currentDate <= endDate] *)
Definition running (st : Loop.t) : bool :=
  getTime (Loop.currentDate st) <=? getTime endDate.

Fixpoint loop (fuel : nat) (st : Loop.t) : Loop.t :=
  match fuel with
  | O => st
  | S f => if running st then loop f (body st) else st
  end.

(** A month is 28 days at least, which bounds the number of turns. *)
Definition turns : nat :=
  Z.to_nat ((getTime endDate - getTime startDate) / (28 * msPerDay) + 1).

Definition loopInit : Loop.t :=
  {| Loop.totalUnits := zero;
     Loop.totalInvested := zero;
     Loop.currentDate := startDate;
     Loop.currentAmount := amount;
     Loop.yearCounter := 0;
     Loop.yearlyData := [] |}.

Definition loopEnd : Loop.t := loop turns loopInit.

(** The contribution events of the loop: the date and [currentAmount] of
    each turn, after the step-up block. *)
Fixpoint schedule (fuel : nat) (st : Loop.t) : list (Date * num) :=
  match fuel with
  | O => []
  | S f =>
      if running st
      then (Loop.currentDate st, fst (stepUp st)) :: schedule f (body st)
      else []
  end.

(** The events of the whole run. *)
Definition events : list (Date * num) := schedule turns loopInit.

(** NAV at the end of year [yr]: the entry nearest to 31 December for a
    past year, [currentNav] for the current year or when there is none. *)
Definition endYearNavOf (yr : Z) : num :=
  if yr <? fullYear now then
    match findNearestNav navData (newDate yr 11 31) with
    | Some navEntry => parseFloat (nav navEntry)
    | None => currentNav
    end
  else currentNav.

(** [(x / base) * 100] when [base > 0], else 0. *)
Definition percentOf (x base : num) : num :=
  if gtb base zero then mul (div x base) (ofZ 100) else zero.

(** The body of [for (const yr of sortedYears)]; [yearlyData.get(yr)!]
    is defined for every [yr], a key of the map. *)
Definition buildStep (yearlyData : YearlyData) (b : Build.t) (yr : Z) : Build.t :=
  match mapGet yr yearlyData with
  | Some yd =>
      let cumulativeInvested := add (Build.cumulativeInvested b) (Yd.invested yd) in
      let cumulativeUnits := add (Build.cumulativeUnits b) (Yd.units yd) in
      let endYearNav := endYearNavOf yr in
      let value := mul cumulativeUnits endYearNav in
      let yearReturns := sub value cumulativeInvested in
      {| Build.cumulativeInvested := cumulativeInvested;
         Build.cumulativeUnits := cumulativeUnits;
         Build.rows := Build.rows b ++
           [ {| Row.year := yr;
                Row.invested := Yd.invested yd;
                Row.cumulativeInvested := cumulativeInvested;
                Row.units := Yd.units yd;
                Row.cumulativeUnits := cumulativeUnits;
                Row.value := value;
                Row.returns := yearReturns;
                Row.returnsPercent := percentOf yearReturns cumulativeInvested;
                Row.endYearNav := endYearNav |} ] |}
  | None => b
  end.

Definition buildBreakdown (yearlyData : YearlyData) : list Row.t :=
  Build.rows
    (fold_left (buildStep yearlyData) (sortYears (map fst yearlyData))
       {| Build.cumulativeInvested := zero; Build.cumulativeUnits := zero; Build.rows := [] |}).

(** The SIP / step-up branch. *)
Definition scheduleResult : Past.t :=
  let st := loopEnd in
  let currentValue := mul (Loop.totalUnits st) currentNav in
  let returns := sub currentValue (Loop.totalInvested st) in
  {| Past.totalInvested := Loop.totalInvested st;
     Past.currentValue := currentValue;
     Past.totalUnits := Loop.totalUnits st;
     Past.returns := returns;
     Past.returnsPercentage := percentOf returns (Loop.totalInvested st);
     Past.isProfit := geb returns zero;
     Past.yearlyBreakdown := buildBreakdown (Loop.yearlyData st) |}.

(** The years [startYear .. endYear] of the one-time loop. *)
Definition yearsFrom (first last : Z) : list Z :=
  map (fun i => first + Z.of_nat i) (seq 0 (Z.to_nat (last - first + 1))).

(** The one-time branch: [null] when no entry is found for the purchase. *)
Definition lumpSumResult : option Past.t :=
  match findNearestNav navData startDate with
  | None => None
  | Some purchaseNav =>
      let nav := parseFloat (nav purchaseNav) in
      let units := div amount nav in
      let currentValue := mul units currentNav in
      let returns := sub currentValue amount in
      let row (yr : Z) : Row.t :=
        let endYearNav := endYearNavOf yr in
        let yearValue := mul units endYearNav in
        let yearReturns := sub yearValue amount in
        {| Row.year := yr;
           Row.invested := if yr =? startYear then amount else zero;
           Row.cumulativeInvested := amount;
           Row.units := if yr =? startYear then units else zero;
           Row.cumulativeUnits := units;
           Row.value := yearValue;
           Row.returns := yearReturns;
           Row.returnsPercent := mul (div yearReturns amount) (ofZ 100);
           Row.endYearNav := endYearNav |} in
      Some {| Past.totalInvested := amount;
              Past.currentValue := currentValue;
              Past.totalUnits := units;
              Past.returns := returns;
              Past.returnsPercentage := mul (div returns amount) (ofZ 100);
              Past.isProfit := geb returns zero;
              Past.yearlyBreakdown := map row (yearsFrom startYear (fullYear endDate)) |}
  end.

(** The [result] memo of [PastAnalysis]; [None] is [null]. *)
Definition pastResult : option Past.t :=
  if falsy amount || (selectedYear =? 0) || (Nat.eqb (List.length navData) 0)
  then None
  else
    match investmentType with
    | onetime => lumpSumResult
    | _ => Some scheduleResult
    end.

End PastAnalysis.

(** *** FutureProjection *)

Module Future.
Record t : Type := mk {
  totalInvested : num;
  futureValue : num;
  returns : num;
  returnsPercentage : num;
  isProfit : bool
}.
End Future.

(** The variables of the step-up loops. *)
Module Grow.
Record t : Type := mk {
  totalInvested : num;
  futureValue : num;
  currentAmount : num
}.
End Grow.

Section FutureProjection.

Variable investmentType : InvestmentType.
Variable amount : num.

(** [years] is a whole number of years. *)
Variable years : nat.
Variable expectedReturn : num.
Variable stepUpPercent : num.

Definition monthlyRate : num := div (div expectedReturn (ofZ 100)) (ofZ 12).
Definition months : nat := years * 12.

Definition finish (totalInvested futureValue : num) : Future.t :=
  let returns := sub futureValue totalInvested in
  {| Future.totalInvested := totalInvested;
     Future.futureValue := futureValue;
     Future.returns := returns;
     Future.returnsPercentage := mul (div returns totalInvested) (ofZ 100);
     Future.isProfit := geb returns zero |}.

(** FV = P x ((1 + r)^n - 1) / r x (1 + r) *)
Definition sipProjection : Future.t :=
  let growth := pow (add one monthlyRate) months in
  let futureValue :=
    mul (mul amount (div (sub growth one) monthlyRate)) (add one monthlyRate) in
  finish (mul amount (ofZ (Z.of_nat months))) futureValue.

(** The body of [for (let month = 0; month < 12; month++)]. *)
Definition monthStep (monthsRemaining : nat) (g : Grow.t) (month : nat) : Grow.t :=
  let monthsToGrow := (monthsRemaining - month)%nat in
  let monthValue := mul (Grow.currentAmount g) (pow (add one monthlyRate) monthsToGrow) in
  {| Grow.totalInvested := add (Grow.totalInvested g) (Grow.currentAmount g);
     Grow.futureValue := add (Grow.futureValue g) monthValue;
     Grow.currentAmount := Grow.currentAmount g |}.

(** The body of [for (let year = 0; year < years; year++)]. *)
Definition yearStep (g : Grow.t) (year : nat) : Grow.t :=
  let monthsRemaining := ((years - year) * 12)%nat in
  let g' := fold_left (monthStep monthsRemaining) (seq 0 12) g in
  {| Grow.totalInvested := Grow.totalInvested g';
     Grow.futureValue := Grow.futureValue g';
     Grow.currentAmount :=
       mul (Grow.currentAmount g') (add one (div stepUpPercent (ofZ 100))) |}.

Definition stepUpProjection : Future.t :=
  let g := fold_left yearStep (seq 0 years)
             {| Grow.totalInvested := zero;
                Grow.futureValue := zero;
                Grow.currentAmount := amount |} in
  finish (Grow.totalInvested g) (Grow.futureValue g).

(** FV = P x (1 + r)^n *)
Definition lumpSumProjection : Future.t :=
  finish amount (mul amount (pow (add one monthlyRate) months)).

(** The [result] memo of [FutureProjection]; [None] is [null]. *)
Definition futureResult : option Future.t :=
  if falsy amount || Nat.eqb years 0 || falsy expectedReturn then None
  else
    Some match investmentType with
         | sip => sipProjection
         | stepup => stepUpProjection
         | onetime => lumpSumProjection
         end.

End FutureProjection.

End SipCalculator.

(** ** components/NavChart.tsx *)

Module NavChart.

Inductive TimePeriod : Type :=
| P1M
| P3M
| P6M
| P1Y
| P3Y
| P5Y
| ALL.

(** The [months] column of [TIME_PERIODS]; [None] is [null]. *)
Definition periodMonths (p : TimePeriod) : option Z :=
  match p with
  | P1M => Some 1
  | P3M => Some 3
  | P6M => Some 6
  | P1Y => Some 12
  | P3Y => Some 36
  | P5Y => Some 60
  | ALL => None
  end.

(** An entry of [periodReturns]. *)
Record PeriodReturn : Type := mkReturn {
  change : num;
  isPositive : bool
}.

(** The loop that finds the entry closest to the cutoff date. *)
Definition closestStep (cutoffTime : Z) (st : scan) (item : NavData) : scan :=
  match diffTo cutoffTime item with
  | Some diff =>
      if below diff (minDiff st)
      then {| nearest := Some item; minDiff := Finite diff |}
      else st
  | None => st
  end.

(** [startNav] for a period; [None] is [null]. *)
Definition startNavOf (now : Date) (data : list NavData) (p : TimePeriod)
  : option num :=
  match periodMonths p with
  | None =>
      (* data[data.length - 1] *)
      match rev data with
      | oldest :: _ => Some (parseFloat (nav oldest))
      | [] => None
      end
  | Some months =>
      let cutoffDate := setMonth now (monthIdx now - months) in
      let closest :=
        nearest (fold_left (closestStep (getTime cutoffDate)) data scanInit) in
      option_map (fun item => parseFloat (nav item)) closest
  end.

(** [periodReturns[p]]; every entry stays [null] for an empty feed. *)
Definition periodReturns (now : Date) (data : list NavData) (p : TimePeriod)
  : option PeriodReturn :=
  match data with
  | [] => None
  | first :: _ =>
      let latestNav := parseFloat (nav first) in
      match startNavOf now data p with
      | Some startNav =>
          if gtb startNav zero then
            let change := mul (div (sub latestNav startNav) startNav) (ofZ 100) in
            Some {| change := change; isPositive := geb change zero |}
          else None
      | None => None
      end
  end.

End NavChart.

(** ** components/FundDetails.tsx *)

Module FundDetails.

(** [parseFloat(latestNav?.nav || '0')] with [latestNav = data[0]]. *)
Definition latestNavValue (data : list NavData) : num :=
  match data with
  | [] => parseFloat "0"
  | latestNav :: _ => parseFloat (orZero (nav latestNav))
  end.

End FundDetails.

(** ** Vocabulary of the statements *)

(** The time values of the records whose date is valid, in array order. *)
Definition validTimes (navData : list NavData) : list Z :=
  flat_map (fun r => match navTime (date r) with
                     | Some t => [t]
                     | None => []
                     end) navData.

(** Sorted ascending by date. *)
Definition sortedAscending (navData : list NavData) : Prop :=
  StronglySorted Z.le (validTimes navData).

(** Every record has a valid date. *)
Definition datesValid (navData : list NavData) : Prop :=
  Forall (fun r => navTime (date r) <> None) navData.

(** Every record's value is a positive number. *)
Definition valuesPositive (navData : list NavData) : Prop :=
  Forall (fun r => exists v, parseFloat (nav r) = Fin v /\ (Q2Qc 0 < v)%Qc) navData.

(** [r] has a valid date, at distance [d] from the target. *)
Definition distance (targetDate : Date) (r : NavData) (d : Z) : Prop :=
  diffTo (getTime targetDate) r = Some d.

(** Sorted descending by date, newest first: the order of the feed. *)
Definition sortedDescending (navData : list NavData) : Prop :=
  StronglySorted Z.ge (validTimes navData).

Definition rec2020 : NavData := {| date := "01-01-2020"; nav := "10" |}.
Definition rec2023 : NavData := {| date := "01-01-2023"; nav := "20" |}.
Definition day1 : NavData := {| date := "01-01-2020"; nav := "10" |}.
Definition day3 : NavData := {| date := "03-01-2020"; nav := "12" |}.
Definition day9 : NavData := {| date := "09-01-2020"; nav := "15" |}.
Definition noDate : NavData := {| date := "n/a"; nav := "11" |}.

(** A clock reading used in the examples: 3 November 2026, 10:00. *)
Definition aNow : Date :=
  {| fullYear := 2026; monthIdx := 10; dayOfMonth := 3; msOfDay := 36000000 |}.

(** What the exhaustive scan holds after the entries [seen]: nothing when
    none of them has a valid date, else the first of the closest ones. *)
Definition firstClosest (T : Z) (seen : list NavData) (st : scan) : Prop :=
  match nearest st with
  | None => minDiff st = Infinity /\ forall e, In e seen -> diffTo T e = None
  | Some r =>
      exists d pre post,
        seen = pre ++ r :: post /\
        diffTo T r = Some d /\
        minDiff st = Finite d /\
        (forall e d', In e pre -> diffTo T e = Some d' -> d < d') /\
        (forall e d', In e post -> diffTo T e = Some d' -> d <= d')
  end.


(** The sum of a list of numbers. *)
Definition sumNums (l : list num) : num := fold_right add zero l.

(** Numbers in non-decreasing order: each is [<=] every later one. *)
Definition nonDecreasing (l : list num) : Prop :=
  StronglySorted (fun x y => leb x y = true) l.

(** Years in strictly ascending order. *)
Definition yearsAscending (l : list Z) : Prop := StronglySorted Z.lt l.

(** A positive finite number. *)
Definition positive (x : num) : Prop :=
  exists q, x = Fin q /\ (Q2Qc 0 < q)%Qc.

Module SC := SipCalculator.

(** The sum of a field over the records of [yearlyData]. *)
Definition sumBy (f : SC.Yd.t -> num) (m : SC.YearlyData) : num :=
  sumNums (map (fun kv => f (snd kv)) m).

(** The sum of a field over the records that [yearlyData] holds for the
    years [ks]. *)
Definition sumKeys (f : SC.Yd.t -> num) (m : SC.YearlyData) (ks : list Z) : num :=
  sumNums (map (fun k => match SC.mapGet k m with
                         | Some yd => f yd
                         | None => zero
                         end) ks).

(** Both fields of every record are positive. *)
Definition recordsPositive (m : SC.YearlyData) : Prop :=
  Forall (fun kv => positive (SC.Yd.invested (snd kv)) /\
                    positive (SC.Yd.units (snd kv))) m.

(** The amount of the second year of a step-up of 10% on 5000. *)
Definition secondYearAmount : num :=
  mul (ofZ 5000) (pow (add one (div (ofZ 10) (ofZ 100))) 1).

(** A feed in the order of the API, newest record first. *)
Definition feed : list NavData := [day9; day3; day1].

(** [x + x^2 + ... + x^n] *)
Fixpoint geomSum (x : Qc) (n : nat) : Qc :=
  match n with
  | O => Q2Qc 0
  | S k => (geomSum x k + x ^ S k)%Qc
  end.

(** A natural number as a rational. *)
Definition qnat (n : nat) : Qc := Q2Qc (inject_Z (Z.of_nat n)).

(** ** The projections and the past analysis on binary64 numbers

    The definitions above compute on exact rationals.  The code computes on
    binary64 numbers, where every operation rounds, so that two sums of the
    same terms taken in different orders, or a repeated sum and a product,
    need not be the same number.  This module is the same code on
    binary64 numbers, with IEEE 754 addition, subtraction, multiplication,
    division and comparison.  [Math.pow] and [parseFloat], whose results the
    language leaves to the implementation or which read a decimal string,
    are parameters.  It is used where rounding decides. *)

Module B64.

Local Open Scope float_scope.

(** A whole number as a binary64 number; exact below 2^53. *)
Definition ofInt (z : Z) : float :=
  if (z <? 0)%Z then - of_uint63 (Uint63.of_Z (- z))
  else of_uint63 (Uint63.of_Z z).

(** [!x]: zero of either sign and NaN are the falsy numbers. *)
Definition falsy (x : float) : bool := (x =? 0) || is_nan x.

(** *** FutureProjection *)

Module Future.
Record t : Type := mk {
  totalInvested : float;
  futureValue : float;
  returns : float;
  returnsPercentage : float;
  isProfit : bool
}.
End Future.

Module Grow.
Record t : Type := mk {
  totalInvested : float;
  futureValue : float;
  currentAmount : float
}.
End Grow.

Section FutureProjection.

(** [Math.pow] *)
Variable pow : float -> float -> float.

Variable investmentType : SipCalculator.InvestmentType.
Variable amount : float.
Variable years : float.
Variable expectedReturn : float.
Variable stepUpPercent : float.

Definition monthlyRate : float := expectedReturn / 100 / 12.
Definition months : float := years * 12.

Definition finish (totalInvested futureValue : float) : Future.t :=
  let returns := futureValue - totalInvested in
  {| Future.totalInvested := totalInvested;
     Future.futureValue := futureValue;
     Future.returns := returns;
     Future.returnsPercentage := (returns / totalInvested) * 100;
     Future.isProfit := 0 <=? returns |}.

Definition sipProjection : Future.t :=
  let futureValue :=
    amount * ((pow (1 + monthlyRate) months - 1) / monthlyRate)
    * (1 + monthlyRate) in
  finish (amount * months) futureValue.

(** The body of [for (let month = 0; month < 12; month++)]. *)
Definition monthStep (monthsRemaining : float) (g : Grow.t) (month : nat)
  : Grow.t :=
  let monthsToGrow := monthsRemaining - ofInt (Z.of_nat month) in
  let monthValue := Grow.currentAmount g * pow (1 + monthlyRate) monthsToGrow in
  {| Grow.totalInvested := Grow.totalInvested g + Grow.currentAmount g;
     Grow.futureValue := Grow.futureValue g + monthValue;
     Grow.currentAmount := Grow.currentAmount g |}.

(** The body of [for (let year = 0; year < years; year++)]. *)
Definition yearStep (g : Grow.t) (year : nat) : Grow.t :=
  let monthsRemaining := (years - ofInt (Z.of_nat year)) * 12 in
  let g' := fold_left (monthStep monthsRemaining) (seq 0%nat 12%nat) g in
  {| Grow.totalInvested := Grow.totalInvested g';
     Grow.futureValue := Grow.futureValue g';
     Grow.currentAmount :=
       Grow.currentAmount g' * (1 + stepUpPercent / 100) |}.

(** The loop over the years, from [year] on, with a budget of turns: [None]
    when the budget runs out before the test [year < years] fails. *)
Fixpoint yearLoop (fuel : nat) (year : nat) (g : Grow.t) : option Grow.t :=
  if ofInt (Z.of_nat year) <? years then
    match fuel with
    | O => None
    | S f => yearLoop f (S year) (yearStep g year)
    end
  else Some g.

Definition stepUpProjection (fuel : nat) : option Future.t :=
  option_map (fun g => finish (Grow.totalInvested g) (Grow.futureValue g))
    (yearLoop fuel 0%nat
       {| Grow.totalInvested := 0;
          Grow.futureValue := 0;
          Grow.currentAmount := amount |}).

Definition lumpSumProjection : Future.t :=
  finish amount (amount * pow (1 + monthlyRate) months).

(** The [result] memo of [FutureProjection]: [Some None] is [null], and
    [None] a budget of turns that ran out. *)
Definition futureResult (fuel : nat) : option (option Future.t) :=
  if falsy amount || falsy years || falsy expectedReturn then Some None
  else
    match investmentType with
    | SipCalculator.sip => Some (Some sipProjection)
    | SipCalculator.stepup => option_map Some (stepUpProjection fuel)
    | SipCalculator.onetime => Some (Some lumpSumProjection)
    end.

End FutureProjection.

(** *** PastAnalysis *)

Module Yd.
Record t : Type := mk {
  invested : float;
  units : float
}.
End Yd.

(** [yearlyData]: a Map from the year to its record, in insertion order. *)
Definition YearlyData : Type := list (Z * Yd.t).

Fixpoint mapGet (k : Z) (m : YearlyData) : option Yd.t :=
  match m with
  | [] => None
  | (k', v) :: rest => if (k' =? k)%Z then Some v else mapGet k rest
  end.

Definition mapHas (k : Z) (m : YearlyData) : bool :=
  match mapGet k m with
  | Some _ => true
  | None => false
  end.

Fixpoint mapSet (k : Z) (v : Yd.t) (m : YearlyData) : YearlyData :=
  match m with
  | [] => [(k, v)]
  | (k', v') :: rest =>
      if (k' =? k)%Z then (k, v) :: rest else (k', v') :: mapSet k v rest
  end.

(** The tracking block of the loop body: the record of the year is created
    at zero when the map has none, then the contribution is added to it. *)
Definition track (currentYear : Z) (currentAmount unitsBought : float)
    (m : YearlyData) : YearlyData :=
  let m1 :=
    if mapHas currentYear m then m
    else mapSet currentYear {| Yd.invested := 0; Yd.units := 0 |} m in
  match mapGet currentYear m1 with
  | Some yd =>
      mapSet currentYear
        {| Yd.invested := Yd.invested yd + currentAmount;
           Yd.units := Yd.units yd + unitsBought |} m1
  | None => m1
  end.

Module Row.
Record t : Type := mk {
  year : Z;
  invested : float;
  cumulativeInvested : float;
  units : float;
  cumulativeUnits : float;
  value : float;
  returns : float;
  returnsPercent : float;
  endYearNav : float
}.
End Row.

Module Past.
Record t : Type := mk {
  totalInvested : float;
  currentValue : float;
  totalUnits : float;
  returns : float;
  returnsPercentage : float;
  isProfit : bool;
  yearlyBreakdown : list Row.t
}.
End Past.

Module Loop.
Record t : Type := mk {
  totalUnits : float;
  totalInvested : float;
  currentDate : Date;
  currentAmount : float;
  yearCounter : Z;
  yearlyData : YearlyData
}.
End Loop.

Module Build.
Record t : Type := mk {
  cumulativeInvested : float;
  cumulativeUnits : float;
  rows : list Row.t
}.
End Build.

Section PastAnalysis.

(** [Math.pow] and [parseFloat] *)
Variable pow : float -> float -> float.
Variable parseFloat : string -> float.

Variable now : Date.
Variable navData : list NavData.
Variable investmentType : SipCalculator.InvestmentType.
Variable amount : float.
Variable stepUpPercent : float.
Variable selectedYear : Z.
Variable selectedMonth : Z.

Definition startDate : Date := SipCalculator.startDate selectedYear selectedMonth.
Definition startYear : Z := fullYear startDate.

(** [parseFloat(navData[0]?.nav || '0')] *)
Definition currentNav : float :=
  match navData with
  | [] => parseFloat "0"
  | first :: _ => parseFloat (orZero (nav first))
  end.

(** The step-up block at the top of the loop body: the new
    [currentAmount] and [yearCounter]. *)
Definition stepUp (st : Loop.t) : float * Z :=
  match investmentType with
  | SipCalculator.stepup =>
      let yearsDiff := (fullYear (Loop.currentDate st) - startYear)%Z in
      if (yearsDiff >? Loop.yearCounter st)%Z
      then (amount * pow (1 + stepUpPercent / 100) (ofInt yearsDiff), yearsDiff)
      else (Loop.currentAmount st, Loop.yearCounter st)
  | _ => (Loop.currentAmount st, Loop.yearCounter st)
  end.

(** The body of [while (currentDate <= endDate)]. *)
Definition body (st : Loop.t) : Loop.t :=
  let currentYear := fullYear (Loop.currentDate st) in
  let '(currentAmount, yearCounter) := stepUp st in
  let next := setMonth (Loop.currentDate st) (monthIdx (Loop.currentDate st) + 1) in
  match SipCalculator.findNearestNav navData (Loop.currentDate st) with
  | Some navEntry =>
      let nav := parseFloat (nav navEntry) in
      let unitsBought := currentAmount / nav in
      {| Loop.totalUnits := Loop.totalUnits st + unitsBought;
         Loop.totalInvested := Loop.totalInvested st + currentAmount;
         Loop.currentDate := next;
         Loop.currentAmount := currentAmount;
         Loop.yearCounter := yearCounter;
         Loop.yearlyData :=
           track currentYear currentAmount unitsBought (Loop.yearlyData st) |}
  | None =>
      {| Loop.totalUnits := Loop.totalUnits st;
         Loop.totalInvested := Loop.totalInvested st;
         Loop.currentDate := next;
         Loop.currentAmount := currentAmount;
         Loop.yearCounter := yearCounter;
         Loop.yearlyData := Loop.yearlyData st |}
  end.

(** [currentDate <= endDate] *)
Definition running (st : Loop.t) : bool :=
  (getTime (Loop.currentDate st) <=? getTime now)%Z.

Fixpoint loop (fuel : nat) (st : Loop.t) : Loop.t :=
  match fuel with
  | O => st
  | S f => if running st then loop f (body st) else st
  end.

Definition loopInit : Loop.t :=
  {| Loop.totalUnits := 0;
     Loop.totalInvested := 0;
     Loop.currentDate := startDate;
     Loop.currentAmount := amount;
     Loop.yearCounter := 0%Z;
     Loop.yearlyData := [] |}.

(** The budget of turns is that of the loop on exact numbers, which the
    dates alone determine. *)
Definition loopEnd : Loop.t :=
  loop (SipCalculator.turns now selectedYear selectedMonth) loopInit.

(** NAV at the end of year [yr]: the entry nearest to 31 December for a
    past year, [currentNav] for the current year or when there is none. *)
Definition endYearNavOf (yr : Z) : float :=
  if (yr <? fullYear now)%Z then
    match SipCalculator.findNearestNav navData (newDate yr 11 31) with
    | Some navEntry => parseFloat (nav navEntry)
    | None => currentNav
    end
  else currentNav.

(** [(x / base) * 100] when [base > 0], else 0. *)
Definition percentOf (x base : float) : float :=
  if 0 <? base then (x / base) * 100 else 0.

(** The body of [for (const yr of sortedYears)]. *)
Definition buildStep (yearlyData : YearlyData) (b : Build.t) (yr : Z) : Build.t :=
  match mapGet yr yearlyData with
  | Some yd =>
      let cumulativeInvested := Build.cumulativeInvested b + Yd.invested yd in
      let cumulativeUnits := Build.cumulativeUnits b + Yd.units yd in
      let endYearNav := endYearNavOf yr in
      let value := cumulativeUnits * endYearNav in
      let yearReturns := value - cumulativeInvested in
      {| Build.cumulativeInvested := cumulativeInvested;
         Build.cumulativeUnits := cumulativeUnits;
         Build.rows := Build.rows b ++
           [ {| Row.year := yr;
                Row.invested := Yd.invested yd;
                Row.cumulativeInvested := cumulativeInvested;
                Row.units := Yd.units yd;
                Row.cumulativeUnits := cumulativeUnits;
                Row.value := value;
                Row.returns := yearReturns;
                Row.returnsPercent := percentOf yearReturns cumulativeInvested;
                Row.endYearNav := endYearNav |} ] |}
  | None => b
  end.

Definition buildBreakdown (yearlyData : YearlyData) : list Row.t :=
  Build.rows
    (fold_left (buildStep yearlyData)
       (SipCalculator.sortYears (map fst yearlyData))
       {| Build.cumulativeInvested := 0; Build.cumulativeUnits := 0;
          Build.rows := [] |}).

(** The SIP / step-up branch. *)
Definition scheduleResult : Past.t :=
  let st := loopEnd in
  let currentValue := Loop.totalUnits st * currentNav in
  let returns := currentValue - Loop.totalInvested st in
  {| Past.totalInvested := Loop.totalInvested st;
     Past.currentValue := currentValue;
     Past.totalUnits := Loop.totalUnits st;
     Past.returns := returns;
     Past.returnsPercentage := percentOf returns (Loop.totalInvested st);
     Past.isProfit := 0 <=? returns;
     Past.yearlyBreakdown := buildBreakdown (Loop.yearlyData st) |}.

(** The one-time branch. *)
Definition lumpSumResult : option Past.t :=
  match SipCalculator.findNearestNav navData startDate with
  | None => None
  | Some purchaseNav =>
      let nav := parseFloat (nav purchaseNav) in
      let units := amount / nav in
      let currentValue := units * currentNav in
      let returns := currentValue - amount in
      let row (yr : Z) : Row.t :=
        let endYearNav := endYearNavOf yr in
        let yearValue := units * endYearNav in
        let yearReturns := yearValue - amount in
        {| Row.year := yr;
           Row.invested := if (yr =? startYear)%Z then amount else 0;
           Row.cumulativeInvested := amount;
           Row.units := if (yr =? startYear)%Z then units else 0;
           Row.cumulativeUnits := units;
           Row.value := yearValue;
           Row.returns := yearReturns;
           Row.returnsPercent := (yearReturns / amount) * 100;
           Row.endYearNav := endYearNav |} in
      Some {| Past.totalInvested := amount;
              Past.currentValue := currentValue;
              Past.totalUnits := units;
              Past.returns := returns;
              Past.returnsPercentage := (returns / amount) * 100;
              Past.isProfit := 0 <=? returns;
              Past.yearlyBreakdown :=
                map row (SipCalculator.yearsFrom startYear (fullYear now)) |}
  end.

(** The [result] memo of [PastAnalysis]; [None] is [null]. *)
Definition pastResult : option Past.t :=
  if falsy amount || (selectedYear =? 0)%Z || Nat.eqb (List.length navData) 0%nat
  then None
  else
    match investmentType with
    | SipCalculator.onetime => lumpSumResult
    | _ => Some scheduleResult
    end.

End PastAnalysis.

(** The sum of numbers, added from left to right to 0. *)
Definition sumLeft (l : list float) : float := fold_left PrimFloat.add l 0.

End B64.

(** ** Vocabulary of the sums of contributions *)

(** A projection at a constant amount over [n] whole years: what the
    contribution of month [i] (counted from 0), which has [12 n - i] months
    to grow, is worth at the end. *)
Definition grownAt (pow : float -> float -> float)
    (amount expectedReturn : float) (n i : nat) : float :=
  (amount * pow (1 + B64.monthlyRate expectedReturn)
             (B64.ofInt (Z.of_nat (12 * n - i))))%float.

(** The state of the year loop of the projection after the contributions of
    the months [l] at the constant amount. *)
Definition contributed (pow : float -> float -> float)
    (amount expectedReturn : float) (n : nat) (l : list nat) (g : B64.Grow.t)
  : B64.Grow.t :=
  {| B64.Grow.totalInvested :=
       fold_left PrimFloat.add (map (fun _ => amount) l)
         (B64.Grow.totalInvested g);
     B64.Grow.futureValue :=
       fold_left PrimFloat.add (map (grownAt pow amount expectedReturn n) l)
         (B64.Grow.futureValue g);
     B64.Grow.currentAmount := amount |}.

(** The binary64 arithmetic of the loop counters of a projection over [n]
    whole years is that of the whole numbers: [n] is truthy, [n * 12] is the
    number of months, the test [year < years] is the comparison of the whole
    numbers, and [(years - year) * 12 - month] is the whole number of months
    left. *)
Definition wholeYearsChecked (n : nat) : bool :=
  negb (B64.falsy (B64.ofInt (Z.of_nat n))) &&
  PrimFloat.Leibniz.eqb (B64.ofInt (Z.of_nat n) * 12)%float
                        (B64.ofInt (Z.of_nat (12 * n))) &&
  forallb (fun y =>
             Bool.eqb (B64.ofInt (Z.of_nat y) <? B64.ofInt (Z.of_nat n))%float
                      (y <? n)%nat)
          (seq 0 (S n)) &&
  forallb (fun y =>
     forallb (fun m =>
        PrimFloat.Leibniz.eqb
          ((B64.ofInt (Z.of_nat n) - B64.ofInt (Z.of_nat y)) * 12
           - B64.ofInt (Z.of_nat m))%float
          (B64.ofInt (Z.of_nat (12 * n - (12 * y + m)))))
       (seq 0 12))
    (seq 0 n).

(** The sum of numbers, added from left to right to 0, as a loop with an
    accumulator adds them. *)
Definition sumLeft (l : list num) : num := fold_left add l zero.

(** The running totals of a list of numbers, from left to right. *)
Fixpoint runningFrom (acc : num) (l : list num) : list num :=
  match l with
  | [] => []
  | x :: rest => add acc x :: runningFrom (add acc x) rest
  end.

Definition runningSums (l : list num) : list num := runningFrom zero l.

(** The events of a schedule that fall in the calendar year [y]. *)
Definition inYear (y : Z) (event : Date * num) : bool :=
  fullYear (fst event) =? y.

(** ** Vocabulary of the further properties *)

(** The entries of an array up to and including the first one dated after
    the target: what the early-exit lookup of mfApi.ts gets to see. *)
Fixpoint uptoPassed (targetTime : Z) (l : list NavData) : list NavData :=
  match l with
  | [] => []
  | entry :: rest =>
      if MfApi.passed targetTime entry then [entry]
      else entry :: uptoPassed targetTime rest
  end.

(** The units an event of the schedule buys: its amount over the NAV of the
    record nearest to its date. *)
Definition unitsBoughtAt (navData : list NavData) (event : Date * num) : num :=
  match SC.findNearestNav navData (fst event) with
  | Some navEntry => div (snd event) (parseFloat (nav navEntry))
  | None => zero
  end.

(** A sample run of the schedule mode. *)
Definition sampleRun : SC.Past.t :=
  SC.scheduleResult aNow feed SC.stepup (ofZ 5000) (ofZ 10) 2024 1.

(** Months counted from year 0: the number of the month of a Date, the
    first instant of the month with a given number, and the day number of
    its first day. *)
Definition monthNumber (d : Date) : Z := 12 * fullYear d + monthIdx d.

Definition monthFirst (i : Z) : Date :=
  {| fullYear := i / 12; monthIdx := i mod 12; dayOfMonth := 1; msOfDay := 0 |}.

Definition firstDay (i : Z) : Z :=
  dayFromYear (i / 12) + monthStart (inLeapYear (i / 12)) (i mod 12).

(** The fields [getFullYear()], [getMonth()], [getDate()] and the time of
    day of an instant: a day that its month has, a time within the day. *)
Definition validDate (d : Date) : Prop :=
  0 <= monthIdx d <= 11 /\
  1 <= dayOfMonth d <= daysInMonth (inLeapYear (fullYear d)) (monthIdx d) /\
  0 <= msOfDay d < msPerDay.

(** The months of the schedule that starts in month [selectedMonth] of
    [selectedYear] and runs through the month of [now]. *)
Definition monthsThrough (now : Date) (selectedYear selectedMonth : Z) : nat :=
  Z.to_nat (monthNumber now - (12 * selectedYear + selectedMonth - 1) + 1).

(** A sample run of the regular mode. *)
Definition sampleRegularRun : SC.Past.t :=
  SC.scheduleResult aNow feed SC.sip (Fin (Q2Qc 5000)) (ofZ 10) 2024 1.

(** ** PastAnalysis: the date string of the selection *)

(** The decimal digit [d], 0..9, as a character. *)
Definition digitChar (d : Z) : ascii := ascii_of_nat (Z.to_nat (48 + d)).

(** The decimal digits of [n >= 0] in front of [acc]. *)
Fixpoint digitsOf (fuel : nat) (n : Z) (acc : string) : string :=
  match fuel with
  | O => acc
  | S f =>
      let acc' := String (digitChar (n mod 10)) acc in
      if n <? 10 then acc' else digitsOf f (n / 10) acc'
  end.

(** [String(n)] and [`${n}`] for an integer [n]. *)
Definition numberToString (n : Z) : string :=
  let digits (m : Z) := digitsOf (S (Z.to_nat (Z.log2 m))) m EmptyString in
  if n <? 0 then String "-"%char (digits (- n)) else digits n.

(** [s.padStart(targetLength, pad)] for a one-character [pad]. *)
Fixpoint fillStart (n : nat) (pad : ascii) (s : string) : string :=
  match n with
  | O => s
  | S k => String pad (fillStart k pad s)
  end.

Definition padStart (targetLength : nat) (pad : ascii) (s : string) : string :=
  fillStart (targetLength - String.length s) pad s.

(** [selectedYear ? `${selectedYear}-${String(selectedMonth).padStart(2, '0')}` : ''] *)
Definition selectedFromDate (selectedYear selectedMonth : Z) : string :=
  if selectedYear =? 0 then EmptyString
  else
    String.append (numberToString selectedYear)
      (String "-"%char (padStart 2 "0"%char (numberToString selectedMonth))).

(** [selectedFromDate.split('-').map(Number)] *)
Definition dateFields (s : string) : list (option Z) :=
  map toNumber (splitOn "-"%char s).

(** ** components/NavChart.tsx: the data of the chart *)

Module Chart.

Import NavChart.

(** [new Date()] moved back by [months]: [setMonth(getMonth() - months)]. *)
Definition cutoffDate (now : Date) (months : Z) : Date :=
  setMonth now (monthIdx now - months).

(** [itemDate >= cutoffDate], false for an invalid date. *)
Definition inWindow (cutoff : Date) (item : NavData) : bool :=
  match navTime (date item) with
  | Some t => getTime cutoff <=? t
  | None => false
  end.

(** The [filteredData] memo. *)
Definition filteredData (now : Date) (data : list NavData)
    (selectedPeriod : TimePeriod) : list NavData :=
  match data with
  | [] => []
  | _ =>
      match periodMonths selectedPeriod with
      | None => data
      | Some months => filter (inWindow (cutoffDate now months)) data
      end
  end.

(** [l.filter((_, i) => keep(i))], counting from index [i]. *)
Fixpoint filterIndexed {A : Type} (keep : nat -> bool) (i : nat) (l : list A)
  : list A :=
  match l with
  | [] => []
  | x :: rest =>
      if keep i then x :: filterIndexed keep (S i) rest
      else filterIndexed keep (S i) rest
  end.

(** [Math.ceil(n / 365)] *)
Definition stepOf (n : nat) : nat := (n + 364) / 365.

(** The items of [chartData], oldest first: the window reversed, and one
    item in every [step] when there are more than 365. *)
Definition sampled (filteredData : list NavData) : list NavData :=
  let reversed := rev filteredData in
  if (365 <? List.length reversed)%nat then
    let step := stepOf (List.length reversed) in
    filterIndexed (fun i => Nat.eqb (i mod step) 0) 0 reversed
  else reversed.

(** [chartData.map(d => d.nav)] *)
Definition chartNavs (filteredData : list NavData) : list num :=
  map (fun item => parseFloat (nav item)) (sampled filteredData).

(** [Math.min(...xs)] and [Math.max(...xs)]: NaN as soon as one argument is
    NaN, and [Infinity] and [-Infinity] with no argument. *)
Definition min2 (a b : num) : num :=
  match a, b with
  | NaN, _ | _, NaN => NaN
  | _, _ => if ltb b a then b else a
  end.

Definition max2 (a b : num) : num :=
  match a, b with
  | NaN, _ | _, NaN => NaN
  | _, _ => if gtb b a then b else a
  end.

Definition mathMin (xs : list num) : num := fold_left min2 xs PInf.
Definition mathMax (xs : list num) : num := fold_left max2 xs NInf.

(** The domain of the value axis: 2% below the lowest and 2% above the
    highest value plotted, [0, 100] for an empty chart. *)
Definition minNav (filteredData : list NavData) : num :=
  match chartNavs filteredData with
  | [] => zero
  | navs => mul (mathMin navs) (Fin (Q2Qc (98 # 100)))
  end.

Definition maxNav (filteredData : list NavData) : num :=
  match chartNavs filteredData with
  | [] => ofZ 100
  | navs => mul (mathMax navs) (Fin (Q2Qc (102 # 100)))
  end.

End Chart.

(** Newest first with no two records on the same date: the feed's order. *)
Definition strictlyDescending (navData : list NavData) : Prop :=
  StronglySorted Z.gt (validTimes navData).

(** ** PastAnalysis: the dates on offer and the selection *)

Module Selection.

(** A number that is an integer or NaN ([None]): a year or a month read
    off a Date, which is NaN when the Date is invalid. *)
Definition jsInt : Type := option Z.

(** SameValueZero, the equality of Map keys, Set members and [includes]. *)
Definition sameValueZero (a b : jsInt) : bool :=
  match a, b with
  | Some x, Some y => x =? y
  | None, None => true
  | _, _ => false
  end.

(** The comparator [(a, b) => a - b]; a sort reads NaN as 0. *)
Definition byNumber (a b : jsInt) : Z :=
  match a, b with
  | Some x, Some y => x - y
  | _, _ => 0
  end.

(** [l.sort(compare)], stable, as an insertion sort. *)
Fixpoint insertBy {A : Type} (compare : A -> A -> Z) (a : A) (l : list A)
  : list A :=
  match l with
  | [] => [a]
  | b :: rest =>
      if compare a b <=? 0 then a :: l else b :: insertBy compare a rest
  end.

Definition sortBy {A : Type} (compare : A -> A -> Z) (l : list A) : list A :=
  fold_right (insertBy compare) [] l.

(** [getFullYear()] and [getMonth() + 1] of a Date that may be invalid. *)
Definition yearOf (d : option Date) : jsInt := option_map fullYear d.
Definition monthOf (d : option Date) : jsInt :=
  option_map (fun x => monthIdx x + 1) d.

(** The entries [{ date, str }] and their comparator
    [a.date.getTime() - b.date.getTime()]. *)
Definition Entry : Type := (option Date * string)%type.

Definition byTime (a b : Entry) : Z :=
  match fst a, fst b with
  | Some x, Some y => getTime x - getTime y
  | _, _ => 0
  end.

(** A [Set<number>], in insertion order. *)
Definition setHas (x : jsInt) (s : list jsInt) : bool :=
  existsb (sameValueZero x) s.

Definition setAdd (x : jsInt) (s : list jsInt) : list jsInt :=
  if setHas x s then s else s ++ [x].

(** A Map from year to months, in insertion order. *)
Definition YearMonths : Type := list (jsInt * list jsInt).

Fixpoint ymGet (k : jsInt) (m : YearMonths) : option (list jsInt) :=
  match m with
  | [] => None
  | (k', v) :: rest => if sameValueZero k' k then Some v else ymGet k rest
  end.

Definition ymHas (k : jsInt) (m : YearMonths) : bool :=
  match ymGet k m with
  | Some _ => true
  | None => false
  end.

Fixpoint ymSet (k : jsInt) (v : list jsInt) (m : YearMonths) : YearMonths :=
  match m with
  | [] => [(k, v)]
  | (k', v') :: rest =>
      if sameValueZero k' k then (k, v) :: rest else (k', v') :: ymSet k v rest
  end.

(** The body of [for (const d of dates)].  The Set is the object stored in
    the map, so [add] updates the map's entry. *)
Definition yearMonthStep (yearMonthMap : YearMonths) (d : Entry) : YearMonths :=
  let year := yearOf (fst d) in
  let month := monthOf (fst d) in
  let m1 := if ymHas year yearMonthMap then yearMonthMap
            else ymSet year [] yearMonthMap in
  match ymGet year m1 with
  | Some months => ymSet year (setAdd month months) m1
  | None => m1
  end.

(** The value of the [dateInfo] memo; for [minDate] and [maxDate], [None]
    is [null] and [Some None] an invalid Date. *)
Record DateInfo : Type := mkInfo {
  years : list jsInt;
  monthsByYear : YearMonths;
  minDate : option (option Date);
  maxDate : option (option Date)
}.

Definition dateInfo (navData : list NavData) : DateInfo :=
  match navData with
  | [] => {| years := []; monthsByYear := []; minDate := None; maxDate := None |}
  | _ =>
      let dates :=
        sortBy byTime (map (fun d => (parseNavDate (date d), date d)) navData) in
      let yearMonthMap := fold_left yearMonthStep dates [] in
      {| years := sortBy byNumber (map fst yearMonthMap);
         monthsByYear :=
           fold_left (fun acc ym => ymSet (fst ym) (sortBy byNumber (snd ym)) acc)
             yearMonthMap [];
         minDate := option_map fst (hd_error dates);
         maxDate := option_map fst (hd_error (rev dates)) |}
  end.

(** A state variable or a local that holds a number or [undefined]
    ([None]). *)
Definition Slot : Type := option jsInt.

(** [!x]: [undefined], NaN and 0 are falsy. *)
Definition truthy (x : Slot) : bool :=
  match x with
  | Some (Some z) => negb (z =? 0)
  | _ => false
  end.

(** [x || y] *)
Definition orElse (x y : Slot) : Slot := if truthy x then x else y.

(** [x === n] for a number [n]. *)
Definition strictEq (x : Slot) (n : Z) : bool :=
  match x with
  | Some (Some z) => z =? n
  | _ => false
  end.

(** [yr <= targetYear], false for NaN. *)
Definition notAfter (yr : jsInt) (targetYear : Z) : bool :=
  match yr with
  | Some y => y <=? targetYear
  | None => false
  end.

(** "Find closest available year": [years[0]], then the last year of the
    list that is not after the target. *)
Definition closestYear (years : list jsInt) (targetYear : Z) : Slot :=
  fold_left (fun chosen yr => if notAfter yr targetYear then Some yr else chosen)
    years (hd_error years).

(** [dateInfo.monthsByYear.get(year) || [1]] *)
Definition monthsOf (info : DateInfo) (year : Slot) : list jsInt :=
  match year with
  | Some y =>
      match ymGet y (monthsByYear info) with
      | Some months => months
      | None => [Some 1]
      end
  | None => [Some 1]
  end.

(** [months.find(m => m >= targetMonth)] *)
Definition findFrom (targetMonth : Z) (months : list jsInt) : Slot :=
  find (fun m => match m with
                 | Some x => targetMonth <=? x
                 | None => false
                 end) months.

(** [months[months.length - 1]] *)
Definition lastOf (months : list jsInt) : Slot := hd_error (rev months).

(** [d.setFullYear(y)]: 29 February becomes 1 March in a common year. *)
Definition setFullYear (d : Date) (y : Z) : Date :=
  normalize
    {| fullYear := y;
       monthIdx := monthIdx d;
       dayOfMonth := dayOfMonth d;
       msOfDay := msOfDay d |}.

(** [const target = new Date(); target.setFullYear(target.getFullYear() - n)] *)
Definition yearsBack (now : Date) (n : Z) : Date :=
  setFullYear now (fullYear now - n).

(** [setPresetFromYearsAgo(yearsAgo)]: the new [selectedYear] and
    [selectedMonth]. *)
Definition setPresetFromYearsAgo (now : Date) (info : DateInfo) (yearsAgo : Z)
  : Slot * Slot :=
  let target := yearsBack now yearsAgo in
  let targetYear := fullYear target in
  let targetMonth := monthIdx target + 1 in
  let chosenYear := closestYear (years info) targetYear in
  let months := monthsOf info chosenYear in
  (chosenYear,
   if strictEq chosenYear targetYear
   then orElse (findFrom targetMonth months) (lastOf months)
   else lastOf months).

(** The effect that sets the default date, three years back: the new
    [selectedYear] and [selectedMonth]. *)
Definition defaultDate (now : Date) (info : DateInfo)
    (selectedYear selectedMonth : Slot) : Slot * Slot :=
  match years info with
  | [] => (selectedYear, selectedMonth)
  | _ =>
      if truthy selectedYear then (selectedYear, selectedMonth)
      else
        let threeYearsAgo := yearsBack now 3 in
        let targetYear := fullYear threeYearsAgo in
        let targetMonth := monthIdx threeYearsAgo + 1 in
        let defaultYear := closestYear (years info) targetYear in
        let availableMonths := monthsOf info defaultYear in
        (defaultYear,
         if strictEq defaultYear targetYear
         then orElse (findFrom targetMonth availableMonths)
                (lastOf availableMonths)
         else hd_error availableMonths)
  end.

(** [handleYearChange(year)]: the new [selectedYear] and [selectedMonth]. *)
Definition handleYearChange (info : DateInfo) (selectedMonth : Slot)
    (year : jsInt) : Slot * Slot :=
  let availableMonths := monthsOf info (Some year) in
  let included :=
    match selectedMonth with
    | Some m => setHas m availableMonths
    | None => false
    end in
  (Some year, if included then selectedMonth else hd_error availableMonths).

End Selection.

(** A record of the series is dated in month [m] (1..12) of year [y]. *)
Definition datedIn (navData : list NavData) (y m : Z) : Prop :=
  exists r d,
    In r navData /\ parseNavDate (date r) = Some d /\
    fullYear d = y /\ monthIdx d + 1 = m.

(** * Verification *)

(** ** Checks of the embedding *)

Example parseNavDate_epoch : navTime "01-01-1970" = Some 0.
Proof. reflexivity. Qed.

Example parseNavDate_2020 : navTime "01-01-2020" = Some (18262 * msPerDay).
Proof. reflexivity. Qed.

Example parseNavDate_leap : navTime "29-02-2024" = Some (19782 * msPerDay).
Proof. reflexivity. Qed.

Example parseNavDate_bad : navTime "2020/01/01" = None.
Proof. reflexivity. Qed.

Example parseFloat_nav : parseFloat "123.4500" = Fin (Q2Qc (2469 # 20)).
Proof. vm_compute. apply f_equal. apply Qc_is_canon. reflexivity. Qed.

Example parseFloat_junk : parseFloat "abc" = NaN.
Proof. reflexivity. Qed.

Example nearest_exhaustive_1 :
  SipCalculator.findNearestNav [day1; day3; day9] (newDate 2020 0 5) = Some day3.
Proof. reflexivity. Qed.

Example nearest_early_exit_1 :
  MfApi.findNearestNav [day1; day3; day9] (newDate 2020 0 5) = Some day3.
Proof. reflexivity. Qed.

Example setMonth_clips_into_next_month :
  setMonth (newDate 2023 0 31) 1 = newDate 2023 2 3.
Proof. reflexivity. Qed.

Example events_of_sample_run :
  List.length (SC.events aNow feed SC.stepup (ofZ 5000) (ofZ 10) 2024 1) = 35%nat.
Proof. vm_compute. reflexivity. Qed.

Example totalInvested_of_sample_run :
  option_map SC.Past.totalInvested
    (SC.pastResult aNow feed SC.stepup (ofZ 5000) (ofZ 10) 2024 1)
  = Some (ofZ 192550).
Proof. vm_compute. do 2 apply f_equal. apply Qc_is_canon. reflexivity. Qed.

Example regular_projection_5000_10_12 :
  option_map SC.Future.totalInvested
    (SC.futureResult SC.sip (ofZ 5000) 10 (ofZ 12) zero)
  = Some (ofZ 600000).
Proof. vm_compute. do 2 apply f_equal. apply Qc_is_canon. reflexivity. Qed.

Example nearest_early_exit_unsorted :
  MfApi.findNearestNav [day9; day3; day1] (newDate 2020 0 2) = Some day9.
Proof. reflexivity. Qed.

(** ** Nearest-date lookup *)

Section Lookup.

Variable T : Z.

Lemma below_false (d : Z) (m : bound) :
  below d m = false -> exists z, m = Finite z /\ z <= d.
Proof.
  destruct m as [|z]; simpl; intros H; [discriminate|].
  exists z. split; [reflexivity|]. apply Z.ltb_ge. exact H.
Qed.

Lemma below_true_finite (d z : Z) : below d (Finite z) = true -> d < z.
Proof. simpl. apply Z.ltb_lt. Qed.

(** After a turn on a validly dated entry the minimum is finite and no
    larger than that entry's difference. *)
Lemma scanStep_bound (st : scan) (e : NavData) (d : Z) :
  diffTo T e = Some d ->
  exists m, minDiff (SipCalculator.scanStep T st e) = Finite m /\ m <= d.
Proof.
  intros He. unfold SipCalculator.scanStep. rewrite He.
  destruct (below d (minDiff st)) eqn:Hb.
  - exists d. split; [reflexivity | lia].
  - apply below_false in Hb. exact Hb.
Qed.

(** Entries no closer than the running minimum leave the scan as it is. *)
Lemma scan_settled (l : list NavData) (st : scan) (m : Z) :
  minDiff st = Finite m ->
  (forall e d, In e l -> diffTo T e = Some d -> m <= d) ->
  fold_left (SipCalculator.scanStep T) l st = st.
Proof.
  intros Hm. induction l as [|e l IH]; intros Hall; [reflexivity|].
  simpl.
  assert (Hstep : SipCalculator.scanStep T st e = st).
  { unfold SipCalculator.scanStep.
    destruct (diffTo T e) as [d|] eqn:He; [|reflexivity].
    rewrite Hm. simpl.
    assert (m <= d) by (apply (Hall e d); [left; reflexivity | exact He]).
    destruct (d <? m) eqn:Hlt; [apply Z.ltb_lt in Hlt; lia | reflexivity]. }
  rewrite Hstep. apply IH. intros e' d' Hin. apply Hall. right. exact Hin.
Qed.

Lemma validTimes_cons (e : NavData) (l : list NavData) :
  validTimes (e :: l) =
  match navTime (date e) with
  | Some t => t :: validTimes l
  | None => validTimes l
  end.
Proof.
  unfold validTimes. simpl. destruct (navTime (date e)); reflexivity.
Qed.

Lemma validTimes_In (l : list NavData) (e : NavData) (t : Z) :
  In e l -> navTime (date e) = Some t -> In t (validTimes l).
Proof.
  intros Hin Ht. unfold validTimes. apply in_flat_map.
  exists e. split; [exact Hin|]. rewrite Ht. left. reflexivity.
Qed.

Lemma validTimes_app (l1 l2 : list NavData) :
  validTimes (l1 ++ l2) = validTimes l1 ++ validTimes l2.
Proof. unfold validTimes. apply flat_map_app. Qed.

Lemma sortedAscending_tail (e : NavData) (l : list NavData) :
  sortedAscending (e :: l) -> sortedAscending l.
Proof.
  unfold sortedAscending. rewrite validTimes_cons.
  destruct (navTime (date e)); [|tauto].
  intros H. inversion H. assumption.
Qed.

Lemma sortedAscending_head (e : NavData) (l : list NavData) (t : Z) :
  sortedAscending (e :: l) -> navTime (date e) = Some t ->
  forall e' t', In e' l -> navTime (date e') = Some t' -> t <= t'.
Proof.
  unfold sortedAscending. rewrite validTimes_cons. intros H Ht.
  rewrite Ht in H. inversion H as [|? ? _ Hall]; subst.
  intros e' t' Hin Ht'.
  rewrite Forall_forall in Hall. apply Hall.
  apply (validTimes_In l e'); assumption.
Qed.

(** On an array sorted ascending the early exit changes nothing: the two
    scans end in the same state. *)
Lemma scanSorted_fold (l : list NavData) :
  forall st, sortedAscending l ->
  MfApi.scanSorted T l st = fold_left (SipCalculator.scanStep T) l st.
Proof.
  induction l as [|e l IH]; intros st Hs; [reflexivity|].
  simpl.
  change (match diffTo T e with
          | Some diff =>
              if below diff (minDiff st)
              then {| nearest := Some e; minDiff := Finite diff |}
              else st
          | None => st
          end) with (SipCalculator.scanStep T st e).
  pose proof (sortedAscending_tail e l Hs) as Hl.
  destruct (passed T e) eqn:Hp.
  - destruct (nearest (SipCalculator.scanStep T st e)) eqn:Hn;
      [|apply IH; exact Hl].
    unfold passed in Hp.
    destruct (navTime (date e)) as [t|] eqn:Ht; [|discriminate].
    apply Z.ltb_lt in Hp.
    assert (He : diffTo T e = Some (Z.abs (t - T)))
      by (unfold diffTo; rewrite Ht; reflexivity).
    destruct (scanStep_bound st e _ He) as [m [Hm Hle]].
    symmetry. apply (scan_settled l _ m Hm).
    intros e' d' Hin Hd'. unfold diffTo in Hd'.
    destruct (navTime (date e')) as [t'|] eqn:Ht'; [|discriminate].
    simpl in Hd'. injection Hd' as <-.
    pose proof (sortedAscending_head e l t Hs Ht e' t' Hin Ht'). lia.
  - apply IH. exact Hl.
Qed.

Lemma firstClosest_step (seen : list NavData) (st : scan) (e : NavData) :
  firstClosest T seen st ->
  firstClosest T (seen ++ [e]) (SipCalculator.scanStep T st e).
Proof.
  unfold firstClosest, SipCalculator.scanStep. intros Inv.
  destruct (diffTo T e) as [d|] eqn:He.
  - destruct (nearest st) as [r|] eqn:Hn.
    + destruct Inv as (d0 & pre & post & Hseen & Hr & Hm & Hpre & Hpost).
      rewrite Hm. destruct (below d (Finite d0)) eqn:Hb.
      * apply below_true_finite in Hb. simpl.
        exists d, seen, []. repeat split; try reflexivity; try assumption.
        -- intros e' d' Hin Hd'. subst seen.
           apply in_app_or in Hin. destruct Hin as [Hin|[<-|Hin]].
           ++ specialize (Hpre e' d' Hin Hd'). lia.
           ++ rewrite Hr in Hd'. injection Hd' as <-. exact Hb.
           ++ specialize (Hpost e' d' Hin Hd'). lia.
        -- intros e' d' [].
      * apply below_false in Hb. destruct Hb as (z & Hz & Hle).
        injection Hz as <-. rewrite Hn.
        exists d0, pre, (post ++ [e]).
        repeat split; try assumption.
        -- rewrite Hseen. rewrite <- app_assoc. reflexivity.
        -- intros e' d' Hin Hd'. apply in_app_or in Hin.
           destruct Hin as [Hin|[<-|[]]].
           ++ apply (Hpost e' d' Hin Hd').
           ++ rewrite He in Hd'. injection Hd' as <-. exact Hle.
    + destruct Inv as [Hm Hnone]. rewrite Hm. simpl.
      exists d, seen, []. repeat split; try reflexivity; try assumption.
      * intros e' d' Hin Hd'. rewrite (Hnone e' Hin) in Hd'. discriminate.
      * intros e' d' [].
  - destruct (nearest st) as [r|] eqn:Hn.
    + destruct Inv as (d0 & pre & post & Hseen & Hr & Hm & Hpre & Hpost).
      exists d0, pre, (post ++ [e]).
      repeat split; try assumption.
      * rewrite Hseen. rewrite <- app_assoc. reflexivity.
      * intros e' d' Hin Hd'. apply in_app_or in Hin.
        destruct Hin as [Hin|[<-|[]]].
        -- apply (Hpost e' d' Hin Hd').
        -- rewrite He in Hd'. discriminate.
    + destruct Inv as [Hm Hnone]. split; [exact Hm|].
      intros e' Hin. apply in_app_or in Hin.
      destruct Hin as [Hin|[<-|[]]]; [apply Hnone; exact Hin | exact He].
Qed.

Lemma firstClosest_fold (l : list NavData) :
  forall seen st,
  firstClosest T seen st ->
  firstClosest T (seen ++ l) (fold_left (SipCalculator.scanStep T) l st).
Proof.
  induction l as [|e l IH]; intros seen st Inv; simpl.
  - rewrite app_nil_r. exact Inv.
  - replace (seen ++ e :: l) with ((seen ++ [e]) ++ l)
      by (rewrite <- app_assoc; reflexivity).
    apply IH. apply firstClosest_step. exact Inv.
Qed.

Lemma firstClosest_scan (l : list NavData) :
  firstClosest T l (fold_left (SipCalculator.scanStep T) l scanInit).
Proof.
  apply (firstClosest_fold l [] scanInit).
  simpl. split; [reflexivity | intros e []].
Qed.

End Lookup.

Lemma validTimes_none (l : list NavData) (T : Z) :
  (forall e, In e l -> diffTo T e = None) -> validTimes l = [].
Proof.
  induction l as [|e l IH]; intros H; [reflexivity|].
  rewrite validTimes_cons.
  assert (He : diffTo T e = None) by (apply H; left; reflexivity).
  unfold diffTo in He. destruct (navTime (date e)); [discriminate|].
  apply IH. intros e' Hin. apply H. right. exact Hin.
Qed.

Lemma sortedAscending_suffix (pre l : list NavData) :
  sortedAscending (pre ++ l) -> sortedAscending l.
Proof.
  induction pre as [|e pre IH]; intros H; [exact H|].
  apply IH. apply (sortedAscending_tail e). exact H.
Qed.

(** C1 (as amended).  For every series with at least one validly dated
    record and every target date, the exhaustive lookup of SipCalculator.tsx
    returns a record whose distance to the target is less than or equal to
    that of every record of the series.  Among records at that same distance
    it returns the one supplied first: every record before it in the array is
    strictly farther.  When the series is sorted ascending by date the
    early-exit lookup of mfApi.ts returns the same record, and no record at
    equal distance has an earlier date. *)
Theorem nearest_is_closest_first_supplied
    (navData : list NavData) (targetDate : Date) :
  validTimes navData <> [] ->
  exists r d pre post,
    SipCalculator.findNearestNav navData targetDate = Some r /\
    navData = pre ++ r :: post /\
    distance targetDate r d /\
    (forall r' d', In r' navData -> distance targetDate r' d' -> d <= d') /\
    (forall r' d', In r' pre -> distance targetDate r' d' -> d < d') /\
    (sortedAscending navData ->
       MfApi.findNearestNav navData targetDate = Some r /\
       forall r' t t',
         In r' navData -> distance targetDate r' d ->
         navTime (date r) = Some t -> navTime (date r') = Some t' -> t <= t').
Proof.
  intros Hvalid.
  pose proof (firstClosest_scan (getTime targetDate) navData) as Inv.
  unfold firstClosest in Inv. unfold SipCalculator.findNearestNav, distance.
  destruct (nearest (fold_left (SipCalculator.scanStep (getTime targetDate))
                       navData scanInit)) as [r|] eqn:Hn.
  - destruct Inv as (d & pre & post & Hseen & Hr & Hm & Hpre & Hpost).
    exists r, d, pre, post. repeat split; try assumption; try reflexivity.
    + intros r' d' Hin Hd'. rewrite Hseen in Hin.
      apply in_app_or in Hin. destruct Hin as [Hin|[<-|Hin]].
      * specialize (Hpre r' d' Hin Hd'). lia.
      * rewrite Hr in Hd'. injection Hd' as <-. lia.
      * apply (Hpost r' d' Hin Hd').
    + unfold MfApi.findNearestNav. rewrite scanSorted_fold by assumption.
      exact Hn.
    + intros r' t t' Hin Hd' Ht Ht'. rewrite Hseen in Hin.
      apply in_app_or in Hin. destruct Hin as [Hin|[<-|Hin]].
      * specialize (Hpre r' d Hin Hd'). lia.
      * rewrite Ht in Ht'. injection Ht' as <-. lia.
      * rewrite Hseen in H. apply sortedAscending_suffix in H.
        apply (sortedAscending_head r post t H Ht r' t' Hin Ht').
  - destruct Inv as [_ Hnone]. exfalso. apply Hvalid.
    apply (validTimes_none navData (getTime targetDate)). exact Hnone.
Qed.

Lemma nearest_is_closest_first_supplied_witness :
  validTimes [day1; day3; day9] <> [] /\
  exists r d,
    SipCalculator.findNearestNav [day1; day3; day9] (newDate 2020 0 5) = Some r /\
    distance (newDate 2020 0 5) r d /\
    forall r' d', In r' [day1; day3; day9] ->
                  distance (newDate 2020 0 5) r' d' -> d <= d'.
Proof.
  assert (Hv : validTimes [day1; day3; day9] <> []) by (vm_compute; discriminate).
  split; [exact Hv|].
  destruct (nearest_is_closest_first_supplied [day1; day3; day9]
              (newDate 2020 0 5) Hv)
    as (r & d & pre & post & Hf & _ & Hd & Hmin & _).
  exists r, d. repeat split; assumption.
Defined.

(** C1 (as stated) fails on the feed's own order.  With the records of
    3 January and 1 January 2020 supplied newest first and 2 January as the
    target, both records are one day away and the lookup returns the one of
    3 January, the later date. *)
Lemma nearest_tie_returns_later_date :
  exists r r' d t t',
    SipCalculator.findNearestNav [day3; day1] (newDate 2020 0 2) = Some r /\
    In r' [day3; day1] /\
    distance (newDate 2020 0 2) r d /\
    distance (newDate 2020 0 2) r' d /\
    navTime (date r) = Some t /\
    navTime (date r') = Some t' /\
    t' < t.
Proof.
  exists day3, day1, msPerDay, (18264 * msPerDay), (18262 * msPerDay).
  repeat split; try reflexivity.
  right. left. reflexivity.
Qed.

(** C10.  For every array sorted ascending by date and every target date,
    the early-exit lookup of mfApi.ts, which stops at the first record dated
    after the target once it holds a candidate, returns exactly the record
    that the exhaustive minimum-distance scan of SipCalculator.tsx returns. *)
Theorem early_exit_is_exhaustive (navData : list NavData) (targetDate : Date) :
  sortedAscending navData ->
  MfApi.findNearestNav navData targetDate =
  SipCalculator.findNearestNav navData targetDate.
Proof.
  intros Hs. unfold MfApi.findNearestNav, SipCalculator.findNearestNav.
  rewrite scanSorted_fold by exact Hs. reflexivity.
Qed.

Lemma sortedAscending_days : sortedAscending [day1; day3; noDate; day9].
Proof.
  unfold sortedAscending.
  change (validTimes [day1; day3; noDate; day9])
    with [18262 * msPerDay; 18264 * msPerDay; 18270 * msPerDay].
  repeat constructor; unfold msPerDay; lia.
Qed.

Lemma early_exit_is_exhaustive_witness :
  sortedAscending [day1; day3; noDate; day9] /\
  MfApi.findNearestNav [day1; day3; noDate; day9] (newDate 2020 0 5) =
  SipCalculator.findNearestNav [day1; day3; noDate; day9] (newDate 2020 0 5).
Proof.
  split; [exact sortedAscending_days|].
  apply (early_exit_is_exhaustive _ _ sortedAscending_days).
Defined.

(** ** The calendar *)

Ltac Zify.zify_post_hook ::= Z.to_euclidean_division_equations.

Lemma div_succ (x c : Z) :
  0 < c -> (x + 1) / c = x / c + (if (x + 1) mod c =? 0 then 1 else 0).
Proof.
  intros Hc.
  pose proof (Z.div_mod (x + 1) c ltac:(lia)).
  pose proof (Z.div_mod x c ltac:(lia)).
  pose proof (Z.mod_pos_bound x c Hc).
  pose proof (Z.mod_pos_bound (x + 1) c Hc).
  destruct ((x + 1) mod c =? 0) eqn:E;
    rewrite ?Z.eqb_eq, ?Z.eqb_neq in *; nia.
Qed.

(** A year has 365 days, and one more when it is a leap year. *)
Lemma dayFromYear_succ (y : Z) :
  dayFromYear (y + 1) =
  dayFromYear y + 365 + (if inLeapYear y then 1 else 0).
Proof.
  unfold dayFromYear, inLeapYear.
  replace (y + 1 - 1969) with (y - 1969 + 1) by lia.
  replace (y + 1 - 1901) with (y - 1901 + 1) by lia.
  replace (y + 1 - 1601) with (y - 1601 + 1) by lia.
  rewrite !div_succ by lia.
  replace ((y - 1969 + 1) mod 4) with (y mod 4) by (clear; lia).
  replace ((y - 1901 + 1) mod 100) with (y mod 100) by (clear; lia).
  replace ((y - 1601 + 1) mod 400) with (y mod 400) by (clear; lia).
  assert (E100 : y mod 100 = (y mod 400) mod 100)
    by (symmetry; apply Z.mod_mod_divide; exists 4; reflexivity).
  assert (E4 : y mod 4 = (y mod 100) mod 4)
    by (symmetry; apply Z.mod_mod_divide; exists 25; reflexivity).
  destruct (y mod 4 =? 0) eqn:H4; destruct (y mod 100 =? 0) eqn:H100;
    destruct (y mod 400 =? 0) eqn:H400; cbn [andb orb negb];
    rewrite ?Z.eqb_eq, ?Z.eqb_neq in *;
    try lia;
    try (rewrite H400 in E100; simpl in E100; lia);
    try (rewrite H100 in E4; simpl in E4; lia).
Qed.

(** The same day of the next month is at least 28 days later. *)
Lemma makeDay_next_month (y m d : Z) :
  0 <= m <= 11 ->
  makeDay (y + (m + 1) / 12) ((m + 1) mod 12) d >= makeDay y m d + 28.
Proof.
  intros Hm. unfold makeDay.
  assert (Hc : m = 0 \/ m = 1 \/ m = 2 \/ m = 3 \/ m = 4 \/ m = 5 \/ m = 6 \/
               m = 7 \/ m = 8 \/ m = 9 \/ m = 10 \/ m = 11) by lia.
  repeat (destruct Hc as [-> | Hc]); [.. | subst m];
    simpl Z.div; simpl Z.modulo; rewrite ?Z.add_0_r.
  all: try (destruct (inLeapYear y); simpl; lia).
  rewrite dayFromYear_succ.
  destruct (inLeapYear y); destruct (inLeapYear (y + 1)); simpl; lia.
Qed.

(** [normalize] changes the fields, not the instant. *)
Lemma getTime_normalize (d : Date) :
  0 <= monthIdx d <= 11 -> getTime (normalize d) = getTime d.
Proof.
  intros Hm. unfold normalize.
  destruct (dayOfMonth d >?
            daysInMonth (inLeapYear (fullYear d)) (monthIdx d)); [|reflexivity].
  unfold getTime. cbn [fullYear monthIdx dayOfMonth msOfDay].
  f_equal. f_equal. unfold makeDay.
  assert (Hc : monthIdx d = 0 \/ monthIdx d = 1 \/ monthIdx d = 2 \/
               monthIdx d = 3 \/ monthIdx d = 4 \/ monthIdx d = 5 \/
               monthIdx d = 6 \/ monthIdx d = 7 \/ monthIdx d = 8 \/
               monthIdx d = 9 \/ monthIdx d = 10 \/ monthIdx d = 11) by lia.
  repeat (destruct Hc as [-> | Hc]); [.. | rewrite Hc];
    simpl Z.div; simpl Z.modulo; rewrite ?Z.add_0_r.
  all: try (destruct (inLeapYear (fullYear d)); simpl; lia).
  rewrite dayFromYear_succ.
  destruct (inLeapYear (fullYear d)); destruct (inLeapYear (fullYear d + 1));
    simpl; lia.
Qed.

Lemma normalize_month (d : Date) :
  0 <= monthIdx d <= 11 ->
  0 <= monthIdx (normalize d) <= 11 /\ fullYear d <= fullYear (normalize d).
Proof.
  intros Hm. unfold normalize.
  destruct (dayOfMonth d >?
            daysInMonth (inLeapYear (fullYear d)) (monthIdx d));
    cbn [fullYear monthIdx]; lia.
Qed.

Lemma setMonth_next_later (d : Date) :
  0 <= monthIdx d <= 11 ->
  getTime (setMonth d (monthIdx d + 1)) >= getTime d + 28 * msPerDay.
Proof.
  intros Hm. unfold setMonth.
  rewrite getTime_normalize by (cbn [monthIdx]; lia).
  unfold getTime. cbn [fullYear monthIdx dayOfMonth msOfDay].
  pose proof (makeDay_next_month (fullYear d) (monthIdx d) (dayOfMonth d) Hm).
  unfold msPerDay. lia.
Qed.

Lemma setMonth_next_fields (d : Date) :
  0 <= monthIdx d <= 11 ->
  0 <= monthIdx (setMonth d (monthIdx d + 1)) <= 11 /\
  fullYear d <= fullYear (setMonth d (monthIdx d + 1)).
Proof.
  intros Hm. unfold setMonth.
  match goal with
  | |- context [normalize ?raw] =>
      destruct (normalize_month raw) as [H1 H2];
      [cbn [monthIdx]; lia | cbn [fullYear] in H2]
  end.
  split; [exact H1 | lia].
Qed.

(** ** Arithmetic of [num] *)

Lemma add_comm (x y : num) : add x y = add y x.
Proof.
  destruct x, y; simpl; try reflexivity. f_equal. apply Qcplus_comm.
Qed.

Lemma add_assoc (x y z : num) : add x (add y z) = add (add x y) z.
Proof.
  destruct x, y, z; simpl; try reflexivity. f_equal. apply Qcplus_assoc.
Qed.

Lemma add_zero_l (x : num) : add zero x = x.
Proof.
  destruct x; simpl; try reflexivity. f_equal. apply Qcplus_0_l.
Qed.

Lemma add_zero_r (x : num) : add x zero = x.
Proof. rewrite add_comm. apply add_zero_l. Qed.

Lemma mul_one_r (x : num) : mul x one = x.
Proof.
  destruct x; simpl; try reflexivity. f_equal. apply Qcmult_1_r.
Qed.

Lemma pow_Fin (p : Qc) (n : nat) : pow (Fin p) n = Fin (p ^ n)%Qc.
Proof.
  induction n as [|n IH]; simpl; [reflexivity|]. rewrite IH. reflexivity.
Qed.

Lemma Qc_this_add (a b : Qc) : (this (a + b)%Qc == this a + this b)%Q.
Proof. unfold Qcplus, Qcmult, Qcinv, Q2Qc. cbn [this]. apply Qred_correct. Qed.

Lemma Qc_this_mul (a b : Qc) : (this (a * b)%Qc == this a * this b)%Q.
Proof. unfold Qcplus, Qcmult, Qcinv, Q2Qc. cbn [this]. apply Qred_correct. Qed.

Lemma Qc_this_inv (a : Qc) : (this (/ a)%Qc == / this a)%Q.
Proof. unfold Qcplus, Qcmult, Qcinv, Q2Qc. cbn [this]. apply Qred_correct. Qed.

Lemma Qc_pos_add (a b : Qc) :
  (Q2Qc 0 <= a)%Qc -> (Q2Qc 0 <= b)%Qc -> (a <= a + b)%Qc.
Proof.
  unfold Qcle. rewrite Qc_this_add. change (this (Q2Qc 0)) with 0%Q.
  intros Ha Hb. lra.
Qed.

Lemma Qc_pos_add_pos (a b : Qc) :
  (Q2Qc 0 <= a)%Qc -> (Q2Qc 0 < b)%Qc -> (Q2Qc 0 < a + b)%Qc.
Proof.
  unfold Qcle, Qclt. rewrite Qc_this_add. change (this (Q2Qc 0)) with 0%Q.
  intros Ha Hb. lra.
Qed.

Lemma Qc_pos_mul (a b : Qc) :
  (Q2Qc 0 < a)%Qc -> (Q2Qc 0 < b)%Qc -> (Q2Qc 0 < a * b)%Qc.
Proof.
  unfold Qclt. rewrite Qc_this_mul. change (this (Q2Qc 0)) with 0%Q.
  intros Ha Hb. apply Qmult_lt_0_compat; assumption.
Qed.

Lemma Qc_pos_div (a b : Qc) :
  (Q2Qc 0 < a)%Qc -> (Q2Qc 0 < b)%Qc -> (Q2Qc 0 < a / b)%Qc.
Proof.
  intros Ha Hb. unfold Qcdiv. apply Qc_pos_mul; [exact Ha|].
  unfold Qclt in *. rewrite Qc_this_inv. change (this (Q2Qc 0)) with 0%Q in *.
  apply Qinv_lt_0_compat. exact Hb.
Qed.

Lemma Qc_pos_pow (p : Qc) (n : nat) :
  (Q2Qc 0 < p)%Qc -> (Q2Qc 0 < p ^ n)%Qc.
Proof.
  intros Hp. induction n as [|n IH]; simpl.
  - reflexivity.
  - apply Qc_pos_mul; assumption.
Qed.

Lemma Qc_pos_neq (a : Qc) : (Q2Qc 0 < a)%Qc -> Qc_eq_bool a (Q2Qc 0) = false.
Proof.
  intros Ha. unfold Qc_eq_bool. destruct (Qc_eq_dec a (Q2Qc 0)) as [E|E].
  - subst a. exfalso. apply (Qclt_not_le _ _ Ha). apply Qcle_refl.
  - reflexivity.
Qed.

Lemma positive_div (x y : num) : positive x -> positive y -> positive (div x y).
Proof.
  intros (a & -> & Ha) (b & -> & Hb). simpl.
  rewrite (Qc_pos_neq b Hb). exists (a / b)%Qc.
  split; [reflexivity | apply Qc_pos_div; assumption].
Qed.

Lemma positive_mul (x y : num) : positive x -> positive y -> positive (mul x y).
Proof.
  intros (a & -> & Ha) (b & -> & Hb). simpl. exists (a * b)%Qc.
  split; [reflexivity | apply Qc_pos_mul; assumption].
Qed.

Lemma positive_add (x y : num) : positive x -> positive y -> positive (add x y).
Proof.
  intros (a & -> & Ha) (b & -> & Hb). simpl. exists (a + b)%Qc.
  split; [reflexivity|]. apply Qc_pos_add_pos; [|exact Hb].
  apply Qclt_le_weak. exact Ha.
Qed.

Lemma positive_pow (x : num) (n : nat) : positive x -> positive (pow x n).
Proof.
  intros (p & -> & Hp). rewrite pow_Fin. exists (p ^ n)%Qc.
  split; [reflexivity | apply Qc_pos_pow; exact Hp].
Qed.

(** Adding a positive number does not decrease a finite non-negative one. *)
Lemma leb_add_positive (c : Qc) (y : num) :
  (Q2Qc 0 <= c)%Qc -> positive y ->
  exists c', add (Fin c) y = Fin c' /\ (c <= c')%Qc /\ (Q2Qc 0 <= c')%Qc.
Proof.
  intros Hc (b & -> & Hb). simpl. exists (c + b)%Qc.
  assert (Hb' : (Q2Qc 0 <= b)%Qc) by (apply Qclt_le_weak; exact Hb).
  split; [reflexivity|]. split.
  - apply Qc_pos_add; assumption.
  - apply (Qcle_trans _ c); [exact Hc | apply Qc_pos_add; assumption].
Qed.

Lemma leb_Fin (a b : Qc) : (a <= b)%Qc -> leb (Fin a) (Fin b) = true.
Proof.
  intros H. unfold leb, cmp.
  destruct (Qccompare a b) eqn:E; try reflexivity.
  exfalso. apply (proj1 (Qcle_alt a b) H). exact E.
Qed.

(** ** Lists, sums and sorting *)

Lemma fold_left_invariant {A B : Type} (f : A -> B -> A)
    (P : list B -> A -> Prop) (l : list B) (a0 : A) :
  P [] a0 ->
  (forall done x a, In x l -> P done a -> P (done ++ [x]) (f a x)) ->
  P l (fold_left f l a0).
Proof.
  intros H0 Hstep.
  assert (G : forall rest done a,
             (forall x, In x rest -> In x l) ->
             P done a -> P (done ++ rest) (fold_left f rest a)).
  { induction rest as [|x rest IH]; intros done a Hsub Hp; simpl.
    - rewrite app_nil_r. exact Hp.
    - replace (done ++ x :: rest) with ((done ++ [x]) ++ rest)
        by (rewrite <- app_assoc; reflexivity).
      apply IH.
      + intros y Hy. apply Hsub. right. exact Hy.
      + apply Hstep; [apply Hsub; left; reflexivity | exact Hp]. }
  apply (G l [] a0); [intros x Hx; exact Hx | exact H0].
Qed.

Lemma sumNums_app (l1 l2 : list num) :
  sumNums (l1 ++ l2) = add (sumNums l1) (sumNums l2).
Proof.
  induction l1 as [|x l1 IH]; simpl.
  - symmetry. apply add_zero_l.
  - fold (sumNums (l1 ++ l2)). fold (sumNums l1).
    rewrite IH. apply add_assoc.
Qed.

Lemma sumNums_snoc (l : list num) (x : num) :
  sumNums (l ++ [x]) = add (sumNums l) x.
Proof.
  rewrite sumNums_app. simpl. rewrite add_zero_r. reflexivity.
Qed.

Lemma sumNums_perm (l l' : list num) :
  Permutation l l' -> sumNums l = sumNums l'.
Proof.
  induction 1 as [|x l l' _ IH|x y l|l l' l'' _ IH1 _ IH2]; simpl.
  - reflexivity.
  - fold (sumNums l). fold (sumNums l'). rewrite IH. reflexivity.
  - fold (sumNums l). rewrite !add_assoc. rewrite (add_comm y x). reflexivity.
  - rewrite IH1. exact IH2.
Qed.

Lemma StronglySorted_snoc {A : Type} (R : A -> A -> Prop) (l : list A) (x : A) :
  StronglySorted R l -> Forall (fun y => R y x) l ->
  StronglySorted R (l ++ [x]).
Proof.
  induction l as [|a l IH]; intros Hs Hall; simpl.
  - constructor; constructor.
  - inversion Hs as [|? ? Hs' Ha]; subst.
    inversion Hall as [|? ? Hax Hall']; subst.
    constructor.
    + apply IH; assumption.
    + apply Forall_app. split; [exact Ha | constructor; [exact Hax | constructor]].
Qed.

Lemma insertYear_perm (y : Z) (l : list Z) :
  Permutation (SC.insertYear y l) (y :: l).
Proof.
  induction l as [|x l IH]; simpl.
  - apply Permutation_refl.
  - destruct (y <? x).
    + apply Permutation_refl.
    + apply (perm_trans (perm_skip x IH)). apply perm_swap.
Qed.

Lemma sortYears_perm (l : list Z) : Permutation (SC.sortYears l) l.
Proof.
  induction l as [|y l IH]; simpl.
  - apply perm_nil.
  - apply (perm_trans (insertYear_perm y (SC.sortYears l))).
    apply perm_skip. exact IH.
Qed.

Lemma insertYear_sorted (y : Z) (l : list Z) :
  StronglySorted Z.le l -> StronglySorted Z.le (SC.insertYear y l).
Proof.
  induction l as [|x l IH]; intros Hs; simpl.
  - constructor; constructor.
  - inversion Hs as [|? ? Hs' Hx]; subst.
    destruct (y <? x) eqn:E.
    + apply Z.ltb_lt in E. constructor; [exact Hs|].
      constructor; [lia|].
      rewrite Forall_forall in *. intros z Hz. specialize (Hx z Hz). lia.
    + apply Z.ltb_ge in E. constructor; [apply IH; exact Hs'|].
      rewrite Forall_forall in *. intros z Hz.
      apply (Permutation_in _ (insertYear_perm y l)) in Hz.
      destruct Hz as [<-|Hz]; [exact E | apply Hx; exact Hz].
Qed.

Lemma sortYears_sorted (l : list Z) : StronglySorted Z.le (SC.sortYears l).
Proof.
  induction l as [|y l IH]; simpl.
  - constructor.
  - apply insertYear_sorted. exact IH.
Qed.

Lemma sorted_nodup_strict (l : list Z) :
  StronglySorted Z.le l -> NoDup l -> StronglySorted Z.lt l.
Proof.
  induction l as [|x l IH]; intros Hs Hn.
  - constructor.
  - inversion Hs as [|? ? Hs' Hx]; subst.
    inversion Hn as [|? ? Hnotin Hn']; subst.
    constructor; [apply IH; assumption|].
    rewrite Forall_forall in *. intros z Hz.
    specialize (Hx z Hz).
    assert (z <> x) by (intros ->; contradiction). lia.
Qed.

Lemma sortYears_ascending (l : list Z) :
  NoDup l -> yearsAscending (SC.sortYears l).
Proof.
  intros Hn. apply sorted_nodup_strict; [apply sortYears_sorted|].
  apply (Permutation_NoDup (Permutation_sym (sortYears_perm l))). exact Hn.
Qed.

(** ** The map [yearlyData] *)

Lemma mapGet_notin (k : Z) (m : SC.YearlyData) :
  SC.mapGet k m = None -> ~ In k (map fst m).
Proof.
  induction m as [|[k' v'] m IH]; simpl; intros H; [tauto|].
  destruct (k' =? k) eqn:E; [discriminate|].
  apply Z.eqb_neq in E. intros [Hk|Hin]; [contradiction | apply IH; assumption].
Qed.

Lemma mapGet_in (k : Z) (m : SC.YearlyData) :
  In k (map fst m) -> exists v, SC.mapGet k m = Some v /\ In (k, v) m.
Proof.
  induction m as [|[k' v'] m IH]; simpl; intros H; [contradiction|].
  destruct (k' =? k) eqn:E.
  - apply Z.eqb_eq in E. subst k'. exists v'. split; [reflexivity | left; reflexivity].
  - apply Z.eqb_neq in E. destruct H as [Hk|Hin]; [contradiction|].
    destruct (IH Hin) as (v & Hv & Hi). exists v. split; [exact Hv | right; exact Hi].
Qed.

Lemma mapSet_new (k : Z) (v : SC.Yd.t) (m : SC.YearlyData) :
  SC.mapGet k m = None -> SC.mapSet k v m = m ++ [(k, v)].
Proof.
  induction m as [|[k' v'] m IH]; simpl; intros H; [reflexivity|].
  destruct (k' =? k); [discriminate|]. rewrite IH by exact H. reflexivity.
Qed.

Lemma mapSet_keys (k : Z) (v v0 : SC.Yd.t) (m : SC.YearlyData) :
  SC.mapGet k m = Some v0 -> map fst (SC.mapSet k v m) = map fst m.
Proof.
  induction m as [|[k' v'] m IH]; simpl; intros H; [discriminate|].
  destruct (k' =? k) eqn:E; simpl.
  - apply Z.eqb_eq in E. subst k'. reflexivity.
  - rewrite IH by exact H. reflexivity.
Qed.

(** Replacing the record of a year by one whose field is larger by [a]
    adds [a] to the sum of that field. *)
Lemma sumBy_mapSet (f : SC.Yd.t -> num) (k : Z) (v v0 : SC.Yd.t) (a : num)
    (m : SC.YearlyData) :
  SC.mapGet k m = Some v0 -> f v = add (f v0) a ->
  sumBy f (SC.mapSet k v m) = add (sumBy f m) a.
Proof.
  unfold sumBy. induction m as [|[k' v'] m IH]; simpl; intros H Hf; [discriminate|].
  destruct (k' =? k) eqn:E; simpl.
  - injection H as ->. rewrite Hf.
    fold (sumNums (map (fun kv => f (snd kv)) m)).
    rewrite <- !add_assoc. f_equal. apply add_comm.
  - fold (sumNums (map (fun kv => f (snd kv)) (SC.mapSet k v m))).
    fold (sumNums (map (fun kv => f (snd kv)) m)).
    rewrite IH by assumption. apply add_assoc.
Qed.

Lemma mapSet_values (P : SC.Yd.t -> Prop) (k : Z) (v : SC.Yd.t) (m : SC.YearlyData) :
  P v -> Forall (fun kv => P (snd kv)) m ->
  Forall (fun kv => P (snd kv)) (SC.mapSet k v m).
Proof.
  intros Hv. induction m as [|[k' v'] m IH]; simpl; intros H.
  - constructor; [exact Hv | constructor].
  - inversion H as [|? ? Hh Ht]; subst. destruct (k' =? k).
    + constructor; [exact Hv | exact Ht].
    + constructor; [exact Hh | apply IH; exact Ht].
Qed.

(** What the tracking block does to the map. *)
Lemma track_spec (y : Z) (a u : num) (m : SC.YearlyData) :
  SC.track y a u m =
  match SC.mapGet y m with
  | Some yd =>
      SC.mapSet y {| SC.Yd.invested := add (SC.Yd.invested yd) a;
                     SC.Yd.units := add (SC.Yd.units yd) u |} m
  | None => m ++ [(y, {| SC.Yd.invested := a; SC.Yd.units := u |})]
  end.
Proof.
  unfold SC.track, SC.mapHas.
  destruct (SC.mapGet y m) as [yd|] eqn:Hg.
  - rewrite Hg. reflexivity.
  - rewrite (mapSet_new y _ m Hg).
    assert (Hlast : forall (l : SC.YearlyData) v,
               SC.mapGet y l = None ->
               SC.mapGet y (l ++ [(y, v)]) = Some v /\
               forall v', SC.mapSet y v' (l ++ [(y, v)]) = l ++ [(y, v')]).
    { induction l as [|[k' w] l IH]; simpl; intros v Hn.
      - rewrite Z.eqb_refl. split; reflexivity.
      - destruct (k' =? y); [discriminate|].
        destruct (IH v Hn) as [H1 H2]. split; [exact H1|].
        intros v'. rewrite H2. reflexivity. }
    destruct (Hlast m {| SC.Yd.invested := zero; SC.Yd.units := zero |} Hg)
      as [H1 H2].
    rewrite H1, H2. cbn [SC.Yd.invested SC.Yd.units].
    rewrite !add_zero_l. reflexivity.
Qed.

Lemma sumBy_snoc (f : SC.Yd.t -> num) (m : SC.YearlyData) (k : Z) (v : SC.Yd.t) :
  sumBy f (m ++ [(k, v)]) = add (sumBy f m) (f v).
Proof.
  unfold sumBy. rewrite map_app. simpl. apply sumNums_snoc.
Qed.

Lemma track_invested (y : Z) (a u : num) (m : SC.YearlyData) :
  sumBy SC.Yd.invested (SC.track y a u m) = add (sumBy SC.Yd.invested m) a.
Proof.
  rewrite track_spec. destruct (SC.mapGet y m) as [yd|] eqn:Hg.
  - apply (sumBy_mapSet _ y _ yd a m Hg). reflexivity.
  - apply sumBy_snoc.
Qed.

Lemma track_units (y : Z) (a u : num) (m : SC.YearlyData) :
  sumBy SC.Yd.units (SC.track y a u m) = add (sumBy SC.Yd.units m) u.
Proof.
  rewrite track_spec. destruct (SC.mapGet y m) as [yd|] eqn:Hg.
  - apply (sumBy_mapSet _ y _ yd u m Hg). reflexivity.
  - apply sumBy_snoc.
Qed.

Lemma track_nodup (y : Z) (a u : num) (m : SC.YearlyData) :
  NoDup (map fst m) -> NoDup (map fst (SC.track y a u m)).
Proof.
  intros Hn. rewrite track_spec. destruct (SC.mapGet y m) as [yd|] eqn:Hg.
  - rewrite (mapSet_keys y _ yd m Hg). exact Hn.
  - rewrite map_app. simpl.
    apply (Permutation_NoDup (l := y :: map fst m)).
    + apply Permutation_cons_append.
    + constructor; [apply mapGet_notin; exact Hg | exact Hn].
Qed.

Lemma track_positive (y : Z) (a u : num) (m : SC.YearlyData) :
  positive a -> positive u -> recordsPositive m ->
  recordsPositive (SC.track y a u m).
Proof.
  intros Ha Hu Hm. unfold recordsPositive in *. rewrite track_spec.
  destruct (SC.mapGet y m) as [yd|] eqn:Hg.
  - apply (mapSet_values
             (fun v => positive (SC.Yd.invested v) /\ positive (SC.Yd.units v)));
      [|exact Hm].
    assert (Hin : In y (map fst m)).
    { destruct (in_dec Z.eq_dec y (map fst m)) as [Hi|Hi]; [exact Hi|].
      exfalso. clear -Hg Hi. induction m as [|[k' w] m IH]; simpl in *; [discriminate|].
      destruct (k' =? y) eqn:E.
      - apply Z.eqb_eq in E. apply Hi. left. exact E.
      - apply IH; [exact Hg | intros H; apply Hi; right; exact H]. }
    destruct (mapGet_in y m Hin) as (v & Hv & Hiv).
    rewrite Hg in Hv. injection Hv as <-.
    rewrite Forall_forall in Hm. destruct (Hm _ Hiv) as [Hp1 Hp2]. simpl in *.
    split; apply positive_add; assumption.
  - apply Forall_app. split; [exact Hm|].
    constructor; [|constructor]. simpl. split; assumption.
Qed.

(** Summing over the map's own keys is summing over its records. *)
Lemma sumKeys_own (f : SC.Yd.t -> num) (m : SC.YearlyData) :
  NoDup (map fst m) -> sumKeys f m (map fst m) = sumBy f m.
Proof.
  unfold sumKeys, sumBy. induction m as [|[k v] m IH]; simpl; intros Hn;
    [reflexivity|].
  inversion Hn as [|? ? Hnotin Hn']; subst.
  rewrite Z.eqb_refl. f_equal.
  rewrite <- IH by exact Hn'. f_equal.
  rewrite !map_map. apply map_ext_in. intros [k' v'] Hin. simpl.
  destruct (k =? k') eqn:E; [|reflexivity].
  apply Z.eqb_eq in E. subst k'. exfalso. apply Hnotin.
  apply in_map_iff. exists (k, v'). split; [reflexivity | exact Hin].
Qed.

Lemma sumKeys_perm (f : SC.Yd.t -> num) (m : SC.YearlyData) (ks ks' : list Z) :
  Permutation ks ks' -> sumKeys f m ks = sumKeys f m ks'.
Proof.
  intros Hp. unfold sumKeys. apply sumNums_perm. apply Permutation_map. exact Hp.
Qed.

Lemma findNearestNav_In (l : list NavData) (d : Date) (r : NavData) :
  SC.findNearestNav l d = Some r -> In r l.
Proof.
  unfold SC.findNearestNav. intros Hn.
  pose proof (firstClosest_scan (getTime d) l) as Inv.
  unfold firstClosest in Inv. rewrite Hn in Inv.
  destruct Inv as (x & pre & post & Hseen & _).
  rewrite Hseen. apply in_or_app. right. left. reflexivity.
Qed.

Lemma findNearestNav_none (l : list NavData) (d : Date) :
  validTimes l = [] -> SC.findNearestNav l d = None.
Proof.
  intros Hv. unfold SC.findNearestNav.
  pose proof (firstClosest_scan (getTime d) l) as Inv.
  unfold firstClosest in Inv.
  destruct (nearest (fold_left (SC.scanStep (getTime d)) l scanInit))
    as [r|] eqn:Hn; [|reflexivity].
  destruct Inv as (x & pre & post & Hseen & Hr & _).
  unfold diffTo in Hr.
  destruct (navTime (date r)) as [t|] eqn:Ht; [|discriminate].
  assert (Hin : In t (validTimes l)).
  { apply (validTimes_In l r t); [|exact Ht].
    rewrite Hseen. apply in_or_app. right. left. reflexivity. }
  rewrite Hv in Hin. contradiction.
Qed.

Lemma findNearestNav_some (l : list NavData) (d : Date) :
  validTimes l <> [] -> exists r, SC.findNearestNav l d = Some r.
Proof.
  intros Hv. unfold SC.findNearestNav.
  pose proof (firstClosest_scan (getTime d) l) as Inv.
  unfold firstClosest in Inv.
  destruct (nearest (fold_left (SC.scanStep (getTime d)) l scanInit))
    as [r|] eqn:Hn; [exists r; reflexivity|].
  destruct Inv as [_ Hnone]. exfalso. apply Hv.
  apply (validTimes_none l (getTime d)). exact Hnone.
Qed.

(** ** calculateSipReturns *)

Lemma insertNav_perm (a : NavData) (l : list NavData) :
  Permutation (MfApi.insertNav a l) (a :: l).
Proof.
  induction l as [|b l IH]; simpl.
  - apply Permutation_refl.
  - destruct (MfApi.byDate a b <=? 0).
    + apply Permutation_refl.
    + apply (perm_trans (perm_skip b IH)). apply perm_swap.
Qed.

Lemma sortNav_perm (l : list NavData) : Permutation (MfApi.sortNav l) l.
Proof.
  induction l as [|a l IH]; simpl.
  - apply perm_nil.
  - apply (perm_trans (insertNav_perm a (MfApi.sortNav l))).
    apply perm_skip. exact IH.
Qed.

Lemma validTimes_inv (l : list NavData) (t : Z) :
  In t (validTimes l) -> exists r, In r l /\ navTime (date r) = Some t.
Proof.
  unfold validTimes. intros H. apply in_flat_map in H.
  destruct H as (r & Hr & Ht). exists r. split; [exact Hr|].
  destruct (navTime (date r)) as [t'|]; [|contradiction].
  destruct Ht as [<-|[]]. reflexivity.
Qed.

Lemma insertNav_sorted (a : NavData) (l : list NavData) :
  navTime (date a) <> None -> datesValid l ->
  sortedAscending l -> sortedAscending (MfApi.insertNav a l).
Proof.
  intros Ha. destruct (navTime (date a)) as [ta|] eqn:Hta; [clear Ha|contradiction].
  induction l as [|b l IH]; intros Hd Hs; simpl.
  - unfold sortedAscending. rewrite validTimes_cons, Hta. repeat constructor.
  - inversion Hd as [|? ? Hb Hd']; subst.
    destruct (navTime (date b)) as [tb|] eqn:Htb; [clear Hb|contradiction].
    unfold MfApi.byDate. rewrite Hta, Htb.
    destruct (ta - tb <=? 0) eqn:E.
    + apply Z.leb_le in E. unfold sortedAscending.
      rewrite validTimes_cons, Hta. constructor; [exact Hs|].
      rewrite Forall_forall. intros t Ht.
      rewrite validTimes_cons, Htb in Ht. destruct Ht as [<-|Ht]; [lia|].
      destruct (validTimes_inv l t Ht) as (r & Hr & Hrt).
      pose proof (sortedAscending_head b l tb Hs Htb r t Hr Hrt). lia.
    + apply Z.leb_gt in E. unfold sortedAscending.
      rewrite validTimes_cons, Htb. constructor.
      * apply IH; [exact Hd' | apply (sortedAscending_tail b l Hs)].
      * rewrite Forall_forall. intros t Ht.
        destruct (validTimes_inv _ t Ht) as (r & Hr & Hrt).
        apply (Permutation_in _ (insertNav_perm a l)) in Hr.
        destruct Hr as [<-|Hr].
        -- rewrite Hta in Hrt. injection Hrt as <-. lia.
        -- apply (sortedAscending_head b l tb Hs Htb r t Hr Hrt).
Qed.

(** The array handed to the early-exit lookup is sorted ascending. *)
Lemma sortNav_sorted (l : list NavData) :
  datesValid l -> sortedAscending (MfApi.sortNav l).
Proof.
  induction l as [|a l IH]; intros Hd; simpl.
  - constructor.
  - inversion Hd as [|? ? Ha Hd']; subst.
    apply insertNav_sorted; [exact Ha | | apply IH; exact Hd'].
    unfold datesValid in *. rewrite Forall_forall in *. intros r Hr.
    apply Hd'. apply (Permutation_in _ (sortNav_perm l)). exact Hr.
Qed.

Section SipLoop.

Variables (navHistory : list NavData) (monthlyAmount : num).
Variables (startDate endDate : Date).

Local Abbreviation sipBody := (MfApi.sipBody navHistory monthlyAmount).
Local Abbreviation sipLoop := (MfApi.sipLoop navHistory monthlyAmount endDate).
Local Abbreviation sipEnd :=
  (MfApi.sipEnd navHistory monthlyAmount startDate endDate).

Lemma sipBody_currentDate (st : MfApi.Sip.t) :
  MfApi.Sip.currentDate (sipBody st) =
  setMonth (MfApi.Sip.currentDate st) (monthIdx (MfApi.Sip.currentDate st) + 1).
Proof.
  unfold MfApi.sipBody.
  destruct (MfApi.findNearestNav (MfApi.sortedNav navHistory)
              (MfApi.Sip.currentDate st)); reflexivity.
Qed.

Lemma sipLoop_preserves (P : MfApi.Sip.t -> Prop) :
  (forall st, P st -> P (sipBody st)) ->
  forall fuel st, P st -> P (sipLoop fuel st).
Proof.
  intros Hbody. induction fuel as [|fuel IH]; intros st Hst; simpl.
  - exact Hst.
  - destruct (MfApi.sipRunning endDate st);
      [apply IH; apply Hbody; exact Hst | exact Hst].
Qed.

Lemma sipLoop_exits (fuel : nat) :
  forall st,
  0 <= monthIdx (MfApi.Sip.currentDate st) <= 11 ->
  (getTime endDate - getTime (MfApi.Sip.currentDate st)) / (28 * msPerDay) + 1
    <= Z.of_nat fuel ->
  MfApi.sipRunning endDate (sipLoop fuel st) = false.
Proof.
  induction fuel as [|fuel IH]; intros st Hm Hf; simpl.
  - unfold MfApi.sipRunning. apply Z.leb_gt. unfold msPerDay in Hf. lia.
  - destruct (MfApi.sipRunning endDate st) eqn:Hr; [|exact Hr].
    apply IH.
    + rewrite sipBody_currentDate. apply setMonth_next_fields. exact Hm.
    + rewrite sipBody_currentDate.
      pose proof (setMonth_next_later (MfApi.Sip.currentDate st) Hm) as Hl.
      unfold MfApi.sipRunning in Hr. apply Z.leb_le in Hr.
      unfold msPerDay in *. lia.
Qed.

(** From a valid start date the loop runs until its test fails. *)
Lemma sipEnd_exits :
  0 <= monthIdx startDate <= 11 -> MfApi.sipRunning endDate sipEnd = false.
Proof.
  intros Hm. unfold MfApi.sipEnd. apply sipLoop_exits.
  - exact Hm.
  - unfold MfApi.sipTurns. cbn [MfApi.Sip.currentDate]. unfold msPerDay. lia.
Qed.

End SipLoop.

(** Inside [calculateSipReturns] the early exit loses nothing: on the
    sorted copy of a history of validly dated records the lookup returns
    what the exhaustive scan returns. *)
Lemma sortedNav_lookup (navHistory : list NavData) (d : Date) :
  datesValid navHistory ->
  MfApi.findNearestNav (MfApi.sortedNav navHistory) d =
  SC.findNearestNav (MfApi.sortedNav navHistory) d.
Proof.
  intros Hd. unfold MfApi.findNearestNav, SC.findNearestNav, MfApi.sortedNav.
  rewrite scanSorted_fold by (apply sortNav_sorted; exact Hd). reflexivity.
Qed.

(** With an empty history nothing is bought, whatever the dates. *)
Lemma calculateSipReturns_empty (monthlyAmount : num) (startDate endDate : Date) :
  MfApi.calculateSipReturns [] monthlyAmount startDate endDate =
  {| SipResult.totalInvested := zero;
     SipResult.currentValue := mul zero (parseFloat "0");
     SipResult.totalUnits := zero;
     SipResult.returns := sub (mul zero (parseFloat "0")) zero;
     SipResult.returnsPercentage := zero;
     SipResult.isProfit := true |}.
Proof.
  unfold MfApi.calculateSipReturns.
  assert (H : MfApi.Sip.totalUnits
                (MfApi.sipEnd [] monthlyAmount startDate endDate) = zero /\
              MfApi.Sip.totalInvested
                (MfApi.sipEnd [] monthlyAmount startDate endDate) = zero).
  { unfold MfApi.sipEnd.
    apply (sipLoop_preserves [] monthlyAmount endDate
             (fun st => MfApi.Sip.totalUnits st = zero /\
                        MfApi.Sip.totalInvested st = zero)).
    - intros st Hst. unfold MfApi.sipBody. exact Hst.
    - split; reflexivity. }
  destruct H as [Hu Hi]. rewrite Hu, Hi. reflexivity.
Qed.

(** ** PastAnalysis: the monthly loop *)

Section PastLoop.

Variables (now : Date) (navData : list NavData) (ty : SC.InvestmentType).
Variables (amount stepUpPercent : num) (selectedYear selectedMonth : Z).

Local Abbreviation body :=
  (SC.body navData ty amount stepUpPercent selectedYear selectedMonth).
Local Abbreviation loop :=
  (SC.loop now navData ty amount stepUpPercent selectedYear selectedMonth).
Local Abbreviation schedule :=
  (SC.schedule now navData ty amount stepUpPercent selectedYear selectedMonth).
Local Abbreviation stepUp :=
  (SC.stepUp ty amount stepUpPercent selectedYear selectedMonth).
Local Abbreviation startYear := (SC.startYear selectedYear selectedMonth).
Local Abbreviation loopInit := (SC.loopInit amount selectedYear selectedMonth).
Local Abbreviation loopEnd :=
  (SC.loopEnd now navData ty amount stepUpPercent selectedYear selectedMonth).
Local Abbreviation factor := (add one (div stepUpPercent (ofZ 100))).

Lemma body_currentDate (st : SC.Loop.t) :
  SC.Loop.currentDate (body st) =
  setMonth (SC.Loop.currentDate st) (monthIdx (SC.Loop.currentDate st) + 1).
Proof.
  unfold SC.body. destruct (stepUp st).
  destruct (SC.findNearestNav navData (SC.Loop.currentDate st)); reflexivity.
Qed.

Lemma body_amount (st : SC.Loop.t) :
  SC.Loop.currentAmount (body st) = fst (stepUp st) /\
  SC.Loop.yearCounter (body st) = snd (stepUp st).
Proof.
  unfold SC.body. destruct (stepUp st).
  destruct (SC.findNearestNav navData (SC.Loop.currentDate st));
    split; reflexivity.
Qed.

Lemma loop_preserves (P : SC.Loop.t -> Prop) :
  (forall st, P st -> P (body st)) ->
  forall fuel st, P st -> P (loop fuel st).
Proof.
  intros Hbody. induction fuel as [|fuel IH]; intros st Hst; simpl.
  - exact Hst.
  - destruct (SC.running now st); [apply IH; apply Hbody; exact Hst | exact Hst].
Qed.

Lemma startDate_month :
  0 <= monthIdx (SC.startDate selectedYear selectedMonth) <= 11.
Proof.
  unfold SC.startDate, newDate.
  match goal with
  | |- context [normalize ?raw] =>
      apply (normalize_month raw); cbn [monthIdx]; lia
  end.
Qed.

(** With fuel for one turn per 28 days the loop stops because its test
    fails, not because the fuel is spent. *)
Lemma loop_exits (fuel : nat) :
  forall st,
  0 <= monthIdx (SC.Loop.currentDate st) <= 11 ->
  (getTime now - getTime (SC.Loop.currentDate st)) / (28 * msPerDay) + 1
    <= Z.of_nat fuel ->
  SC.running now (loop fuel st) = false.
Proof.
  induction fuel as [|fuel IH]; intros st Hm Hf; simpl.
  - unfold SC.running, SC.endDate. apply Z.leb_gt.
    unfold msPerDay in Hf. lia.
  - destruct (SC.running now st) eqn:Hr; [|exact Hr].
    apply IH.
    + rewrite body_currentDate. apply setMonth_next_fields. exact Hm.
    + rewrite body_currentDate.
      pose proof (setMonth_next_later (SC.Loop.currentDate st) Hm) as Hl.
      unfold SC.running, SC.endDate in Hr. apply Z.leb_le in Hr.
      unfold msPerDay in *. lia.
Qed.

Lemma loopEnd_exits : SC.running now loopEnd = false.
Proof.
  unfold SC.loopEnd. apply loop_exits.
  - apply startDate_month.
  - unfold SC.turns, SC.loopInit, SC.endDate. simpl SC.Loop.currentDate.
    unfold msPerDay. lia.
Qed.

(** *** The step-up rule *)

(** The loop variables agree with the step-up rule. *)
Local Abbreviation stepUpInv st :=
  (0 <= monthIdx (SC.Loop.currentDate st) <= 11 /\
   0 <= SC.Loop.yearCounter st
     <= fullYear (SC.Loop.currentDate st) - startYear /\
   SC.Loop.currentAmount st =
     mul amount (pow factor (Z.to_nat (SC.Loop.yearCounter st)))).

Lemma stepUp_value (st : SC.Loop.t) :
  ty = SC.stepup -> stepUpInv st ->
  stepUp st =
  (mul amount
     (pow factor (Z.to_nat (fullYear (SC.Loop.currentDate st) - startYear))),
   fullYear (SC.Loop.currentDate st) - startYear).
Proof.
  intros Hty (Hm & Hy & Ha). unfold SC.stepUp. rewrite Hty.
  destruct (fullYear (SC.Loop.currentDate st) - startYear
              >? SC.Loop.yearCounter st) eqn:E.
  - reflexivity.
  - assert (SC.Loop.yearCounter st =
            fullYear (SC.Loop.currentDate st) - startYear) as <- by lia.
    rewrite Ha. reflexivity.
Qed.

Lemma stepUpInv_init : stepUpInv loopInit.
Proof.
  unfold SC.loopInit.
  cbn [SC.Loop.currentDate SC.Loop.yearCounter SC.Loop.currentAmount].
  split; [apply startDate_month|]. split.
  - unfold SC.startYear. lia.
  - symmetry. apply mul_one_r.
Qed.

Lemma stepUpInv_body (st : SC.Loop.t) :
  ty = SC.stepup -> stepUpInv st -> stepUpInv (body st).
Proof.
  intros Hty Inv. pose proof (stepUp_value st Hty Inv) as Hv.
  destruct Inv as (Hm & Hy & Ha).
  destruct (body_amount st) as [Hca Hyc].
  rewrite body_currentDate, Hca, Hyc, Hv.
  cbn [fst snd].
  destruct (setMonth_next_fields (SC.Loop.currentDate st) Hm) as [Hm' Hy'].
  split; [exact Hm'|]. split; [lia | reflexivity].
Qed.

Lemma schedule_amounts (fuel : nat) :
  ty = SC.stepup ->
  forall st, stepUpInv st ->
  forall d a, In (d, a) (schedule fuel st) ->
  0 <= fullYear d - startYear /\
  a = mul amount (pow factor (Z.to_nat (fullYear d - startYear))).
Proof.
  intros Hty. induction fuel as [|fuel IH]; intros st Inv d a Hin; simpl in Hin.
  - contradiction.
  - destruct (SC.running now st); [|contradiction].
    destruct Hin as [Heq|Hin].
    + injection Heq as <- <-.
      rewrite (stepUp_value st Hty Inv). cbn [fst].
      destruct Inv as (_ & Hy & _). split; [lia | reflexivity].
    + apply (IH (body st)); [apply stepUpInv_body; assumption | exact Hin].
Qed.

(** The loop takes one turn per event of the schedule. *)
Lemma loop_schedule (fuel : nat) :
  forall st,
  loop fuel st = fold_left (fun s _ => body s) (schedule fuel st) st.
Proof.
  induction fuel as [|fuel IH]; intros st; simpl; [reflexivity|].
  destruct (SC.running now st); [|reflexivity]. simpl. apply IH.
Qed.

End PastLoop.

(** *** Totals and the yearly map *)

Section PastTotals.

Variables (now : Date) (navData : list NavData) (ty : SC.InvestmentType).
Variables (amount stepUpPercent : num) (selectedYear selectedMonth : Z).

Local Abbreviation body :=
  (SC.body navData ty amount stepUpPercent selectedYear selectedMonth).
Local Abbreviation stepUp :=
  (SC.stepUp ty amount stepUpPercent selectedYear selectedMonth).
Local Abbreviation loopInit := (SC.loopInit amount selectedYear selectedMonth).
Local Abbreviation loopEnd :=
  (SC.loopEnd now navData ty amount stepUpPercent selectedYear selectedMonth).
Local Abbreviation factor := (add one (div stepUpPercent (ofZ 100))).

(** The map holds each year once and its records add up to the totals. *)
Local Abbreviation balanced st :=
  (NoDup (map fst (SC.Loop.yearlyData st)) /\
   sumBy SC.Yd.invested (SC.Loop.yearlyData st) = SC.Loop.totalInvested st /\
   sumBy SC.Yd.units (SC.Loop.yearlyData st) = SC.Loop.totalUnits st).

Lemma balanced_body (st : SC.Loop.t) : balanced st -> balanced (body st).
Proof.
  intros (Hn & Hi & Hu). unfold SC.body. destruct (stepUp st) as [ca yc].
  destruct (SC.findNearestNav navData (SC.Loop.currentDate st)) as [e|];
    cbn [SC.Loop.yearlyData SC.Loop.totalInvested SC.Loop.totalUnits].
  - split; [apply track_nodup; exact Hn|]. split.
    + rewrite track_invested, Hi. reflexivity.
    + rewrite track_units, Hu. reflexivity.
  - repeat split; assumption.
Qed.

Lemma balanced_loopEnd : balanced loopEnd.
Proof.
  unfold SC.loopEnd.
  apply (loop_preserves now navData ty amount stepUpPercent selectedYear
           selectedMonth (fun st => balanced st)).
  - exact balanced_body.
  - unfold SC.loopInit. simpl. repeat split. constructor.
Qed.

(** Nothing is invested when no record has a valid date. *)
Lemma idle_loopEnd :
  validTimes navData = [] ->
  SC.Loop.totalUnits loopEnd = zero /\
  SC.Loop.totalInvested loopEnd = zero /\
  SC.Loop.yearlyData loopEnd = [].
Proof.
  intros Hv. unfold SC.loopEnd.
  apply (loop_preserves now navData ty amount stepUpPercent selectedYear
           selectedMonth
           (fun st => SC.Loop.totalUnits st = zero /\
                      SC.Loop.totalInvested st = zero /\
                      SC.Loop.yearlyData st = [])).
  - intros st H. unfold SC.body. destruct (stepUp st) as [ca yc].
    rewrite (findNearestNav_none navData _ Hv). exact H.
  - unfold SC.loopInit. simpl. repeat split.
Qed.

Section Positive.

Hypothesis amount_pos : positive amount.
Hypothesis factor_pos : ty = SC.stepup -> positive factor.
Hypothesis values_pos : valuesPositive navData.

Local Abbreviation healthy st :=
  (positive (SC.Loop.currentAmount st) /\
   recordsPositive (SC.Loop.yearlyData st)).

Lemma stepUp_positive (st : SC.Loop.t) :
  positive (SC.Loop.currentAmount st) -> positive (fst (stepUp st)).
Proof.
  intros Hc. unfold SC.stepUp. destruct ty eqn:Hty; try exact Hc.
  destruct (fullYear (SC.Loop.currentDate st)
              - SC.startYear selectedYear selectedMonth
              >? SC.Loop.yearCounter st); [|exact Hc].
  cbn [fst]. apply positive_mul; [exact amount_pos|].
  apply positive_pow. apply factor_pos. reflexivity.
Qed.

Lemma healthy_body (st : SC.Loop.t) : healthy st -> healthy (body st).
Proof.
  intros (Hc & Hr). pose proof (stepUp_positive st Hc) as Hs.
  unfold SC.body. destruct (stepUp st) as [ca yc]. cbn [fst] in Hs.
  destruct (SC.findNearestNav navData (SC.Loop.currentDate st)) as [e|] eqn:Hf;
    cbn [SC.Loop.currentAmount SC.Loop.yearlyData].
  - split; [exact Hs|].
    apply findNearestNav_In in Hf.
    unfold valuesPositive in values_pos. rewrite Forall_forall in values_pos.
    apply track_positive; [exact Hs | | exact Hr].
    apply positive_div; [exact Hs | apply values_pos; exact Hf].
  - split; assumption.
Qed.

Lemma healthy_loopEnd : recordsPositive (SC.Loop.yearlyData loopEnd).
Proof.
  unfold SC.loopEnd.
  apply (loop_preserves now navData ty amount stepUpPercent selectedYear
           selectedMonth (fun st => healthy st)).
  - exact healthy_body.
  - unfold SC.loopInit. simpl. split; [exact amount_pos | constructor].
Qed.

End Positive.

End PastTotals.

(** *** The yearly breakdown *)

Lemma leb_le_Fin (x : num) (a b : Qc) :
  leb x (Fin a) = true -> (a <= b)%Qc -> leb x (Fin b) = true.
Proof.
  destruct x as [q| | |]; unfold leb, cmp; try discriminate; try reflexivity.
  intros H Hab. apply leb_Fin. apply (Qcle_trans _ a); [|exact Hab].
  apply Qcle_alt. destruct (Qccompare q a); discriminate.
Qed.

Section Breakdown.

Variables (now : Date) (navData : list NavData) (m : SC.YearlyData).

Local Abbreviation buildStep := (SC.buildStep now navData m).

Lemma buildStep_rows (b : SC.Build.t) (yr : Z) (yd : SC.Yd.t) :
  SC.mapGet yr m = Some yd ->
  exists row,
    SC.Build.rows (buildStep b yr) = SC.Build.rows b ++ [row] /\
    SC.Build.cumulativeInvested (buildStep b yr) =
      add (SC.Build.cumulativeInvested b) (SC.Yd.invested yd) /\
    SC.Build.cumulativeUnits (buildStep b yr) =
      add (SC.Build.cumulativeUnits b) (SC.Yd.units yd) /\
    SC.Row.year row = yr /\
    SC.Row.invested row = SC.Yd.invested yd /\
    SC.Row.cumulativeInvested row =
      add (SC.Build.cumulativeInvested b) (SC.Yd.invested yd) /\
    SC.Row.cumulativeUnits row =
      add (SC.Build.cumulativeUnits b) (SC.Yd.units yd).
Proof.
  intros Hg. unfold SC.buildStep. rewrite Hg.
  eexists. cbn [SC.Build.rows SC.Build.cumulativeInvested SC.Build.cumulativeUnits].
  split; [reflexivity|]. repeat split.
Qed.

(** The rows carry the years in the order of the loop, and their
    [invested] fields add up to what the map holds for those years. *)
Lemma build_sums (ys : list Z) :
  (forall y, In y ys -> In y (map fst m)) ->
  let b := fold_left buildStep ys
             {| SC.Build.cumulativeInvested := zero;
                SC.Build.cumulativeUnits := zero;
                SC.Build.rows := [] |} in
  map SC.Row.year (SC.Build.rows b) = ys /\
  sumNums (map SC.Row.invested (SC.Build.rows b)) = sumKeys SC.Yd.invested m ys.
Proof.
  intros Hkeys.
  apply (fold_left_invariant buildStep
           (fun done b =>
              map SC.Row.year (SC.Build.rows b) = done /\
              sumNums (map SC.Row.invested (SC.Build.rows b)) =
                sumKeys SC.Yd.invested m done)).
  - split; reflexivity.
  - intros done x b Hx [Hy Hs].
    destruct (mapGet_in x m (Hkeys x Hx)) as (yd & Hg & _).
    destruct (buildStep_rows b x yd Hg)
      as (row & Hrows & _ & _ & Hyear & Hinv & _).
    rewrite Hrows, !map_app. cbn [map]. rewrite Hy, Hyear. split; [reflexivity|].
    rewrite sumNums_snoc, Hs, Hinv.
    unfold sumKeys. rewrite map_app. cbn [map]. rewrite sumNums_snoc, Hg.
    reflexivity.
Qed.

(** With positive records the cumulative fields never decrease. *)
Lemma build_monotone (ys : list Z) :
  recordsPositive m ->
  (forall y, In y ys -> In y (map fst m)) ->
  let b := fold_left buildStep ys
             {| SC.Build.cumulativeInvested := zero;
                SC.Build.cumulativeUnits := zero;
                SC.Build.rows := [] |} in
  nonDecreasing (map SC.Row.cumulativeInvested (SC.Build.rows b)) /\
  nonDecreasing (map SC.Row.cumulativeUnits (SC.Build.rows b)).
Proof.
  intros Hpos Hkeys.
  assert (G :
    let b := fold_left buildStep ys
               {| SC.Build.cumulativeInvested := zero;
                  SC.Build.cumulativeUnits := zero;
                  SC.Build.rows := [] |} in
    exists ci cu,
      SC.Build.cumulativeInvested b = Fin ci /\ (Q2Qc 0 <= ci)%Qc /\
      SC.Build.cumulativeUnits b = Fin cu /\ (Q2Qc 0 <= cu)%Qc /\
      nonDecreasing (map SC.Row.cumulativeInvested (SC.Build.rows b)) /\
      Forall (fun r => leb (SC.Row.cumulativeInvested r) (Fin ci) = true)
        (SC.Build.rows b) /\
      nonDecreasing (map SC.Row.cumulativeUnits (SC.Build.rows b)) /\
      Forall (fun r => leb (SC.Row.cumulativeUnits r) (Fin cu) = true)
        (SC.Build.rows b)).
  { apply (fold_left_invariant buildStep
             (fun (done : list Z) b =>
                exists ci cu,
                  SC.Build.cumulativeInvested b = Fin ci /\ (Q2Qc 0 <= ci)%Qc /\
                  SC.Build.cumulativeUnits b = Fin cu /\ (Q2Qc 0 <= cu)%Qc /\
                  nonDecreasing (map SC.Row.cumulativeInvested (SC.Build.rows b)) /\
                  Forall (fun r => leb (SC.Row.cumulativeInvested r) (Fin ci) = true)
                    (SC.Build.rows b) /\
                  nonDecreasing (map SC.Row.cumulativeUnits (SC.Build.rows b)) /\
                  Forall (fun r => leb (SC.Row.cumulativeUnits r) (Fin cu) = true)
                    (SC.Build.rows b))).
    - exists (Q2Qc 0), (Q2Qc 0). cbn.
      repeat split; try apply Qcle_refl; constructor.
    - intros done x b Hx (ci & cu & Hci & Hci0 & Hcu & Hcu0 & Hs1 & Hf1 & Hs2 & Hf2).
      destruct (mapGet_in x m (Hkeys x Hx)) as (yd & Hg & Hin).
      unfold recordsPositive in Hpos. rewrite Forall_forall in Hpos.
      destruct (Hpos _ Hin) as [Hpi Hpu]. cbn [snd] in Hpi, Hpu.
      destruct (buildStep_rows b x yd Hg)
        as (row & Hrows & Hbi & Hbu & _ & _ & Hri & Hru).
      destruct (leb_add_positive ci _ Hci0 Hpi) as (ci' & Hci' & Hle1 & Hci0').
      destruct (leb_add_positive cu _ Hcu0 Hpu) as (cu' & Hcu' & Hle2 & Hcu0').
      rewrite Hci in Hbi, Hri. rewrite Hcu in Hbu, Hru.
      rewrite Hci' in Hbi, Hri. rewrite Hcu' in Hbu, Hru.
      exists ci', cu'. rewrite Hrows, !map_app. cbn [map].
      rewrite Hri, Hru.
      assert (F1 : Forall (fun r => leb (SC.Row.cumulativeInvested r) (Fin ci') = true)
                     (SC.Build.rows b)).
      { rewrite Forall_forall in *. intros r Hr.
        apply (leb_le_Fin _ ci); [apply Hf1; exact Hr | exact Hle1]. }
      assert (F2 : Forall (fun r => leb (SC.Row.cumulativeUnits r) (Fin cu') = true)
                     (SC.Build.rows b)).
      { rewrite Forall_forall in *. intros r Hr.
        apply (leb_le_Fin _ cu); [apply Hf2; exact Hr | exact Hle2]. }
      repeat split; try assumption.
      + apply StronglySorted_snoc; [exact Hs1|]. apply Forall_map. exact F1.
      + apply Forall_app. split; [exact F1|].
        constructor; [|constructor]. rewrite Hri. apply leb_Fin. apply Qcle_refl.
      + apply StronglySorted_snoc; [exact Hs2|]. apply Forall_map. exact F2.
      + apply Forall_app. split; [exact F2|].
        constructor; [|constructor]. rewrite Hru. apply leb_Fin. apply Qcle_refl. }
  destruct G as (ci & cu & _ & _ & _ & _ & Hs1 & _ & Hs2 & _).
  split; assumption.
Qed.

End Breakdown.

(** ** PastAnalysis: the result *)

Lemma positive_truthy (x : num) : positive x -> falsy x = false.
Proof. intros (q & -> & Hq). simpl. apply Qc_pos_neq. exact Hq. Qed.

Lemma datesValid_validTimes (navData : list NavData) :
  navData <> [] -> datesValid navData -> validTimes navData <> [].
Proof.
  destruct navData as [|r l]; intros Hne Hd; [contradiction|].
  inversion Hd as [|? ? Hr _]; subst. rewrite validTimes_cons.
  destruct (navTime (date r)); [discriminate | contradiction].
Qed.

Lemma pastResult_schedule
    (now : Date) (navData : list NavData) (ty : SC.InvestmentType)
    (amount stepUpPercent : num) (selectedYear selectedMonth : Z) :
  ty <> SC.onetime -> falsy amount = false -> selectedYear <> 0 ->
  navData <> [] ->
  SC.pastResult now navData ty amount stepUpPercent selectedYear selectedMonth =
  Some (SC.scheduleResult now navData ty amount stepUpPercent selectedYear
          selectedMonth).
Proof.
  intros Hty Ha Hy Hn. unfold SC.pastResult. rewrite Ha.
  apply Z.eqb_neq in Hy. rewrite Hy.
  destruct navData as [|r l]; [contradiction|]. simpl.
  destruct ty; try reflexivity. contradiction.
Qed.

(** *** The contributions, year by year *)

Lemma sumLeft_snoc (l : list num) (x : num) :
  sumLeft (l ++ [x]) = add (sumLeft l) x.
Proof. unfold sumLeft. rewrite fold_left_app. reflexivity. Qed.

Lemma runningFrom_snoc (l : list num) (x : num) :
  forall acc,
  runningFrom acc (l ++ [x]) = runningFrom acc l ++ [add (fold_left add l acc) x].
Proof.
  induction l as [|y l IH]; intros acc; cbn [app runningFrom fold_left].
  - reflexivity.
  - rewrite IH. reflexivity.
Qed.

Lemma mapGet_mapSet (k y : Z) (v : SC.Yd.t) (m : SC.YearlyData) :
  SC.mapGet y (SC.mapSet k v m) = if k =? y then Some v else SC.mapGet y m.
Proof.
  induction m as [|[k' v'] m IH]; cbn [SC.mapSet SC.mapGet].
  - destruct (k =? y); reflexivity.
  - destruct (k' =? k) eqn:E; cbn [SC.mapGet].
    + apply Z.eqb_eq in E. subst k'. destruct (k =? y); reflexivity.
    + rewrite IH. destruct (k' =? y) eqn:E'; [|reflexivity].
      destruct (k =? y) eqn:E2; [|reflexivity]. lia.
Qed.

(** The record of a year after the tracking block: the contribution is added
    to the record of its year, which starts from zero. *)
Lemma track_get (k y : Z) (a u : num) (m : SC.YearlyData) :
  SC.mapGet y (SC.track k a u m) =
  if k =? y then
    Some match SC.mapGet k m with
         | Some yd => {| SC.Yd.invested := add (SC.Yd.invested yd) a;
                         SC.Yd.units := add (SC.Yd.units yd) u |}
         | None => {| SC.Yd.invested := add zero a; SC.Yd.units := add zero u |}
         end
  else SC.mapGet y m.
Proof.
  unfold SC.track, SC.mapHas.
  destruct (SC.mapGet k m) as [yd|] eqn:Hg.
  - rewrite Hg. apply mapGet_mapSet.
  - rewrite !mapGet_mapSet, Z.eqb_refl. rewrite !mapGet_mapSet.
    cbn [SC.Yd.invested SC.Yd.units].
    destruct (k =? y); reflexivity.
Qed.

Section YearlyRecords.

Variables (now : Date) (navData : list NavData) (ty : SC.InvestmentType).
Variables (amount stepUpPercent : num) (selectedYear selectedMonth : Z).

Hypothesis dated : validTimes navData <> [].

Local Abbreviation body :=
  (SC.body navData ty amount stepUpPercent selectedYear selectedMonth).
Local Abbreviation loop :=
  (SC.loop now navData ty amount stepUpPercent selectedYear selectedMonth).
Local Abbreviation schedule :=
  (SC.schedule now navData ty amount stepUpPercent selectedYear selectedMonth).
Local Abbreviation stepUp :=
  (SC.stepUp ty amount stepUpPercent selectedYear selectedMonth).

(** The totals and the records of the years hold the contributions of the
    events [past], each added in its turn. *)
Local Abbreviation accounted past st :=
  (SC.Loop.totalInvested st = sumLeft (map snd past) /\
   SC.Loop.totalUnits st = sumLeft (map (unitsBoughtAt navData) past) /\
   forall y,
     match SC.mapGet y (SC.Loop.yearlyData st) with
     | Some yd =>
         SC.Yd.invested yd = sumLeft (map snd (filter (inYear y) past)) /\
         SC.Yd.units yd =
           sumLeft (map (unitsBoughtAt navData) (filter (inYear y) past))
     | None => filter (inYear y) past = []
     end).

Lemma accounted_body (past : list (Date * num)) (st : SC.Loop.t) :
  accounted past st ->
  accounted (past ++ [(SC.Loop.currentDate st, fst (stepUp st))]) (body st).
Proof.
  intros (Hi & Hu & Hy). unfold SC.body.
  destruct (stepUp st) as [ca yc]. cbn [fst].
  destruct (findNearestNav_some navData (SC.Loop.currentDate st) dated)
    as [e He].
  rewrite He.
  cbn [SC.Loop.totalInvested SC.Loop.totalUnits SC.Loop.yearlyData].
  rewrite !map_app. cbn [map snd]. rewrite !sumLeft_snoc.
  assert (Eu : unitsBoughtAt navData (SC.Loop.currentDate st, ca)
               = div ca (parseFloat (nav e))).
  { unfold unitsBoughtAt. cbn [fst snd]. rewrite He. reflexivity. }
  rewrite Eu, Hi, Hu.
  split; [reflexivity|]. split; [reflexivity|].
  intros y. rewrite track_get, filter_app. cbn [filter].
  unfold inYear at 2 4 6. cbn [fst].
  pose proof (Hy y) as Hyy.
  destruct (fullYear (SC.Loop.currentDate st) =? y) eqn:E.
  - apply Z.eqb_eq in E. rewrite E.
    rewrite !map_app. cbn [map snd]. rewrite !sumLeft_snoc, Eu.
    destruct (SC.mapGet y (SC.Loop.yearlyData st)) as [yd|].
    + destruct Hyy as [H1 H2]. cbn [SC.Yd.invested SC.Yd.units].
      rewrite H1, H2. split; reflexivity.
    + rewrite Hyy. cbn [SC.Yd.invested SC.Yd.units map].
      split; reflexivity.
  - rewrite !app_nil_r. exact Hyy.
Qed.

Lemma accounted_loop (fuel : nat) :
  forall (past : list (Date * num)) (st : SC.Loop.t),
  accounted past st -> accounted (past ++ schedule fuel st) (loop fuel st).
Proof.
  induction fuel as [|fuel IH]; intros past st H; cbn [SC.loop SC.schedule].
  - rewrite app_nil_r. exact H.
  - destruct (SC.running now st).
    + replace (past ++
                 (SC.Loop.currentDate st, fst (stepUp st)) :: schedule fuel (body st))
        with ((past ++ [(SC.Loop.currentDate st, fst (stepUp st))])
                ++ schedule fuel (body st))
        by (rewrite <- app_assoc; reflexivity).
      apply IH. apply accounted_body. exact H.
    + rewrite app_nil_r. exact H.
Qed.

Lemma accounted_loopEnd :
  accounted
    (SC.events now navData ty amount stepUpPercent selectedYear selectedMonth)
    (SC.loopEnd now navData ty amount stepUpPercent selectedYear selectedMonth).
Proof.
  unfold SC.events, SC.loopEnd.
  apply (accounted_loop _ [] (SC.loopInit amount selectedYear selectedMonth)).
  unfold SC.loopInit. cbn. repeat split.
Qed.

End YearlyRecords.

Section BreakdownRows.

Variables (now : Date) (navData : list NavData) (m : SC.YearlyData).

Local Abbreviation buildStep := (SC.buildStep now navData m).

(** Each row carries the record of its year, and the cumulative fields are
    the running totals of the rows' own fields. *)
Lemma build_running (ys : list Z) :
  let b := fold_left buildStep ys
             {| SC.Build.cumulativeInvested := zero;
                SC.Build.cumulativeUnits := zero;
                SC.Build.rows := [] |} in
  Forall (fun row =>
            exists yd, SC.mapGet (SC.Row.year row) m = Some yd /\
                       SC.Row.invested row = SC.Yd.invested yd /\
                       SC.Row.units row = SC.Yd.units yd)
         (SC.Build.rows b) /\
  map SC.Row.cumulativeInvested (SC.Build.rows b)
    = runningSums (map SC.Row.invested (SC.Build.rows b)) /\
  map SC.Row.cumulativeUnits (SC.Build.rows b)
    = runningSums (map SC.Row.units (SC.Build.rows b)).
Proof.
  assert (G :
    let b := fold_left buildStep ys
               {| SC.Build.cumulativeInvested := zero;
                  SC.Build.cumulativeUnits := zero;
                  SC.Build.rows := [] |} in
    Forall (fun row =>
              exists yd, SC.mapGet (SC.Row.year row) m = Some yd /\
                         SC.Row.invested row = SC.Yd.invested yd /\
                         SC.Row.units row = SC.Yd.units yd)
           (SC.Build.rows b) /\
    map SC.Row.cumulativeInvested (SC.Build.rows b)
      = runningSums (map SC.Row.invested (SC.Build.rows b)) /\
    map SC.Row.cumulativeUnits (SC.Build.rows b)
      = runningSums (map SC.Row.units (SC.Build.rows b)) /\
    SC.Build.cumulativeInvested b
      = sumLeft (map SC.Row.invested (SC.Build.rows b)) /\
    SC.Build.cumulativeUnits b
      = sumLeft (map SC.Row.units (SC.Build.rows b))).
  { apply (fold_left_invariant buildStep
             (fun (done : list Z) b =>
                Forall (fun row =>
                          exists yd, SC.mapGet (SC.Row.year row) m = Some yd /\
                                     SC.Row.invested row = SC.Yd.invested yd /\
                                     SC.Row.units row = SC.Yd.units yd)
                       (SC.Build.rows b) /\
                map SC.Row.cumulativeInvested (SC.Build.rows b)
                  = runningSums (map SC.Row.invested (SC.Build.rows b)) /\
                map SC.Row.cumulativeUnits (SC.Build.rows b)
                  = runningSums (map SC.Row.units (SC.Build.rows b)) /\
                SC.Build.cumulativeInvested b
                  = sumLeft (map SC.Row.invested (SC.Build.rows b)) /\
                SC.Build.cumulativeUnits b
                  = sumLeft (map SC.Row.units (SC.Build.rows b)))).
    - cbn. repeat split. constructor.
    - intros done x b _ (Hrec & Hci & Hcu & Hbi & Hbu).
      unfold SC.buildStep. destruct (SC.mapGet x m) as [yd|] eqn:Hg.
      + cbn [SC.Build.rows SC.Build.cumulativeInvested SC.Build.cumulativeUnits].
        rewrite !map_app. cbn [map].
        cbn [SC.Row.invested SC.Row.units SC.Row.cumulativeInvested
             SC.Row.cumulativeUnits].
        unfold runningSums. rewrite !runningFrom_snoc, !sumLeft_snoc.
        fold (runningSums (map SC.Row.invested (SC.Build.rows b))).
        fold (runningSums (map SC.Row.units (SC.Build.rows b))).
        fold (sumLeft (map SC.Row.invested (SC.Build.rows b))).
        fold (sumLeft (map SC.Row.units (SC.Build.rows b))).
        rewrite <- Hci, <- Hcu, <- Hbi, <- Hbu.
        split; [|repeat split].
        apply Forall_app. split; [exact Hrec|].
        constructor; [|constructor].
        exists yd. cbn [SC.Row.year SC.Row.invested SC.Row.units].
        repeat split. exact Hg.
      + repeat split; assumption. }
  destruct G as (H1 & H2 & H3 & _). repeat split; assumption.
Qed.

End BreakdownRows.

(** On exact rationals the [invested] fields of the year slices add up to
    [totalInvested]: the two are sums of the same contributions.  A binary64
    sum depends on the order of its additions, and there the two can differ
    in the last digits. *)
Lemma breakdown_sums_to_total_on_rationals
    (now : Date) (navData : list NavData) (ty : SC.InvestmentType)
    (amount stepUpPercent : num) (selectedYear selectedMonth : Z) :
  sumNums (map SC.Row.invested
             (SC.Past.yearlyBreakdown
                (SC.scheduleResult now navData ty amount stepUpPercent
                   selectedYear selectedMonth)))
  = SC.Past.totalInvested
      (SC.scheduleResult now navData ty amount stepUpPercent selectedYear
         selectedMonth).
Proof.
  unfold SC.scheduleResult.
  cbn [SC.Past.yearlyBreakdown SC.Past.totalInvested].
  unfold SC.buildBreakdown.
  destruct (balanced_loopEnd now navData ty amount stepUpPercent selectedYear
              selectedMonth) as (Hnd & Hsum & _).
  set (m := SC.Loop.yearlyData
              (SC.loopEnd now navData ty amount stepUpPercent selectedYear
                 selectedMonth)) in *.
  assert (Hkeys : forall y, In y (SC.sortYears (map fst m)) -> In y (map fst m)).
  { intros y Hin. apply (Permutation_in _ (sortYears_perm (map fst m))). exact Hin. }
  destruct (build_sums now navData m (SC.sortYears (map fst m)) Hkeys)
    as [_ Hrows].
  rewrite Hrows.
  rewrite (sumKeys_perm _ m _ _ (sortYears_perm (map fst m))).
  rewrite sumKeys_own by exact Hnd. exact Hsum.
Qed.


(** C7.  For every step-up schedule, each contribution event whose date is
    [k] calendar years after the start year ([k] = year of the event minus
    year of the start date, never negative) has the amount
    [amount * (1 + stepUpPercent / 100) ^ k], so that two events of the
    same calendar year have the same amount. *)
Theorem stepup_amount_by_year_offset
    (now : Date) (navData : list NavData) (amount stepUpPercent : num)
    (selectedYear selectedMonth : Z) (d : Date) (a : num) :
  let events :=
    SC.events now navData SC.stepup amount stepUpPercent selectedYear
      selectedMonth in
  let offset (x : Date) := fullYear x - SC.startYear selectedYear selectedMonth in
  In (d, a) events ->
  0 <= offset d /\
  a = mul amount
        (pow (add one (div stepUpPercent (ofZ 100))) (Z.to_nat (offset d))) /\
  forall d' a', In (d', a') events -> fullYear d' = fullYear d -> a' = a.
Proof.
  intros events offset Hin.
  assert (G : forall x b, In (x, b) events ->
            0 <= offset x /\
            b = mul amount
                  (pow (add one (div stepUpPercent (ofZ 100)))
                     (Z.to_nat (offset x)))).
  { intros x b Hx.
    apply (schedule_amounts now navData SC.stepup amount stepUpPercent
             selectedYear selectedMonth
             (SC.turns now selectedYear selectedMonth) eq_refl
             (SC.loopInit amount selectedYear selectedMonth)).
    - apply stepUpInv_init.
    - exact Hx. }
  destruct (G d a Hin) as [Hk Ha]. split; [exact Hk|]. split; [exact Ha|].
  intros d' a' Hin' Hy. destruct (G d' a' Hin') as [_ Ha'].
  rewrite Ha, Ha'. unfold offset. rewrite Hy. reflexivity.
Qed.

(** C2 (as amended).  With an empty series the schedule mode of
    [PastAnalysis] returns no result at all: its guard rejects an empty feed
    before any simulation.  The all-zero success (totalInvested,
    currentValue, totalUnits and returns zero, isProfit true) is what
    [calculateSipReturns] of mfApi.ts, which has no such guard, returns for
    an empty series and every schedule; [PastAnalysis] returns it for a
    non-empty feed in which the lookup finds no record for any event, that
    is when no record has a valid date, provided the current NAV is a finite
    number. *)
Theorem schedule_mode_null_on_empty_zero_on_undated
    (now : Date) (navData : list NavData) (ty : SC.InvestmentType)
    (amount stepUpPercent : num) (selectedYear selectedMonth : Z)
    (monthlyAmount : num) (startDate endDate : Date) :
  ty <> SC.onetime ->
  SC.pastResult now [] ty amount stepUpPercent selectedYear selectedMonth = None /\
  (let res := MfApi.calculateSipReturns [] monthlyAmount startDate endDate in
   SipResult.totalInvested res = zero /\
   SipResult.currentValue res = zero /\
   SipResult.totalUnits res = zero /\
   SipResult.returns res = zero /\
   SipResult.isProfit res = true) /\
  (falsy amount = false -> selectedYear <> 0 -> navData <> [] ->
   validTimes navData = [] ->
   (exists c, SC.currentNav navData = Fin c) ->
   exists res,
     SC.pastResult now navData ty amount stepUpPercent selectedYear selectedMonth
       = Some res /\
     SC.Past.totalInvested res = zero /\
     SC.Past.currentValue res = zero /\
     SC.Past.totalUnits res = zero /\
     SC.Past.returns res = zero /\
     SC.Past.isProfit res = true).
Proof.
  intros Hty. split; [|split].
  - unfold SC.pastResult. simpl. rewrite !orb_true_r. reflexivity.
  - rewrite calculateSipReturns_empty.
    cbn [SipResult.totalInvested SipResult.currentValue SipResult.totalUnits
         SipResult.returns SipResult.isProfit].
    assert (E : mul zero (parseFloat "0") = zero).
    { vm_compute. apply f_equal. apply Qc_is_canon. reflexivity. }
    rewrite E. repeat split.
  - intros Ha Hy Hn Hv (c & Hc).
    rewrite (pastResult_schedule now navData ty amount stepUpPercent
               selectedYear selectedMonth Hty Ha Hy Hn).
    eexists. split; [reflexivity|].
    unfold SC.scheduleResult.
    cbn [SC.Past.totalInvested SC.Past.currentValue SC.Past.totalUnits
         SC.Past.returns SC.Past.isProfit].
    destruct (idle_loopEnd now navData ty amount stepUpPercent selectedYear
                selectedMonth Hv) as (Hu & Hi & _).
    rewrite Hu, Hi, Hc.
    assert (E : mul zero (Fin c) = zero).
    { unfold zero. simpl. f_equal. apply Qcmult_0_l. }
    rewrite E. repeat split.
Qed.

(** C3.  For every purchase date and every positive amount, the lump-sum
    historical simulation returns no result for an empty series, never a
    zero-filled success; for a non-empty series of validly dated records it
    succeeds with totalUnits = amount / NAV of the record nearest to the
    purchase date. *)
Theorem lump_sum_none_on_empty_units_on_series
    (now : Date) (navData : list NavData) (amount stepUpPercent : num)
    (selectedYear selectedMonth : Z) :
  positive amount -> selectedYear <> 0 ->
  SC.pastResult now [] SC.onetime amount stepUpPercent selectedYear selectedMonth
    = None /\
  (navData <> [] -> datesValid navData ->
   exists purchaseNav res,
     SC.findNearestNav navData (SC.startDate selectedYear selectedMonth)
       = Some purchaseNav /\
     SC.pastResult now navData SC.onetime amount stepUpPercent selectedYear
       selectedMonth = Some res /\
     SC.Past.totalUnits res = div amount (parseFloat (nav purchaseNav)) /\
     SC.Past.totalInvested res = amount).
Proof.
  intros Ha Hy. split.
  - unfold SC.pastResult. simpl. rewrite !orb_true_r. reflexivity.
  - intros Hn Hd.
    destruct (findNearestNav_some navData
                (SC.startDate selectedYear selectedMonth)
                (datesValid_validTimes navData Hn Hd)) as [p Hp].
    exists p. unfold SC.pastResult.
    rewrite (positive_truthy amount Ha).
    apply Z.eqb_neq in Hy. rewrite Hy.
    destruct navData as [|r l]; [contradiction|].
    cbn [List.length Nat.eqb orb].
    unfold SC.lumpSumResult. rewrite Hp.
    eexists. split; [reflexivity|]. split; [reflexivity|].
    cbn [SC.Past.totalUnits SC.Past.totalInvested]. split; reflexivity.
Qed.

Lemma positive_ofZ_5000 : positive (ofZ 5000).
Proof. eexists. split; reflexivity. Qed.

Lemma valuesPositive_feed : valuesPositive feed.
Proof.
  unfold valuesPositive, feed.
  repeat (constructor; [eexists; split; reflexivity|]). constructor.
Qed.

Lemma datesValid_feed : datesValid feed.
Proof.
  unfold datesValid, feed. repeat (constructor; [discriminate|]). constructor.
Qed.



Lemma stepup_amount_by_year_offset_witness :
  In (newDate 2025 0 1, secondYearAmount)
     (SC.events aNow feed SC.stepup (ofZ 5000) (ofZ 10) 2024 1) /\
  secondYearAmount =
    mul (ofZ 5000)
      (pow (add one (div (ofZ 10) (ofZ 100)))
         (Z.to_nat (fullYear (newDate 2025 0 1) - SC.startYear 2024 1))).
Proof.
  assert (Hin : In (newDate 2025 0 1, secondYearAmount)
                  (SC.events aNow feed SC.stepup (ofZ 5000) (ofZ 10) 2024 1)).
  { vm_compute. do 12 right. left. reflexivity. }
  split; [exact Hin|].
  destruct (stepup_amount_by_year_offset aNow feed (ofZ 5000) (ofZ 10) 2024 1
              (newDate 2025 0 1) secondYearAmount Hin) as (_ & Ha & _).
  exact Ha.
Defined.

Example stepup_second_year_amount : secondYearAmount = ofZ 5500.
Proof. vm_compute. apply f_equal. apply Qc_is_canon. reflexivity. Qed.

(** C2 (as stated) fails: for an empty series the schedule mode returns
    [null], not a zero-filled success. *)
Lemma schedule_mode_empty_series_is_null :
  SC.pastResult aNow [] SC.sip (ofZ 5000) (ofZ 10) 2024 1 = None.
Proof. reflexivity. Qed.

Lemma schedule_mode_null_on_empty_zero_on_undated_witness :
  exists res,
    SC.pastResult aNow [noDate] SC.sip (ofZ 5000) (ofZ 10) 2024 1 = Some res /\
    SC.Past.totalInvested res = zero /\
    SC.Past.currentValue res = zero /\
    SC.Past.totalUnits res = zero /\
    SC.Past.returns res = zero /\
    SC.Past.isProfit res = true.
Proof.
  assert (H1 : SC.sip <> SC.onetime) by discriminate.
  assert (H2 : falsy (ofZ 5000) = false) by reflexivity.
  assert (H3 : 2024 <> 0) by lia.
  assert (H4 : [noDate] <> []) by discriminate.
  assert (H5 : validTimes [noDate] = []) by reflexivity.
  assert (H6 : exists c, SC.currentNav [noDate] = Fin c)
    by (eexists; reflexivity).
  exact (proj2 (proj2 (schedule_mode_null_on_empty_zero_on_undated aNow
                         [noDate] SC.sip (ofZ 5000) (ofZ 10) 2024 1
                         (ofZ 5000) (newDate 2024 0 15) aNow H1))
           H2 H3 H4 H5 H6).
Defined.

Lemma lump_sum_none_on_empty_units_on_series_witness :
  SC.pastResult aNow [] SC.onetime (ofZ 5000) (ofZ 10) 2024 1 = None /\
  exists purchaseNav res,
    SC.findNearestNav feed (SC.startDate 2024 1) = Some purchaseNav /\
    SC.pastResult aNow feed SC.onetime (ofZ 5000) (ofZ 10) 2024 1 = Some res /\
    SC.Past.totalUnits res = div (ofZ 5000) (parseFloat (nav purchaseNav)) /\
    SC.Past.totalInvested res = ofZ 5000.
Proof.
  assert (H1 : 2024 <> 0) by lia.
  assert (H2 : feed <> []) by discriminate.
  destruct (lump_sum_none_on_empty_units_on_series aNow feed (ofZ 5000)
              (ofZ 10) 2024 1 positive_ofZ_5000 H1) as [Hnone Hsome].
  split; [exact Hnone|]. exact (Hsome H2 datesValid_feed).
Defined.

(** ** FutureProjection *)

Lemma qnat_S (n : nat) : qnat (S n) = (qnat n + 1)%Qc.
Proof.
  unfold qnat. apply Qc_is_canon.
  rewrite Qc_this_add. unfold Q2Qc. cbn [this]. rewrite !Qred_correct.
  rewrite Nat2Z.inj_succ. unfold Z.succ. rewrite inject_Z_plus. reflexivity.
Qed.

Lemma qnat_0 : qnat 0 = Q2Qc 0.
Proof. reflexivity. Qed.

(** The closed form of the geometric sum. *)
Lemma geomSum_closed (x : Qc) (n : nat) :
  ((x - 1) * geomSum x n = x * (x ^ n - 1))%Qc.
Proof.
  induction n as [|n IH].
  - cbn [geomSum Qcpower]. ring.
  - cbn [geomSum]. rewrite Qcmult_plus_distr_r, IH. cbn [Qcpower]. ring.
Qed.

Lemma annuity_due_is_geomSum (a x r : Qc) (n : nat) :
  r = (x - 1)%Qc -> r <> Q2Qc 0 ->
  (a * ((x ^ n - 1) / r) * x = a * geomSum x n)%Qc.
Proof.
  intros Hr Hr0.
  assert (E : geomSum x n = (x * (x ^ n - 1) / r)%Qc).
  { rewrite <- geomSum_closed, <- Hr.
    rewrite (Qcmult_comm r). apply eq_sym. apply Qcdiv_mult_l. exact Hr0. }
  rewrite E. field. exact Hr0.
Qed.

Section StepUpZero.

Variables (a x : Qc) (years : nat) (expectedReturn : num).

Hypothesis rate_x : add one (SC.monthlyRate expectedReturn) = Fin x.

Local Abbreviation monthStep := (SC.monthStep expectedReturn).
Local Abbreviation yearStep := (SC.yearStep years expectedReturn zero).

(** One contribution. *)
Lemma month_turn (remaining month : nat) (t f : Qc) :
  monthStep remaining
    {| SC.Grow.totalInvested := Fin t;
       SC.Grow.futureValue := Fin f;
       SC.Grow.currentAmount := Fin a |} month =
  {| SC.Grow.totalInvested := Fin (t + a)%Qc;
     SC.Grow.futureValue := Fin (f + a * x ^ (remaining - month))%Qc;
     SC.Grow.currentAmount := Fin a |}.
Proof.
  unfold SC.monthStep.
  cbn [SC.Grow.totalInvested SC.Grow.futureValue SC.Grow.currentAmount].
  rewrite rate_x, pow_Fin. reflexivity.
Qed.

(** The twelve contributions of a year with [12 + n] months to go. *)
Lemma year_of_months (n : nat) (t f : Qc) :
  fold_left (monthStep (12 + n))
    (seq 0 12)
    {| SC.Grow.totalInvested := Fin t;
       SC.Grow.futureValue := Fin f;
       SC.Grow.currentAmount := Fin a |} =
  {| SC.Grow.totalInvested := Fin (t + a * qnat 12)%Qc;
     SC.Grow.futureValue := Fin (f + a * (geomSum x (12 + n) - geomSum x n))%Qc;
     SC.Grow.currentAmount := Fin a |}.
Proof.
  cbn [seq fold_left]. rewrite !month_turn.
  cbn [Nat.add Nat.sub]. rewrite !qnat_S, qnat_0. cbn [geomSum Qcpower].
  f_equal; f_equal; ring.
Qed.

Lemma stepUp_zero_factor : mul (Fin a) (add one (div zero (ofZ 100))) = Fin a.
Proof.
  assert (E : add one (div zero (ofZ 100)) = one).
  { vm_compute. apply f_equal. apply Qc_is_canon. reflexivity. }
  rewrite E. apply mul_one_r.
Qed.

(** The state of the step-up loops after [y] years at step-up 0. *)
Lemma years_of_months (y : nat) :
  (y <= years)%nat ->
  fold_left yearStep (seq 0 y)
    {| SC.Grow.totalInvested := zero;
       SC.Grow.futureValue := zero;
       SC.Grow.currentAmount := Fin a |} =
  {| SC.Grow.totalInvested := Fin (a * qnat (y * 12))%Qc;
     SC.Grow.futureValue :=
       Fin (a * (geomSum x (years * 12) - geomSum x ((years - y) * 12)))%Qc;
     SC.Grow.currentAmount := Fin a |}.
Proof.
  induction y as [|y IH]; intros Hy.
  - cbn [seq fold_left]. rewrite Nat.sub_0_r. unfold zero.
    cbn [Nat.mul]. rewrite qnat_0. f_equal; f_equal; ring.
  - rewrite seq_S, fold_left_app, IH by lia. cbn [fold_left Nat.add].
    unfold SC.yearStep.
    replace ((years - y) * 12)%nat with (12 + (years - S y) * 12)%nat by lia.
    rewrite year_of_months.
    cbn [SC.Grow.totalInvested SC.Grow.futureValue SC.Grow.currentAmount].
    rewrite stepUp_zero_factor.
    replace (S y * 12)%nat with (12 + y * 12)%nat by lia.
    cbn [Nat.add]. rewrite !qnat_S, qnat_0.
    f_equal; f_equal; ring.
Qed.

End StepUpZero.

Lemma div_Fin (a b : Qc) :
  b <> Q2Qc 0 -> div (Fin a) (Fin b) = Fin (a / b)%Qc.
Proof.
  intros Hb. simpl. unfold Qc_eq_bool.
  destruct (Qc_eq_dec b (Q2Qc 0)); [contradiction | reflexivity].
Qed.

Lemma falsy_Fin (q : Qc) : falsy (Fin q) = false -> q <> Q2Qc 0.
Proof.
  simpl. unfold Qc_eq_bool.
  destruct (Qc_eq_dec q (Q2Qc 0)); [discriminate | intros _; assumption].
Qed.

Lemma q100_nonzero : Q2Qc (inject_Z 100) <> Q2Qc 0.
Proof. intros H. discriminate (f_equal this H). Qed.

Lemma q12_nonzero : Q2Qc (inject_Z 12) <> Q2Qc 0.
Proof. intros H. discriminate (f_equal this H). Qed.

(** The monthly rate of a finite annual rate, and that it is not zero
    when the annual rate is not. *)
Lemma monthlyRate_Fin (e : Qc) :
  let r := (e / Q2Qc (inject_Z 100) / Q2Qc (inject_Z 12))%Qc in
  SC.monthlyRate (Fin e) = Fin r /\ (e <> Q2Qc 0 -> r <> Q2Qc 0).
Proof.
  intros r. split.
  - unfold SC.monthlyRate, ofZ.
    rewrite (div_Fin e _ q100_nonzero). apply (div_Fin _ _ q12_nonzero).
  - intros He Hr. apply He.
    assert (E : e = (r * Q2Qc (inject_Z 100) * Q2Qc (inject_Z 12))%Qc).
    { unfold r. field. split; [exact q100_nonzero | exact q12_nonzero]. }
    rewrite E, Hr. ring.
Qed.

(** On exact rationals, for every finite amount, whole number of years and
    finite annual return percent, the step-up projection computed with
    stepUpPercent = 0 is the regular-contribution (annuity-due) projection on
    the same inputs: the sum of the grown contributions is the closed form
    of the annuity.  On binary64 numbers the two are equal up to rounding
    only. *)
Lemma stepup_zero_is_regular_on_rationals (a e : Qc) (years : nat) (s : num) :
  SC.futureResult SC.stepup (Fin a) years (Fin e) zero =
  SC.futureResult SC.sip (Fin a) years (Fin e) s.
Proof.
  unfold SC.futureResult.
  destruct (falsy (Fin a) || Nat.eqb years 0 || falsy (Fin e)) eqn:G;
    [reflexivity|].
  apply orb_false_elim in G. destruct G as [_ He]. apply falsy_Fin in He.
  destruct (monthlyRate_Fin e) as [Hrate Hr0]. specialize (Hr0 He).
  set (r := (e / Q2Qc (inject_Z 100) / Q2Qc (inject_Z 12))%Qc) in *.
  f_equal. unfold SC.stepUpProjection, SC.sipProjection, SC.months.
  assert (Hx : add one (SC.monthlyRate (Fin e)) = Fin (1 + r)%Qc)
    by (rewrite Hrate; reflexivity).
  rewrite (years_of_months a (1 + r)%Qc years (Fin e) Hx years (le_n years)).
  cbn [SC.Grow.totalInvested SC.Grow.futureValue].
  rewrite Hx, Hrate, pow_Fin.
  change (sub (Fin ((1 + r) ^ (years * 12))%Qc) one)
    with (Fin ((1 + r) ^ (years * 12) - 1)%Qc).
  rewrite (div_Fin _ r Hr0).
  change (ofZ (Z.of_nat (years * 12))) with (Fin (qnat (years * 12))).
  cbn [mul]. f_equal. f_equal.
  rewrite Nat.sub_diag. cbn [Nat.mul geomSum].
  rewrite (annuity_due_is_geomSum a (1 + r)%Qc r (years * 12)).
  - ring.
  - ring.
  - exact Hr0.
Qed.

(** *** The two projections on binary64 numbers *)

(** Multiplying by 1 is exact. *)
Lemma float_mul_one (x : float) : (x * 1)%float = x.
Proof.
  apply Prim2SF_inj. rewrite mul_spec.
  pose proof (Prim2SF_valid x) as Hv.
  change (Prim2SF 1) with (S754_finite false 4503599627370496 (-52)).
  destruct (Prim2SF x) as [s|s| |s m e]; cbn [SF64mul SFmul].
  - rewrite xorb_false_r. reflexivity.
  - rewrite xorb_false_r. reflexivity.
  - reflexivity.
  - rewrite xorb_false_r.
    cbn [valid_binary] in Hv. unfold bounded, canonical_mantissa in Hv.
    apply andb_prop in Hv. destruct Hv as [Hc Hb].
    apply Z.eqb_eq in Hc.
    rewrite Pos.mul_comm.
    unfold binary_round_aux, shr_fexp.
    cbn [Pos.mul Zdigits2 digits2_pos shr_record_of_loc].
    match goal with
    | |- context [fexp prec emax (?a + (e + -52))] =>
        replace (a + (e + -52))%Z with (Z.pos (digits2_pos m) + e)%Z by lia
    end.
    rewrite Hc.
    replace (e - (e + -52))%Z with 52%Z by lia.
    cbn [shr iter_pos shr_1 orb shr_m loc_of_shr_record round_nearest_even
         Zdigits2].
    replace (e + -52 + 52)%Z with e by lia.
    rewrite Hc, Z.sub_diag. cbn [shr shr_m]. rewrite Hb. reflexivity.
Qed.

Lemma whole_years_checked : forallb wholeYearsChecked (seq 1 40) = true.
Proof. vm_compute. reflexivity. Qed.

Lemma whole_years (n : nat) :
  (1 <= n <= 40)%nat -> wholeYearsChecked n = true.
Proof.
  intros Hn. pose proof whole_years_checked as H.
  rewrite forallb_forall in H. apply H. apply in_seq. lia.
Qed.

Lemma whole_years_truthy (n : nat) :
  (1 <= n <= 40)%nat -> B64.falsy (B64.ofInt (Z.of_nat n)) = false.
Proof.
  intros Hn. pose proof (whole_years n Hn) as H. unfold wholeYearsChecked in H.
  rewrite !andb_true_iff in H. destruct H as [[[H _] _] _].
  apply negb_true_iff in H. exact H.
Qed.

Lemma whole_years_months (n : nat) :
  (1 <= n <= 40)%nat ->
  B64.months (B64.ofInt (Z.of_nat n)) = B64.ofInt (Z.of_nat (12 * n)).
Proof.
  intros Hn. pose proof (whole_years n Hn) as H. unfold wholeYearsChecked in H.
  rewrite !andb_true_iff in H. destruct H as [[[_ H] _] _].
  apply FloatAxioms.Leibniz.eqb_spec in H. exact H.
Qed.

Lemma whole_years_test (n y : nat) :
  (1 <= n <= 40)%nat -> (y <= n)%nat ->
  (B64.ofInt (Z.of_nat y) <? B64.ofInt (Z.of_nat n))%float = (y <? n)%nat.
Proof.
  intros Hn Hy. pose proof (whole_years n Hn) as H. unfold wholeYearsChecked in H.
  rewrite !andb_true_iff in H. destruct H as [[_ H] _].
  rewrite forallb_forall in H.
  apply eqb_prop. apply H. apply in_seq. lia.
Qed.

Lemma whole_years_to_grow (n y m : nat) :
  (1 <= n <= 40)%nat -> (y < n)%nat -> (m < 12)%nat ->
  ((B64.ofInt (Z.of_nat n) - B64.ofInt (Z.of_nat y)) * 12
   - B64.ofInt (Z.of_nat m))%float
  = B64.ofInt (Z.of_nat (12 * n - (12 * y + m))).
Proof.
  intros Hn Hy Hm. pose proof (whole_years n Hn) as H.
  unfold wholeYearsChecked in H.
  rewrite !andb_true_iff in H. destruct H as [_ H].
  rewrite forallb_forall in H.
  assert (Hy' : In y (seq 0 n)) by (apply in_seq; lia).
  specialize (H y Hy'). rewrite forallb_forall in H.
  apply FloatAxioms.Leibniz.eqb_spec. apply H. apply in_seq. lia.
Qed.

Lemma seq_from (a len : nat) : seq a len = map (fun m => (a + m)%nat) (seq 0 len).
Proof.
  revert a. induction len as [|len IH]; intros a; [reflexivity|].
  cbn [seq map]. rewrite Nat.add_0_r. f_equal.
  rewrite (IH (S a)), (IH 1%nat), map_map. apply map_ext. intros m. lia.
Qed.

Lemma map_const_repeat {A B : Type} (b : B) (l : list A) :
  map (fun _ => b) l = repeat b (List.length l).
Proof. induction l as [|x l IH]; [reflexivity|]. cbn. rewrite IH. reflexivity. Qed.

Section ConstantContribution.

Variable pow : float -> float -> float.
Variables (amount expectedReturn : float) (n : nat).
Hypothesis Hn : (1 <= n <= 40)%nat.

Local Abbreviation years := (B64.ofInt (Z.of_nat n)).

Lemma months_fold (monthsRemaining : float) (l : list nat) :
  forall g,
  fold_left (B64.monthStep pow expectedReturn monthsRemaining) l g =
  {| B64.Grow.totalInvested :=
       fold_left PrimFloat.add (map (fun _ => B64.Grow.currentAmount g) l)
         (B64.Grow.totalInvested g);
     B64.Grow.futureValue :=
       fold_left PrimFloat.add
         (map (fun m => (B64.Grow.currentAmount g
                         * pow (1 + B64.monthlyRate expectedReturn)
                             (monthsRemaining - B64.ofInt (Z.of_nat m)))%float) l)
         (B64.Grow.futureValue g);
     B64.Grow.currentAmount := B64.Grow.currentAmount g |}.
Proof.
  induction l as [|m l IH]; intros g.
  - destruct g. reflexivity.
  - cbn [fold_left map]. rewrite IH. reflexivity.
Qed.

Lemma yearStep_zero (g : B64.Grow.t) (y : nat) :
  (y < n)%nat -> B64.Grow.currentAmount g = amount ->
  B64.yearStep pow years expectedReturn 0 g y = contributed pow amount expectedReturn n (seq (12 * y) 12) g.
Proof.
  intros Hy Hg. unfold B64.yearStep, contributed.
  rewrite months_fold.
  cbn [B64.Grow.totalInvested B64.Grow.futureValue B64.Grow.currentAmount].
  rewrite Hg. change (1 + 0 / 100)%float with 1%float. rewrite float_mul_one.
  rewrite (seq_from (12 * y) 12), !map_map.
  f_equal. f_equal.
  apply map_ext_in. intros m Hm. apply in_seq in Hm.
  unfold grownAt. rewrite whole_years_to_grow by lia. reflexivity.
Qed.

Lemma contributed_app (l1 l2 : list nat) (g : B64.Grow.t) :
  contributed pow amount expectedReturn n l2
    (contributed pow amount expectedReturn n l1 g)
  = contributed pow amount expectedReturn n (l1 ++ l2) g.
Proof.
  unfold contributed.
  cbn [B64.Grow.totalInvested B64.Grow.futureValue B64.Grow.currentAmount].
  rewrite !map_app, !fold_left_app. reflexivity.
Qed.

Lemma yearLoop_zero (k : nat) :
  forall (y : nat) (g : B64.Grow.t),
  (y + k = n)%nat -> B64.Grow.currentAmount g = amount ->
  B64.yearLoop pow years expectedReturn 0 k y g
  = Some (contributed pow amount expectedReturn n (seq (12 * y) (12 * k)) g).
Proof.
  induction k as [|k IH]; intros y g Hy Hg; cbn [B64.yearLoop].
  - rewrite whole_years_test by lia.
    replace (y <? n)%nat with false by (symmetry; apply Nat.ltb_ge; lia).
    rewrite Nat.mul_0_r. cbn [seq]. unfold contributed. cbn [map fold_left].
    rewrite <- Hg. destruct g. reflexivity.
  - rewrite whole_years_test by lia.
    replace (y <? n)%nat with true by (symmetry; apply Nat.ltb_lt; lia).
    rewrite yearStep_zero by (lia || exact Hg).
    rewrite IH by (lia || reflexivity).
    rewrite contributed_app. f_equal. f_equal.
    replace (12 * S k)%nat with (12 + 12 * k)%nat by lia.
    rewrite seq_app. f_equal. f_equal. lia.
Qed.

End ConstantContribution.




(** C9 (as amended).  The lump-sum future projection with amount 100000,
    5 years and 10% annual return has totalInvested = 100000 and
    futureValue = 100000 * (1 + 0.10/12)^60, the monthly compounding of the
    code's formula, which lies between 164530 and 164531. *)
Theorem lump_sum_projection_compounds_monthly (s : num) :
  exists res v,
    SC.futureResult SC.onetime (ofZ 100000) 5 (ofZ 10) s = Some res /\
    SC.Future.totalInvested res = ofZ 100000 /\
    SC.Future.futureValue res =
      mul (ofZ 100000)
        (pow (add one (div (div (ofZ 10) (ofZ 100)) (ofZ 12))) 60) /\
    SC.Future.futureValue res = Fin v /\
    (Q2Qc (inject_Z 164530) < v)%Qc /\ (v < Q2Qc (inject_Z 164531))%Qc.
Proof.
  eexists. eexists.
  split; [reflexivity|]. split; [reflexivity|]. split; [reflexivity|].
  split; [vm_compute; reflexivity|].
  split; vm_compute; reflexivity.
Qed.

(** C9 (as stated) fails: the projected value exceeds 161051 by more than
    3479, over 2% of it. *)
Lemma lump_sum_projection_is_not_annual_compounding :
  exists res v,
    SC.futureResult SC.onetime (ofZ 100000) 5 (ofZ 10) zero = Some res /\
    SC.Future.futureValue res = Fin v /\
    (Q2Qc (inject_Z (161051 + 3479)) < v)%Qc.
Proof.
  eexists. eexists.
  split; [reflexivity|]. split; [vm_compute; reflexivity|].
  vm_compute; reflexivity.
Qed.

(** ** The latest and the oldest record *)

Lemma StronglySorted_app_order {A : Type} (R : A -> A -> Prop) (l1 l2 : list A) :
  StronglySorted R (l1 ++ l2) ->
  forall a b, In a l1 -> In b l2 -> R a b.
Proof.
  induction l1 as [|x l1 IH]; intros Hs a b Ha Hb; [contradiction|].
  simpl in Hs. inversion Hs as [|? ? Hs' Hx]; subst.
  destruct Ha as [<-|Ha].
  - rewrite Forall_forall in Hx. apply Hx. apply in_or_app. right. exact Hb.
  - apply (IH Hs' a b Ha Hb).
Qed.

(** In a feed sorted newest first no record is dated after the first. *)
Lemma sortedDescending_first (first : NavData) (rest : list NavData) (t0 : Z) :
  sortedDescending (first :: rest) ->
  navTime (date first) = Some t0 ->
  forall r t, In r (first :: rest) -> navTime (date r) = Some t -> t <= t0.
Proof.
  unfold sortedDescending. rewrite validTimes_cons. intros Hs H0.
  rewrite H0 in Hs. inversion Hs as [|? ? _ Hall]; subst.
  intros r t [<-|Hin] Ht.
  - rewrite H0 in Ht. injection Ht as <-. lia.
  - rewrite Forall_forall in Hall.
    pose proof (Hall t (validTimes_In rest r t Hin Ht)). lia.
Qed.

(** In a feed sorted newest first no record is dated before the last. *)
Lemma sortedDescending_last (pre : list NavData) (oldest : NavData) (t0 : Z) :
  sortedDescending (pre ++ [oldest]) ->
  navTime (date oldest) = Some t0 ->
  forall r t, In r (pre ++ [oldest]) -> navTime (date r) = Some t -> t0 <= t.
Proof.
  unfold sortedDescending. rewrite validTimes_app. intros Hs H0 r t Hin Ht.
  apply in_app_or in Hin. destruct Hin as [Hin|[<-|[]]].
  - assert (t >= t0); [|lia].
    apply (StronglySorted_app_order Z.ge _ _ Hs).
    + apply (validTimes_In pre r t Hin Ht).
    + apply (validTimes_In [oldest] oldest t0); [left; reflexivity | exact H0].
  - rewrite H0 in Ht. injection Ht as <-. lia.
Qed.

Lemma sortedDescending_feed : sortedDescending feed.
Proof.
  unfold sortedDescending.
  change (validTimes feed)
    with [18270 * msPerDay; 18264 * msPerDay; 18262 * msPerDay].
  repeat constructor; unfold msPerDay; lia.
Qed.

(** C4 (as amended).  For every non-empty series the value used as the
    current valuation, in PastAnalysis and in the fund header, is the value
    of the record supplied first (0 when its value string is empty).  That
    record has the chronologically highest date when the records are
    supplied sorted descending by date, as the feed supplies them. *)
Theorem current_valuation_is_first_supplied
    (first : NavData) (rest : list NavData) :
  SC.currentNav (first :: rest) = parseFloat (orZero (nav first)) /\
  FundDetails.latestNavValue (first :: rest) = parseFloat (orZero (nav first)) /\
  (nav first <> EmptyString ->
   SC.currentNav (first :: rest) = parseFloat (nav first)) /\
  (sortedDescending (first :: rest) ->
   forall t0 r t,
     navTime (date first) = Some t0 ->
     In r (first :: rest) -> navTime (date r) = Some t -> t <= t0).
Proof.
  split; [reflexivity|]. split; [reflexivity|]. split.
  - intros Hne. simpl. destruct (nav first); [contradiction | reflexivity].
  - intros Hs t0 r t H0. apply (sortedDescending_first first rest t0 Hs H0).
Qed.

Lemma current_valuation_is_first_supplied_witness :
  SC.currentNav feed = parseFloat (nav day9) /\
  forall r t, In r feed -> navTime (date r) = Some t -> t <= 18270 * msPerDay.
Proof.
  destruct (current_valuation_is_first_supplied day9 [day3; day1])
    as (_ & _ & Hv & Hmax).
  split.
  - apply Hv. discriminate.
  - intros r t. apply (Hmax sortedDescending_feed). reflexivity.
Defined.

(** C4 (as stated) fails when the records are supplied oldest first: the
    current valuation is then the value of the earliest record (10), not
    that of the record with the highest date (20). *)
Lemma current_valuation_depends_on_order :
  exists t t',
    navTime (date rec2020) = Some t /\
    navTime (date rec2023) = Some t' /\
    t < t' /\
    SC.currentNav [rec2020; rec2023] = parseFloat (nav rec2020) /\
    FundDetails.latestNavValue [rec2020; rec2023] = parseFloat (nav rec2020) /\
    parseFloat (nav rec2023) <> parseFloat (nav rec2020).
Proof.
  eexists. eexists.
  split; [reflexivity|]. split; [reflexivity|]. split; [reflexivity|].
  split; [reflexivity|]. split; [reflexivity|].
  intros H. vm_compute in H. discriminate H.
Qed.

(** ** NavChart: trailing returns *)

Lemma gtb_positive (s : Qc) : (Q2Qc 0 < s)%Qc -> gtb (Fin s) zero = true.
Proof.
  intros Hs. unfold gtb, cmp, zero.
  assert (E : Qccompare s (Q2Qc 0) = Gt) by (apply Qcgt_alt; exact Hs).
  rewrite E. reflexivity.
Qed.

(** C8 (as amended).  Over the window ALL, [latest] is the value of the
    record supplied first and [start] the value of the record supplied last;
    when [start] is positive, changePercent = (latest - start) / start * 100
    and isPositive = (changePercent >= 0).  The record supplied last is the
    chronologically earliest one when the series is sorted descending by
    date, as the feed supplies it; supplied in that order, the two-record
    series of 2020-01-01 (value 10) and 2023-01-01 (value 20) yields
    changePercent = 100 and isPositive = true. *)
Theorem all_time_return_first_and_last_supplied
    (now : Date) (first oldest : NavData) (rest pre : list NavData)
    (l s : Qc) :
  first :: rest = pre ++ [oldest] ->
  parseFloat (nav first) = Fin l ->
  parseFloat (nav oldest) = Fin s ->
  (Q2Qc 0 < s)%Qc ->
  let c := ((l - s) / s * Q2Qc (inject_Z 100))%Qc in
  NavChart.periodReturns now (first :: rest) NavChart.ALL =
    Some {| NavChart.change := Fin c;
            NavChart.isPositive := geb (Fin c) zero |} /\
  (sortedDescending (first :: rest) ->
   forall t0 r t,
     navTime (date oldest) = Some t0 ->
     In r (first :: rest) -> navTime (date r) = Some t -> t0 <= t) /\
  NavChart.periodReturns now [rec2023; rec2020] NavChart.ALL =
    Some {| NavChart.change := ofZ 100; NavChart.isPositive := true |}.
Proof.
  intros Hd Hl Hs Hpos c. split; [|split].
  - unfold NavChart.periodReturns, NavChart.startNavOf.
    cbn [NavChart.periodMonths]. rewrite Hd, rev_unit, Hl, Hs.
    rewrite (gtb_positive s Hpos).
    change (sub (Fin l) (Fin s)) with (Fin (l - s)%Qc).
    rewrite div_Fin by (intros E; rewrite E in Hpos; discriminate Hpos).
    reflexivity.
  - intros Hsd t0 r t H0. rewrite Hd in *.
    apply (sortedDescending_last pre oldest t0 Hsd H0).
  - vm_compute. apply f_equal.
    apply (f_equal2 NavChart.mkReturn); [|reflexivity].
    apply f_equal. apply Qc_is_canon. reflexivity.
Qed.

Lemma all_time_return_first_and_last_supplied_witness :
  NavChart.periodReturns aNow [rec2023; rec2020] NavChart.ALL =
    Some {| NavChart.change :=
              Fin ((Q2Qc (inject_Z 20) - Q2Qc (inject_Z 10))
                   / Q2Qc (inject_Z 10) * Q2Qc (inject_Z 100))%Qc;
            NavChart.isPositive :=
              geb (Fin ((Q2Qc (inject_Z 20) - Q2Qc (inject_Z 10))
                        / Q2Qc (inject_Z 10) * Q2Qc (inject_Z 100))%Qc) zero |}.
Proof.
  assert (Hd : rec2023 :: [rec2020] = [rec2023] ++ [rec2020]) by reflexivity.
  assert (Hl : parseFloat (nav rec2023) = Fin (Q2Qc (inject_Z 20))).
  { vm_compute. apply f_equal. apply Qc_is_canon. reflexivity. }
  assert (Hs : parseFloat (nav rec2020) = Fin (Q2Qc (inject_Z 10))).
  { vm_compute. apply f_equal. apply Qc_is_canon. reflexivity. }
  assert (Hp : (Q2Qc 0 < Q2Qc (inject_Z 10))%Qc) by reflexivity.
  exact (proj1 (all_time_return_first_and_last_supplied aNow rec2023 rec2020
                  [rec2020] [rec2023] _ _ Hd Hl Hs Hp)).
Defined.

(** C8 (as stated) fails on the series as it is written, oldest record
    first: [latest] is then 10 and [start] 20, and the result is
    changePercent = -50 with isPositive = false. *)
Lemma all_time_return_depends_on_order :
  NavChart.periodReturns aNow [rec2020; rec2023] NavChart.ALL =
    Some {| NavChart.change := ofZ (-50); NavChart.isPositive := false |}.
Proof.
  vm_compute. apply f_equal.
    apply (f_equal2 NavChart.mkReturn); [|reflexivity].
    apply f_equal. apply Qc_is_canon. reflexivity.
Qed.

(** * Further properties of the code *)

(** ** Auxiliary facts *)

Lemma Qc_pos_nonzero (v : Qc) : (Q2Qc 0 < v)%Qc -> v <> Q2Qc 0.
Proof. intros Hv ->. apply (Qclt_not_le _ _ Hv). apply Qcle_refl. Qed.

Lemma mapGet_some_In (k : Z) (yd : SC.Yd.t) (m : SC.YearlyData) :
  SC.mapGet k m = Some yd -> In (k, yd) m.
Proof.
  intros Hg.
  destruct (in_dec Z.eq_dec k (map fst m)) as [Hin|Hnot].
  - destruct (mapGet_in k m Hin) as (yd' & Hg' & Hi).
    rewrite Hg in Hg'. injection Hg' as <-. exact Hi.
  - exfalso. clear - Hg Hnot. induction m as [|[k' v'] m IH]; simpl in *.
    + discriminate.
    + destruct (k' =? k) eqn:E.
      * apply Z.eqb_eq in E. tauto.
      * apply IH; tauto.
Qed.

(** ** The two lookups *)

(** What the exhaustive lookup returns, for any array. *)
Lemma findNearestNav_spec (navData : list NavData) (targetDate : Date) :
  match SC.findNearestNav navData targetDate with
  | None => forall r, In r navData -> navTime (date r) = None
  | Some r =>
      exists d, In r navData /\ distance targetDate r d /\
        forall r' d', In r' navData -> distance targetDate r' d' -> d <= d'
  end.
Proof.
  pose proof (firstClosest_scan (getTime targetDate) navData) as Inv.
  unfold firstClosest in Inv. unfold SC.findNearestNav, distance.
  destruct (nearest (fold_left (SC.scanStep (getTime targetDate)) navData scanInit))
    as [r|].
  - destruct Inv as (d & pre & post & Hseen & Hr & _ & Hpre & Hpost).
    exists d. split; [|split; [exact Hr|]].
    + rewrite Hseen. apply in_or_app. right. left. reflexivity.
    + intros r' d' Hin Hd'. rewrite Hseen in Hin.
      apply in_app_or in Hin. destruct Hin as [Hin|[<-|Hin]].
      * specialize (Hpre r' d' Hin Hd'). lia.
      * rewrite Hr in Hd'. injection Hd' as <-. lia.
      * apply (Hpost r' d' Hin Hd').
  - destruct Inv as [_ Hnone]. intros r Hin. specialize (Hnone r Hin).
    unfold diffTo in Hnone. destruct (navTime (date r)); [discriminate|reflexivity].
Qed.

(** X1.  The exhaustive lookup of SipCalculator.tsx returns [null] exactly
    when no record of the array has a valid date, in particular for the
    empty array; what it returns otherwise is a record of the array whose
    date is valid.  Records with an invalid date are skipped, they never
    abort the scan. *)
Theorem lookup_null_iff_no_dated_record
    (navData : list NavData) (targetDate : Date) :
  (SC.findNearestNav navData targetDate = None <->
   forall r, In r navData -> navTime (date r) = None) /\
  (forall r, SC.findNearestNav navData targetDate = Some r ->
             In r navData /\ navTime (date r) <> None).
Proof.
  pose proof (findNearestNav_spec navData targetDate) as H.
  destruct (SC.findNearestNav navData targetDate) as [r|].
  - destruct H as (d & Hin & Hd & _). split.
    + split; [discriminate|]. intros Hnone. exfalso.
      unfold distance, diffTo in Hd. rewrite (Hnone r Hin) in Hd. discriminate.
    + intros r' E. injection E as <-. split; [exact Hin|].
      unfold distance, diffTo in Hd. destruct (navTime (date r)); discriminate.
  - split; [split; [intros _; exact H | reflexivity] | discriminate].
Qed.

(** X2.  When some record is dated exactly at the target instant, the
    exhaustive lookup returns a record of that same date. *)
Theorem lookup_exact_date_is_found
    (navData : list NavData) (targetDate : Date) (r0 : NavData) :
  In r0 navData -> navTime (date r0) = Some (getTime targetDate) ->
  exists r,
    SC.findNearestNav navData targetDate = Some r /\
    navTime (date r) = Some (getTime targetDate).
Proof.
  intros Hin0 H0.
  pose proof (findNearestNav_spec navData targetDate) as H.
  destruct (SC.findNearestNav navData targetDate) as [r|].
  - destruct H as (d & Hin & Hd & Hmin). exists r. split; [reflexivity|].
    assert (Hd0 : distance targetDate r0 0).
    { unfold distance, diffTo. rewrite H0. simpl. f_equal. lia. }
    specialize (Hmin r0 0 Hin0 Hd0).
    unfold distance, diffTo in Hd.
    destruct (navTime (date r)) as [t|]; [|discriminate].
    simpl in Hd. injection Hd as Hd. f_equal. lia.
  - rewrite (H r0 Hin0) in H0. discriminate.
Qed.

Lemma lookup_exact_date_is_found_witness :
  exists r,
    SC.findNearestNav feed (newDate 2020 0 3) = Some r /\
    navTime (date r) = Some (getTime (newDate 2020 0 3)).
Proof.
  apply (lookup_exact_date_is_found feed (newDate 2020 0 3) day3).
  - right. left. reflexivity.
  - reflexivity.
Defined.

(** X3.  A target outside the range of the series gets the endpoint: when
    no record is dated after the target the lookup returns a record of the
    latest date, and when none is dated before it a record of the earliest
    date. *)
Theorem lookup_outside_range_returns_endpoint
    (navData : list NavData) (targetDate : Date) :
  validTimes navData <> [] ->
  ((forall r t, In r navData -> navTime (date r) = Some t ->
                t <= getTime targetDate) ->
   exists r t,
     SC.findNearestNav navData targetDate = Some r /\
     navTime (date r) = Some t /\
     forall r' t', In r' navData -> navTime (date r') = Some t' -> t' <= t) /\
  ((forall r t, In r navData -> navTime (date r) = Some t ->
                getTime targetDate <= t) ->
   exists r t,
     SC.findNearestNav navData targetDate = Some r /\
     navTime (date r) = Some t /\
     forall r' t', In r' navData -> navTime (date r') = Some t' -> t <= t').
Proof.
  intros Hv.
  destruct (findNearestNav_some navData targetDate Hv) as [r Hr].
  pose proof (findNearestNav_spec navData targetDate) as H. rewrite Hr in H.
  destruct H as (d & Hin & Hd & Hmin).
  unfold distance, diffTo in Hd.
  destruct (navTime (date r)) as [t|] eqn:Ht; [|discriminate].
  simpl in Hd. injection Hd as Hd.
  split; intros Hside; exists r, t; (split; [exact Hr|]);
    (split; [exact Ht|]); intros r' t' Hin' Ht';
    pose proof (Hside r t Hin Ht); pose proof (Hside r' t' Hin' Ht');
    assert (Hd' : distance targetDate r' (Z.abs (t' - getTime targetDate)))
      by (unfold distance, diffTo; rewrite Ht'; reflexivity);
    specialize (Hmin r' _ Hin' Hd'); lia.
Qed.

Lemma lookup_outside_range_returns_endpoint_witness :
  (exists r t,
     SC.findNearestNav feed (newDate 2026 0 1) = Some r /\
     navTime (date r) = Some t /\
     forall r' t', In r' feed -> navTime (date r') = Some t' -> t' <= t) /\
  (exists r t,
     SC.findNearestNav feed (newDate 2019 0 1) = Some r /\
     navTime (date r) = Some t /\
     forall r' t', In r' feed -> navTime (date r') = Some t' -> t <= t').
Proof.
  assert (Hv : validTimes feed <> []) by (vm_compute; discriminate).
  split.
  - apply (proj1 (lookup_outside_range_returns_endpoint feed
                    (newDate 2026 0 1) Hv)).
    intros r t Hin Ht.
    destruct Hin as [<-|[<-|[<-|[]]]]; vm_compute in Ht; injection Ht as <-;
      vm_compute; discriminate.
  - apply (proj2 (lookup_outside_range_returns_endpoint feed
                    (newDate 2019 0 1) Hv)).
    intros r t Hin Ht.
    destruct Hin as [<-|[<-|[<-|[]]]]; vm_compute in Ht; injection Ht as <-;
      vm_compute; discriminate.
Defined.

Lemma scanSorted_prefix (T : Z) (l : list NavData) :
  forall st,
  (nearest st = None -> minDiff st = Infinity) ->
  MfApi.scanSorted T l st = fold_left (SC.scanStep T) (uptoPassed T l) st.
Proof.
  induction l as [|e l IH]; intros st Hst; [reflexivity|].
  simpl.
  change (match diffTo T e with
          | Some diff =>
              if below diff (minDiff st)
              then {| nearest := Some e; minDiff := Finite diff |}
              else st
          | None => st
          end) with (SC.scanStep T st e).
  assert (Hst' : nearest (SC.scanStep T st e) = None ->
                 minDiff (SC.scanStep T st e) = Infinity).
  { unfold SC.scanStep. destruct (diffTo T e) as [d|]; [|exact Hst].
    destruct (below d (minDiff st)); [discriminate | exact Hst]. }
  destruct (MfApi.passed T e) eqn:Hp.
  - destruct (nearest (SC.scanStep T st e)) eqn:Hn; [reflexivity|].
    exfalso. unfold MfApi.passed in Hp.
    destruct (navTime (date e)) as [t|] eqn:Ht; [|discriminate].
    assert (He : diffTo T e = Some (Z.abs (t - T)))
      by (unfold diffTo; rewrite Ht; reflexivity).
    destruct (scanStep_bound T st e _ He) as (m & Hm & _).
    rewrite (Hst' eq_refl) in Hm. discriminate.
  - simpl. apply IH. exact Hst'.
Qed.

Lemma uptoPassed_dated (T : Z) (l : list NavData) :
  (forall r, In r (uptoPassed T l) -> navTime (date r) = None) ->
  forall r, In r l -> navTime (date r) = None.
Proof.
  induction l as [|e l IH]; intros H r Hin; [contradiction|].
  simpl in H. destruct (MfApi.passed T e) eqn:Hp.
  - exfalso. unfold MfApi.passed in Hp.
    rewrite (H e (or_introl eq_refl)) in Hp. discriminate.
  - destruct Hin as [<-|Hin]; [apply H; left; reflexivity|].
    apply IH; [|exact Hin]. intros r' Hr'. apply H. right. exact Hr'.
Qed.

Lemma uptoPassed_incl (T : Z) (l : list NavData) (r : NavData) :
  In r (uptoPassed T l) -> In r l.
Proof.
  induction l as [|e l IH]; simpl; [tauto|].
  destruct (MfApi.passed T e); simpl; intros [H|H]; auto; contradiction.
Qed.

(** X4.  In whatever order the array is, the early-exit lookup of mfApi.ts
    returns what the exhaustive lookup returns on the part of the array it
    gets to see: the entries up to and including the first one dated after
    the target.  It returns [null] exactly when no record of the whole array
    has a valid date. *)
Theorem early_exit_is_exhaustive_on_seen_prefix
    (sortedNav : list NavData) (targetDate : Date) :
  MfApi.findNearestNav sortedNav targetDate =
    SC.findNearestNav (uptoPassed (getTime targetDate) sortedNav) targetDate /\
  (MfApi.findNearestNav sortedNav targetDate = None <->
   forall r, In r sortedNav -> navTime (date r) = None).
Proof.
  assert (E : MfApi.findNearestNav sortedNav targetDate =
              SC.findNearestNav (uptoPassed (getTime targetDate) sortedNav)
                targetDate).
  { unfold MfApi.findNearestNav, SC.findNearestNav.
    rewrite scanSorted_prefix by (intros _; reflexivity). reflexivity. }
  split; [exact E|]. rewrite E.
  pose proof (findNearestNav_spec
                (uptoPassed (getTime targetDate) sortedNav) targetDate) as H.
  destruct (SC.findNearestNav (uptoPassed (getTime targetDate) sortedNav)
              targetDate) as [r|].
  - destruct H as (d & Hin & Hd & _). split; [discriminate|].
    intros Hnone. exfalso. apply uptoPassed_incl in Hin.
    unfold distance, diffTo in Hd. rewrite (Hnone r Hin) in Hd. discriminate.
  - split; [|reflexivity]. intros _.
    apply (uptoPassed_dated (getTime targetDate)). exact H.
Qed.

(** ** PastAnalysis: totals, schedule and breakdown *)



(** ** The calendar of the monthly loop *)

Lemma daysInMonth_ge (leap : bool) (m : Z) : 28 <= daysInMonth leap m.
Proof.
  unfold daysInMonth.
  repeat (match goal with
          | |- context [match ?x with _ => _ end] => destruct x
          end; cbv iota; try lia).
Qed.

Lemma firstDay_succ (i : Z) :
  firstDay (i + 1) = firstDay i + daysInMonth (inLeapYear (i / 12)) (i mod 12).
Proof.
  unfold firstDay.
  assert (Hm : 0 <= i mod 12 < 12) by (apply Z.mod_pos_bound; lia).
  assert (Hi : i = 12 * (i / 12) + i mod 12) by (apply Z.div_mod; lia).
  set (y := i / 12) in *. set (m := i mod 12) in *.
  assert (Hc : m = 0 \/ m = 1 \/ m = 2 \/ m = 3 \/ m = 4 \/ m = 5 \/ m = 6 \/
               m = 7 \/ m = 8 \/ m = 9 \/ m = 10 \/ m = 11) by lia.
  assert (Hd : m < 11 -> (i + 1) / 12 = y /\ (i + 1) mod 12 = m + 1).
  { intros Hlt. split.
    - symmetry. apply (Z.div_unique (i + 1) 12 y (m + 1)); lia.
    - symmetry. apply (Z.mod_unique (i + 1) 12 y (m + 1)); lia. }
  assert (He : m = 11 -> (i + 1) / 12 = y + 1 /\ (i + 1) mod 12 = 0).
  { intros Heq. split.
    - symmetry. apply (Z.div_unique (i + 1) 12 (y + 1) 0); lia.
    - symmetry. apply (Z.mod_unique (i + 1) 12 (y + 1) 0); lia. }
  clearbody y m.
  repeat (destruct Hc as [Hc | Hc]);
    try (destruct Hd as [-> ->]; [lia|]; subst m;
         destruct (inLeapYear y); cbn [monthStart daysInMonth Z.add Pos.add Pos.succ];
         lia).
  destruct (He Hc) as [-> ->]. subst m. rewrite dayFromYear_succ.
  destruct (inLeapYear y); destruct (inLeapYear (y + 1));
    cbn [monthStart daysInMonth]; lia.
Qed.

Lemma firstDay_add (k : nat) (i : Z) :
  firstDay i + 28 * Z.of_nat k <= firstDay (i + Z.of_nat k).
Proof.
  induction k as [|k IH].
  - replace (i + Z.of_nat 0) with i by lia. lia.
  - rewrite Nat2Z.inj_succ. unfold Z.succ. rewrite Z.add_assoc, firstDay_succ.
    pose proof (daysInMonth_ge (inLeapYear ((i + Z.of_nat k) / 12))
                  ((i + Z.of_nat k) mod 12)).
    lia.
Qed.

Lemma firstDay_le (i j : Z) : i <= j -> firstDay i + 28 * (j - i) <= firstDay j.
Proof.
  intros Hle. pose proof (firstDay_add (Z.to_nat (j - i)) i) as H.
  rewrite Z2Nat.id in H by lia. replace (i + (j - i)) with j in H by lia.
  exact H.
Qed.

Lemma firstDay_lt (i j : Z) :
  i < j -> firstDay i + daysInMonth (inLeapYear (i / 12)) (i mod 12) <= firstDay j.
Proof.
  intros Hlt. pose proof (firstDay_le (i + 1) j) as H.
  rewrite firstDay_succ in H. lia.
Qed.

Lemma getTime_monthFirst (i : Z) : getTime (monthFirst i) = firstDay i * msPerDay.
Proof.
  unfold getTime, monthFirst, makeDay, firstDay.
  cbn [fullYear monthIdx dayOfMonth msOfDay].
  assert (Hm : 0 <= i mod 12 < 12) by (apply Z.mod_pos_bound; lia).
  rewrite (Z.div_small (i mod 12) 12) by lia.
  rewrite (Z.mod_small (i mod 12) 12) by lia.
  rewrite !Z.add_0_r. f_equal. lia.
Qed.

Lemma getTime_valid (d : Date) :
  validDate d ->
  getTime d =
    (firstDay (monthNumber d) + dayOfMonth d - 1) * msPerDay + msOfDay d /\
  monthNumber d / 12 = fullYear d /\ monthNumber d mod 12 = monthIdx d.
Proof.
  intros (Hm & _ & _). unfold monthNumber.
  assert (Hq : (12 * fullYear d + monthIdx d) / 12 = fullYear d)
    by (symmetry; apply (Z.div_unique _ 12 _ (monthIdx d)); lia).
  assert (Hr : (12 * fullYear d + monthIdx d) mod 12 = monthIdx d)
    by (symmetry; apply (Z.mod_unique _ 12 (fullYear d) _); lia).
  split; [|split; assumption].
  unfold getTime, makeDay, firstDay. rewrite Hq, Hr.
  rewrite (Z.div_small (monthIdx d) 12) by lia.
  rewrite (Z.mod_small (monthIdx d) 12) by lia.
  rewrite Z.add_0_r. reflexivity.
Qed.

(** A first of the month is not after [now] exactly when its month is not
    after the month of [now]. *)
Lemma monthFirst_running (now : Date) (i : Z) :
  validDate now ->
  (getTime (monthFirst i) <=? getTime now) = (i <=? monthNumber now).
Proof.
  intros Hv. destruct (getTime_valid now Hv) as (Ht & Hq & Hr).
  destruct Hv as (Hm & Hd & Hms).
  rewrite getTime_monthFirst, Ht. unfold msPerDay in *.
  destruct (i <=? monthNumber now) eqn:E.
  - apply Z.leb_le in E. apply Z.leb_le.
    pose proof (firstDay_le i (monthNumber now) E). nia.
  - apply Z.leb_gt in E. apply Z.leb_gt.
    pose proof (firstDay_lt (monthNumber now) i E) as H.
    rewrite Hq, Hr in H. nia.
Qed.

Lemma setMonth_monthFirst (i : Z) :
  setMonth (monthFirst i) (monthIdx (monthFirst i) + 1) = monthFirst (i + 1).
Proof.
  unfold setMonth, monthFirst, normalize.
  cbn [fullYear monthIdx dayOfMonth msOfDay].
  match goal with
  | |- context [daysInMonth ?l ?m] => pose proof (daysInMonth_ge l m) as Hlen
  end.
  match goal with
  | |- context [1 >? ?len] =>
      replace (1 >? len) with false
        by (symmetry; rewrite Z.gtb_ltb; apply Z.ltb_ge; lia)
  end.
  assert (Hm : 0 <= i mod 12 < 12) by (apply Z.mod_pos_bound; lia).
  f_equal; lia.
Qed.

Lemma newDate_monthFirst (y m : Z) :
  100 <= y -> newDate y m 1 = monthFirst (12 * y + m).
Proof.
  intros Hy. unfold newDate, normalize, monthFirst.
  replace ((0 <=? y) && (y <=? 99)) with false
    by (symmetry; apply andb_false_iff; right; apply Z.leb_gt; lia).
  cbn [fullYear monthIdx dayOfMonth msOfDay].
  match goal with
  | |- context [daysInMonth ?l ?mm] => pose proof (daysInMonth_ge l mm) as Hlen
  end.
  match goal with
  | |- context [1 >? ?len] =>
      replace (1 >? len) with false
        by (symmetry; rewrite Z.gtb_ltb; apply Z.ltb_ge; lia)
  end.
  f_equal; lia.
Qed.

Section MonthlySchedule.

Variables (now : Date) (navData : list NavData) (ty : SC.InvestmentType).
Variables (amount stepUpPercent : num) (selectedYear selectedMonth : Z).

Hypothesis now_valid : validDate now.

Lemma schedule_months (fuel : nat) :
  forall i st,
  SC.Loop.currentDate st = monthFirst i ->
  (Z.to_nat (monthNumber now - i + 1) <= fuel)%nat ->
  map fst (SC.schedule now navData ty amount stepUpPercent selectedYear
             selectedMonth fuel st)
  = map (fun k => monthFirst (i + Z.of_nat k))
      (seq 0 (Z.to_nat (monthNumber now - i + 1))).
Proof.
  induction fuel as [|fuel IH]; intros i st Hcur Hfuel; cbn [SC.schedule].
  - replace (Z.to_nat (monthNumber now - i + 1)) with 0%nat by lia. reflexivity.
  - unfold SC.running, SC.endDate. rewrite Hcur, monthFirst_running by exact now_valid.
    destruct (i <=? monthNumber now) eqn:E.
    + apply Z.leb_le in E.
      replace (Z.to_nat (monthNumber now - i + 1))
        with (S (Z.to_nat (monthNumber now - (i + 1) + 1))) in * by lia.
      cbn [map seq fst]. rewrite Z.add_0_r. f_equal.
      rewrite <- seq_shift, map_map.
      rewrite (IH (i + 1)).
      * apply map_ext. intros k. f_equal. lia.
      * rewrite body_currentDate, Hcur. apply setMonth_monthFirst.
      * lia.
    + apply Z.leb_gt in E.
      replace (Z.to_nat (monthNumber now - i + 1)) with 0%nat by lia. reflexivity.
Qed.

Lemma turns_enough (i : Z) :
  SC.startDate selectedYear selectedMonth = monthFirst i ->
  (Z.to_nat (monthNumber now - i + 1) <= SC.turns now selectedYear selectedMonth)%nat.
Proof.
  intros Hs. unfold SC.turns, SC.endDate. rewrite Hs, getTime_monthFirst.
  destruct (getTime_valid now now_valid) as (Ht & _ & _). rewrite Ht.
  destruct now_valid as (_ & Hd & Hms). unfold msPerDay in *.
  destruct (Z.le_gt_cases i (monthNumber now)) as [Hle|Hgt]; [|lia].
  pose proof (firstDay_le i (monthNumber now) Hle) as Hf.
  assert (Hq : monthNumber now - i <=
               ((firstDay (monthNumber now) + dayOfMonth now - 1) * 86400000
                + msOfDay now - firstDay i * 86400000) / (28 * 86400000)).
  { apply Z.div_le_lower_bound; [lia|]. nia. }
  lia.
Qed.

End MonthlySchedule.

(** X9.  The monthly loop of the schedule mode has one event on the first
    day of every calendar month from the selected start month through the
    month of today, in order; it has no event when the start month is after
    the current month.  This holds whatever the series and the amounts. *)
Theorem schedule_is_first_of_each_month
    (now : Date) (navData : list NavData) (ty : SC.InvestmentType)
    (amount stepUpPercent : num) (selectedYear selectedMonth : Z) :
  validDate now ->
  100 <= selectedYear ->
  1 <= selectedMonth <= 12 ->
  map fst (SC.events now navData ty amount stepUpPercent selectedYear
             selectedMonth)
  = map (fun k => newDate selectedYear (selectedMonth - 1 + Z.of_nat k) 1)
      (seq 0 (monthsThrough now selectedYear selectedMonth)).
Proof.
  intros Hnow Hy Hm. unfold SC.events, monthsThrough.
  assert (Hs : SC.startDate selectedYear selectedMonth
               = monthFirst (12 * selectedYear + selectedMonth - 1)).
  { unfold SC.startDate. rewrite newDate_monthFirst by exact Hy. f_equal. lia. }
  rewrite (schedule_months now navData ty amount stepUpPercent selectedYear
             selectedMonth Hnow _ (12 * selectedYear + selectedMonth - 1)).
  - apply map_ext. intros k. rewrite newDate_monthFirst by exact Hy.
    f_equal. lia.
  - exact Hs.
  - apply turns_enough; assumption.
Qed.

Lemma schedule_is_first_of_each_month_witness :
  validDate aNow /\
  map fst (SC.events aNow feed SC.stepup (ofZ 5000) (ofZ 10) 2024 1)
  = map (fun k => newDate 2024 (1 - 1 + Z.of_nat k) 1)
      (seq 0 (monthsThrough aNow 2024 1)).
Proof.
  assert (H1 : validDate aNow) by (vm_compute; intuition discriminate).
  assert (H2 : 100 <= 2024) by lia.
  assert (H3 : 1 <= 1 <= 12) by lia.
  exact (conj H1 (schedule_is_first_of_each_month aNow feed SC.stepup (ofZ 5000)
                    (ofZ 10) 2024 1 H1 H2 H3)).
Defined.

Lemma add_ofZ (a b : Z) : add (ofZ a) (ofZ b) = ofZ (a + b).
Proof.
  unfold ofZ. cbn [add]. apply f_equal. apply Qc_is_canon.
  rewrite Qc_this_add. cbn [this Q2Qc]. rewrite !Qred_correct.
  rewrite inject_Z_plus. reflexivity.
Qed.

Lemma sumLeft_repeat_ofZ (z : Z) (n : nat) :
  forall acc : Z,
  fold_left add (repeat (ofZ z) n) (ofZ acc) = ofZ (acc + z * Z.of_nat n).
Proof.
  induction n as [|n IH]; intros acc; cbn [repeat fold_left].
  - f_equal. lia.
  - rewrite add_ofZ, IH. f_equal. lia.
Qed.

Section RegularSchedule.

Variables (now : Date) (navData : list NavData).
Variables (amount stepUpPercent : num) (selectedYear selectedMonth : Z).

(** In the regular mode the amount never changes. *)
Lemma sip_schedule_amounts (fuel : nat) :
  forall st,
  SC.Loop.currentAmount st = amount ->
  forall e,
  In e (SC.schedule now navData SC.sip amount stepUpPercent selectedYear
          selectedMonth fuel st) ->
  snd e = amount.
Proof.
  induction fuel as [|fuel IH]; intros st Hst e Hin; cbn [SC.schedule] in Hin.
  - contradiction.
  - destruct (SC.running now st); [|contradiction].
    destruct Hin as [<-|Hin].
    + cbn [snd]. unfold SC.stepUp. cbn [fst]. exact Hst.
    + apply (IH (SC.body navData SC.sip amount stepUpPercent selectedYear
                   selectedMonth st)); [|exact Hin].
      destruct (body_amount navData SC.sip amount stepUpPercent selectedYear
                  selectedMonth st) as [-> _].
      unfold SC.stepUp. cbn [fst]. exact Hst.
Qed.

End RegularSchedule.

Lemma map_all_repeat {A B : Type} (f : A -> B) (b : B) (l : list A) :
  (forall x, In x l -> f x = b) -> map f l = repeat b (List.length l).
Proof.
  induction l as [|x l IH]; intros H; [reflexivity|].
  cbn [map List.length repeat]. rewrite (H x) by (left; reflexivity).
  rewrite IH by (intros y Hy; apply H; right; exact Hy). reflexivity.
Qed.



(** ** PastAnalysis: the one-time breakdown *)

Lemma sumNums_zeros {A : Type} (l : list A) :
  sumNums (map (fun _ => zero) l) = zero.
Proof.
  induction l as [|x l IH]; [reflexivity|].
  cbn [map]. unfold sumNums. cbn [fold_right]. fold (sumNums (map (fun _ : A => zero) l)).
  rewrite IH. reflexivity.
Qed.

(** Of the years [first .. last] only the first is [first]. *)
Lemma sumNums_first_year (first last : Z) (x : num) :
  first <= last ->
  sumNums (map (fun yr => if yr =? first then x else zero)
             (SC.yearsFrom first last)) = x.
Proof.
  intros Hle. unfold SC.yearsFrom.
  replace (Z.to_nat (last - first + 1)) with (S (Z.to_nat (last - first))) by lia.
  cbn [seq map]. rewrite Z.add_0_r, Z.eqb_refl.
  unfold sumNums. cbn [fold_right].
  match goal with
  | |- add x ?rest = x => replace rest with zero; [apply add_zero_r|]
  end.
  symmetry. rewrite <- seq_shift, !map_map.
  transitivity (sumNums (map (fun _ : nat => zero)
                           (seq 0 (Z.to_nat (last - first)))));
    [|apply sumNums_zeros].
  unfold sumNums. f_equal. apply map_ext. intros k.
  replace (first + Z.of_nat (S k) =? first) with false
    by (symmetry; apply Z.eqb_neq; lia).
  reflexivity.
Qed.

Lemma yearsFrom_last (first last : Z) :
  first <= last ->
  SC.yearsFrom first last = SC.yearsFrom first (last - 1) ++ [last].
Proof.
  intros Hle. unfold SC.yearsFrom.
  replace (Z.to_nat (last - first + 1))
    with (Z.to_nat (last - 1 - first + 1) + 1)%nat by lia.
  rewrite seq_app, map_app. cbn [seq map Nat.add]. f_equal. f_equal. lia.
Qed.

(** X12.  The one-time mode, when it returns a result, gives one year slice
    for every calendar year from the purchase year through the current year,
    each carrying the amount as cumulativeInvested and the units bought as
    cumulativeUnits.  When the purchase year is not after the current year,
    the invested and units fields of the slices add up to totalInvested and
    totalUnits, and the last slice is the one of the current year with the
    headline value, returns and percentage. *)
Theorem lump_sum_breakdown_covers_years
    (now : Date) (navData : list NavData) (amount stepUpPercent : num)
    (selectedYear selectedMonth : Z) (res : SC.Past.t) :
  SC.pastResult now navData SC.onetime amount stepUpPercent selectedYear
    selectedMonth = Some res ->
  map SC.Row.year (SC.Past.yearlyBreakdown res)
    = SC.yearsFrom (SC.startYear selectedYear selectedMonth) (fullYear now) /\
  Forall (fun row =>
            SC.Row.cumulativeInvested row = SC.Past.totalInvested res /\
            SC.Row.cumulativeUnits row = SC.Past.totalUnits res)
    (SC.Past.yearlyBreakdown res) /\
  (SC.startYear selectedYear selectedMonth <= fullYear now ->
   sumNums (map SC.Row.invested (SC.Past.yearlyBreakdown res))
     = SC.Past.totalInvested res /\
   sumNums (map SC.Row.units (SC.Past.yearlyBreakdown res))
     = SC.Past.totalUnits res /\
   exists rows row,
     SC.Past.yearlyBreakdown res = rows ++ [row] /\
     SC.Row.year row = fullYear now /\
     SC.Row.value row = SC.Past.currentValue res /\
     SC.Row.returns row = SC.Past.returns res /\
     SC.Row.returnsPercent row = SC.Past.returnsPercentage res).
Proof.
  intros Hres. unfold SC.pastResult in Hres.
  destruct (falsy amount || (selectedYear =? 0)
            || Nat.eqb (List.length navData) 0); [discriminate|].
  unfold SC.lumpSumResult in Hres.
  destruct (SC.findNearestNav navData
              (SC.startDate selectedYear selectedMonth)) as [e|]; [|discriminate].
  cbv zeta in Hres.
  match type of Hres with
  | Some ?x = Some _ => assert (E : res = x) by congruence
  end.
  clear Hres. subst res.
  cbn [SC.Past.currentValue SC.Past.totalInvested SC.Past.totalUnits
       SC.Past.returns SC.Past.returnsPercentage SC.Past.yearlyBreakdown].
  unfold SC.endDate.
  split; [|split].
  - rewrite map_map. cbn [SC.Row.year]. apply map_id.
  - apply Forall_forall. intros row Hrow. apply in_map_iff in Hrow.
    destruct Hrow as (yr & <- & _).
    cbn [SC.Row.cumulativeInvested SC.Row.cumulativeUnits].
    split; reflexivity.
  - intros Hle. rewrite !map_map.
    cbn [SC.Row.invested SC.Row.units].
    split; [apply sumNums_first_year; exact Hle|].
    split; [apply sumNums_first_year; exact Hle|].
    rewrite (yearsFrom_last _ _ Hle), map_app. cbn [map].
    eexists. eexists. split; [reflexivity|].
    cbn [SC.Row.year SC.Row.value SC.Row.returns SC.Row.returnsPercent].
    unfold SC.endYearNavOf. rewrite Z.ltb_irrefl.
    repeat split.
Qed.

Lemma lump_sum_breakdown_covers_years_witness :
  exists res,
    SC.pastResult aNow feed SC.onetime (ofZ 10000) (ofZ 10) 2024 1 = Some res /\
    map SC.Row.year (SC.Past.yearlyBreakdown res)
      = SC.yearsFrom (SC.startYear 2024 1) (fullYear aNow) /\
    sumNums (map SC.Row.invested (SC.Past.yearlyBreakdown res))
      = SC.Past.totalInvested res.
Proof.
  destruct (SC.pastResult aNow feed SC.onetime (ofZ 10000) (ofZ 10) 2024 1)
    as [res|] eqn:Hres; [|vm_compute in Hres; discriminate].
  assert (Hle : SC.startYear 2024 1 <= fullYear aNow)
    by (vm_compute; discriminate).
  pose proof (lump_sum_breakdown_covers_years aNow feed (ofZ 10000) (ofZ 10)
                2024 1 res Hres) as (Hy & _ & Hs).
  pose proof (Hs Hle) as (Hi & _).
  exists res. exact (conj eq_refl (conj Hy Hi)).
Defined.

(** ** PastAnalysis: the date string of the selection *)

Lemma digitOf_digitChar (d : Z) : 0 <= d < 10 -> digitOf (digitChar d) = Some d.
Proof.
  intros Hd.
  assert (Hc : d = 0 \/ d = 1 \/ d = 2 \/ d = 3 \/ d = 4 \/ d = 5 \/ d = 6 \/
               d = 7 \/ d = 8 \/ d = 9) by lia.
  repeat (destruct Hc as [-> | Hc]; [reflexivity|]). subst d. reflexivity.
Qed.

(** Reading the digits that [digitsOf] writes gives the number back. *)
Lemma digitsValue_digitsOf (fuel : nat) :
  forall n s,
  0 <= n < 10 ^ Z.of_nat fuel ->
  exists k, forall acc,
    digitsValue acc (digitsOf fuel n s) = digitsValue (acc * 10 ^ k + n) s /\
    0 <= k.
Proof.
  induction fuel as [|fuel IH]; intros n s Hn.
  - exists 0. intros acc. cbn [digitsOf]. split; [|lia].
    f_equal. change (10 ^ Z.of_nat 0) with 1 in Hn. lia.
  - cbn [digitsOf].
    assert (Hd : 0 <= n mod 10 < 10) by (apply Z.mod_pos_bound; lia).
    destruct (n <? 10) eqn:E.
    + apply Z.ltb_lt in E. exists 1. intros acc. cbn [digitsValue].
      rewrite (digitOf_digitChar _ Hd). rewrite Z.mod_small by lia.
      split; [f_equal; lia | lia].
    + apply Z.ltb_ge in E.
      rewrite Nat2Z.inj_succ, Z.pow_succ_r in Hn by lia.
      destruct (IH (n / 10) (String (digitChar (n mod 10)) s)) as (k & Hk).
      { split; [apply Z.div_pos; lia|]. apply Z.div_lt_upper_bound; lia. }
      exists (k + 1). intros acc. destruct (Hk acc) as [Hv Hk0].
      rewrite Hv. cbn [digitsValue]. rewrite (digitOf_digitChar _ Hd).
      split; [|lia]. f_equal. rewrite Z.pow_add_r by lia.
      pose proof (Z.div_mod n 10). lia.
Qed.

Lemma toNumber_numberToString (n : Z) :
  0 <= n -> toNumber (numberToString n) = Some n.
Proof.
  intros Hn. unfold numberToString, toNumber.
  replace (n <? 0) with false by (symmetry; apply Z.ltb_ge; lia).
  destruct (digitsValue_digitsOf (S (Z.to_nat (Z.log2 n))) n EmptyString)
    as (k & Hk).
  - split; [exact Hn|].
    destruct (Z.eq_dec n 0) as [->|Hnz]; [reflexivity|].
    rewrite Nat2Z.inj_succ, Z2Nat.id by apply Z.log2_nonneg.
    destruct (Z.log2_spec n) as [_ Hup]; [lia|].
    apply (Z.lt_le_trans _ _ _ Hup).
    apply Z.pow_le_mono_l. pose proof (Z.log2_nonneg n). lia.
  - destruct (Hk 0) as [Hv _]. rewrite Hv. cbn [digitsValue]. reflexivity.
Qed.

Lemma toNumber_fillStart (n : nat) (s : string) :
  toNumber (fillStart n "0" s) = toNumber s.
Proof.
  unfold toNumber. induction n as [|n IH]; [reflexivity|].
  cbn [fillStart digitsValue]. exact IH.
Qed.

(** A run of digits has no separator in it. *)
Lemma splitOn_digits (s : string) :
  forall acc v,
  digitsValue acc s = Some v ->
  splitOn "-" s = [s] /\
  forall t, splitOn "-" (String.append s (String "-" t)) = s :: splitOn "-" t.
Proof.
  induction s as [|c s IH]; intros acc v Hv.
  - split; [reflexivity|]. intros t. reflexivity.
  - cbn [digitsValue] in Hv.
    destruct (digitOf c) as [d|] eqn:Hd; [|discriminate].
    assert (Hc : Ascii.eqb c "-" = false).
    { destruct (Ascii.eqb c "-") eqn:E; [|reflexivity].
      apply Ascii.eqb_eq in E. subst c. vm_compute in Hd. discriminate. }
    destruct (IH _ _ Hv) as [H1 H2].
    split.
    + cbn [splitOn]. rewrite Hc, H1. reflexivity.
    + intros t. cbn [String.append splitOn]. rewrite Hc, H2. reflexivity.
Qed.

(** X14.  The date string of the selection carries the selection unchanged:
    for a selected year above 0 and a month that is not negative, splitting
    the string at the hyphen and reading the fields as numbers gives the
    year and the month back; the string is empty, which the guard of the
    result reads as no selection, exactly when the selected year is 0. *)
Theorem selected_date_string_round_trip (selectedYear selectedMonth : Z) :
  0 <= selectedYear ->
  0 <= selectedMonth ->
  (selectedFromDate selectedYear selectedMonth = EmptyString <->
   selectedYear = 0) /\
  (selectedYear <> 0 ->
   dateFields (selectedFromDate selectedYear selectedMonth)
     = [Some selectedYear; Some selectedMonth]).
Proof.
  intros Hy Hm.
  pose proof (toNumber_numberToString selectedYear Hy) as Hyear.
  pose proof (toNumber_numberToString selectedMonth Hm) as Hmonth.
  assert (Hpad : toNumber (padStart 2 "0" (numberToString selectedMonth))
                 = Some selectedMonth).
  { unfold padStart. rewrite toNumber_fillStart. exact Hmonth. }
  unfold selectedFromDate, dateFields.
  destruct (selectedYear =? 0) eqn:E.
  - apply Z.eqb_eq in E. split; [tauto | contradiction].
  - apply Z.eqb_neq in E. split.
    + split; [|contradiction]. intros Hempty. exfalso.
      destruct (numberToString selectedYear); discriminate.
    + intros _.
      destruct (splitOn_digits _ _ _ Hyear) as [_ Hsplit].
      destruct (splitOn_digits _ _ _ Hpad) as [Hlast _].
      rewrite Hsplit, Hlast. cbn [map]. rewrite Hyear, Hpad. reflexivity.
Qed.

Lemma selected_date_string_round_trip_witness :
  dateFields (selectedFromDate 2024 3) = [Some 2024; Some 3].
Proof.
  assert (H1 : 0 <= 2024) by lia.
  assert (H2 : 0 <= 3) by lia.
  assert (H3 : 2024 <> 0) by lia.
  exact (proj2 (selected_date_string_round_trip 2024 3 H1 H2) H3).
Defined.

Example selected_date_string_sample : selectedFromDate 2024 3 = "2024-03"%string.
Proof. reflexivity. Qed.

(** ** NavChart: the window of the chart *)

Lemma getTime_setMonth (d : Date) (m : Z) :
  getTime (setMonth d m) =
  (firstDay (12 * fullYear d + m) + dayOfMonth d - 1) * msPerDay + msOfDay d.
Proof.
  unfold setMonth.
  assert (Hm : 0 <= m mod 12 < 12) by (apply Z.mod_pos_bound; lia).
  rewrite getTime_normalize by (cbn [monthIdx]; lia).
  unfold getTime, makeDay, firstDay.
  cbn [fullYear monthIdx dayOfMonth msOfDay].
  rewrite (Z.div_small (m mod 12) 12) by lia.
  rewrite (Z.mod_small (m mod 12) 12) by lia.
  rewrite Z.add_0_r.
  replace ((12 * fullYear d + m) / 12) with (fullYear d + m / 12)
    by (apply (Z.div_unique _ 12 _ (m mod 12)); [lia|];
        pose proof (Z.div_mod m 12); lia).
  replace ((12 * fullYear d + m) mod 12) with (m mod 12)
    by (apply (Z.mod_unique _ 12 (fullYear d + m / 12)); [lia|];
        pose proof (Z.div_mod m 12); lia).
  reflexivity.
Qed.

(** Going back further gives an earlier cutoff. *)
Lemma cutoff_monotone (now : Date) (k1 k2 : Z) :
  k1 <= k2 ->
  getTime (Chart.cutoffDate now k2) <= getTime (Chart.cutoffDate now k1).
Proof.
  intros Hk. unfold Chart.cutoffDate. rewrite !getTime_setMonth.
  pose proof (firstDay_le (12 * fullYear now + (monthIdx now - k2))
                (12 * fullYear now + (monthIdx now - k1))) as H.
  unfold msPerDay. nia.
Qed.

(** X15.  The window of the chart: a longer period shows every item that a
    shorter one shows, every period shows items of the feed only, each of
    them validly dated at or after the cutoff of the period, and ALL shows
    the whole feed. *)
Theorem longer_window_shows_more
    (now : Date) (data : list NavData) (p q : NavChart.TimePeriod)
    (shorter longer : Z) :
  NavChart.periodMonths p = Some shorter ->
  NavChart.periodMonths q = Some longer ->
  shorter <= longer ->
  (forall item, In item (Chart.filteredData now data p) ->
                In item (Chart.filteredData now data q)) /\
  (forall item, In item (Chart.filteredData now data q) ->
     In item data /\
     exists t, navTime (date item) = Some t /\
               getTime (Chart.cutoffDate now longer) <= t) /\
  Chart.filteredData now data NavChart.ALL = data.
Proof.
  intros Hp Hq Hle. unfold Chart.filteredData. rewrite Hp, Hq.
  destruct data as [|first rest];
    [split; [intros item []|split; [intros item []|reflexivity]]|].
  set (l := first :: rest). cbn [NavChart.periodMonths].
  split; [|split; [|reflexivity]].
  - intros item Hin. apply filter_In in Hin. destruct Hin as [Hin Hw].
    apply filter_In. split; [exact Hin|].
    unfold Chart.inWindow in *.
    destruct (navTime (date item)) as [t|]; [|discriminate].
    apply Z.leb_le in Hw. apply Z.leb_le.
    pose proof (cutoff_monotone now shorter longer Hle). lia.
  - intros item Hin. apply filter_In in Hin. destruct Hin as [Hin Hw].
    split; [exact Hin|]. unfold Chart.inWindow in Hw.
    destruct (navTime (date item)) as [t|]; [|discriminate].
    exists t. split; [reflexivity|]. apply Z.leb_le. exact Hw.
Qed.

Lemma longer_window_shows_more_witness :
  In day9 (Chart.filteredData (newDate 2020 1 1) feed NavChart.P1M) /\
  In day9 (Chart.filteredData (newDate 2020 1 1) feed NavChart.P1Y).
Proof.
  assert (H1 : NavChart.periodMonths NavChart.P1M = Some 1) by reflexivity.
  assert (H2 : NavChart.periodMonths NavChart.P1Y = Some 12) by reflexivity.
  assert (H3 : 1 <= 12) by lia.
  assert (H4 : In day9 (Chart.filteredData (newDate 2020 1 1) feed NavChart.P1M))
    by (left; reflexivity).
  exact (conj H4 (proj1 (longer_window_shows_more (newDate 2020 1 1) feed
                           NavChart.P1M NavChart.P1Y 1 12 H1 H2 H3) day9 H4)).
Defined.

(** ** NavChart: sampling *)

(** The multiples of [s] below [n] are [(n + s - 1) / s] in number. *)
Lemma ceil_succ (s n : nat) :
  s <> 0%nat ->
  ((S n + s - 1) / s = (n + s - 1) / s + (if Nat.eqb (n mod s) 0 then 1 else 0))%nat.
Proof.
  intros Hs. pose proof (Nat.div_mod_eq n s) as Hn.
  pose proof (Nat.mod_upper_bound n s Hs) as Hr.
  set (q := (n / s)%nat) in *. set (r := (n mod s)%nat) in *.
  destruct (Nat.eqb r 0) eqn:E.
  - apply Nat.eqb_eq in E.
    rewrite <- (Nat.div_unique (S n + s - 1) s (S q) 0) by nia.
    rewrite <- (Nat.div_unique (n + s - 1) s q (s - 1)) by nia.
    lia.
  - apply Nat.eqb_neq in E.
    rewrite <- (Nat.div_unique (S n + s - 1) s (S q) r) by nia.
    rewrite <- (Nat.div_unique (n + s - 1) s (S q) (r - 1)) by nia.
    lia.
Qed.

Lemma filterIndexed_length {A : Type} (s : nat) (l : list A) :
  s <> 0%nat ->
  forall i,
  (List.length (Chart.filterIndexed (fun i => Nat.eqb (i mod s) 0) i l)
   + (i + s - 1) / s = (i + List.length l + s - 1) / s)%nat.
Proof.
  intros Hs. induction l as [|x l IH]; intros i.
  - cbn [Chart.filterIndexed List.length]. rewrite Nat.add_0_r. reflexivity.
  - cbn [Chart.filterIndexed List.length].
    pose proof (ceil_succ s i Hs) as Hc. pose proof (IH (S i)) as Hl.
    replace (i + S (List.length l))%nat with (S i + List.length l)%nat by lia.
    destruct (Nat.eqb (i mod s) 0); cbn [List.length]; lia.
Qed.

Lemma filterIndexed_incl {A : Type} (keep : nat -> bool) (l : list A) :
  forall i x, In x (Chart.filterIndexed keep i l) -> In x l.
Proof.
  induction l as [|y l IH]; intros i x Hin; [contradiction|].
  cbn [Chart.filterIndexed] in Hin. destruct (keep i).
  - destruct Hin as [<-|Hin]; [left; reflexivity | right; apply (IH _ _ Hin)].
  - right. apply (IH _ _ Hin).
Qed.

Lemma sampled_incl (filteredData : list NavData) (item : NavData) :
  In item (Chart.sampled filteredData) -> In item filteredData.
Proof.
  unfold Chart.sampled.
  destruct (365 <? List.length (rev filteredData))%nat; intros Hin.
  - apply filterIndexed_incl in Hin. apply in_rev. exact Hin.
  - apply in_rev. exact Hin.
Qed.

(** X16.  The chart never plots more than 365 items.  A window of at most
    365 items is plotted whole, oldest first; a longer one is thinned to
    between 183 and 365 of its items, and the oldest item of the window is
    always the first one plotted. *)
Theorem chart_plots_at_most_365_items (filteredData : list NavData) :
  (List.length (Chart.sampled filteredData) <= 365)%nat /\
  (forall item, In item (Chart.sampled filteredData) -> In item filteredData) /\
  ((List.length filteredData <= 365)%nat ->
   Chart.sampled filteredData = rev filteredData) /\
  ((365 < List.length filteredData)%nat ->
   (183 <= List.length (Chart.sampled filteredData))%nat) /\
  hd_error (Chart.sampled filteredData) = hd_error (rev filteredData).
Proof.
  unfold Chart.sampled. rewrite length_rev.
  set (n := List.length filteredData).
  destruct (365 <? n)%nat eqn:E.
  - apply Nat.ltb_lt in E.
    assert (Hstep : (2 <= Chart.stepOf n)%nat).
    { unfold Chart.stepOf. apply Nat.div_le_lower_bound; lia. }
    assert (Hup : (n <= 365 * Chart.stepOf n)%nat).
    { unfold Chart.stepOf. pose proof (Nat.div_mod_eq (n + 364) 365) as Hd.
      pose proof (Nat.mod_upper_bound (n + 364) 365). lia. }
    assert (Hdown : (365 * Chart.stepOf n <= n + 364)%nat).
    { unfold Chart.stepOf. apply Nat.Div0.mul_div_le. }
    pose proof (filterIndexed_length (Chart.stepOf n) (rev filteredData)
                  (ltac:(lia)) 0%nat) as Hlen.
    rewrite length_rev in Hlen. fold n in Hlen.
    rewrite (Nat.div_small (0 + Chart.stepOf n - 1)) in Hlen by lia.
    rewrite Nat.add_0_r in Hlen. cbn [Nat.add] in Hlen. rewrite Hlen.
    split; [|split; [|split; [|split]]].
    + assert ((n + Chart.stepOf n - 1) / Chart.stepOf n < 366)%nat; [|lia].
      apply Nat.Div0.div_lt_upper_bound. lia.
    + intros item Hin. apply filterIndexed_incl in Hin.
      apply in_rev. exact Hin.
    + lia.
    + intros _. apply Nat.div_le_lower_bound; [lia|].
      pose proof (Nat.Div0.mul_div_le (n + Chart.stepOf n - 1) (Chart.stepOf n)).
      nia.
    + destruct (rev filteredData) as [|x l]; [reflexivity|].
      cbn [Chart.filterIndexed]. rewrite Nat.Div0.mod_0_l. reflexivity.
  - apply Nat.ltb_ge in E. rewrite length_rev.
    split; [exact E|]. split; [intros item Hin; apply in_rev; exact Hin|].
    split; [reflexivity|]. split; [lia | reflexivity].
Qed.

Lemma chart_plots_at_most_365_items_witness :
  (183 <= List.length (Chart.sampled (repeat day1 366)))%nat /\
  (List.length (Chart.sampled (repeat day1 366)) <= 365)%nat.
Proof.
  pose proof (chart_plots_at_most_365_items (repeat day1 366))
    as (H1 & _ & _ & H4 & _).
  assert (H : (365 < List.length (repeat day1 366))%nat)
    by (rewrite repeat_length; lia).
  exact (conj (H4 H) H1).
Defined.

(** ** NavChart: the returns of the periods *)

Lemma closest_is_lookup (now : Date) (data : list NavData) (months : Z) :
  nearest (fold_left
             (NavChart.closestStep
                (getTime (setMonth now (monthIdx now - months)))) data scanInit)
  = SC.findNearestNav data (setMonth now (monthIdx now - months)).
Proof. reflexivity. Qed.

Lemma startNav_exists (now : Date) (data : list NavData)
    (p : NavChart.TimePeriod) :
  validTimes data <> [] ->
  exists start, NavChart.startNavOf now data p = Some start.
Proof.
  intros Hv. unfold NavChart.startNavOf.
  destruct (NavChart.periodMonths p) as [months|].
  - rewrite closest_is_lookup.
    destruct (findNearestNav_some data
                (setMonth now (monthIdx now - months)) Hv) as [item ->].
    eexists. reflexivity.
  - destruct (rev data) as [|oldest l] eqn:E; [|eexists; reflexivity].
    exfalso. apply Hv. apply (f_equal (@rev NavData)) in E.
    rewrite rev_involutive in E. rewrite E. reflexivity.
Qed.

Lemma startNav_positive (now : Date) (data : list NavData)
    (p : NavChart.TimePeriod) (start : num) :
  valuesPositive data ->
  NavChart.startNavOf now data p = Some start -> positive start.
Proof.
  intros Hpos. unfold valuesPositive in Hpos. rewrite Forall_forall in Hpos.
  unfold NavChart.startNavOf.
  destruct (NavChart.periodMonths p) as [months|].
  - rewrite closest_is_lookup.
    destruct (SC.findNearestNav data (setMonth now (monthIdx now - months)))
      as [item|] eqn:Hf; [|discriminate].
    cbn [option_map]. intros [= <-]. apply Hpos.
    apply (findNearestNav_In _ _ _ Hf).
  - destruct (rev data) as [|oldest l] eqn:E; [discriminate|].
    intros [= <-]. apply Hpos. apply in_rev. rewrite E. left. reflexivity.
Qed.

(** The sign of a change in percent is the sign of the difference. *)
Lemma change_sign (l s : Qc) :
  (Q2Qc 0 < s)%Qc ->
  Qccompare ((l - s) / s * Q2Qc (inject_Z 100))%Qc (Q2Qc 0) = Qccompare l s.
Proof.
  intros Hs.
  assert (Hk : (Q2Qc 0 < / s * Q2Qc (inject_Z 100))%Qc).
  { apply Qc_pos_mul; [|reflexivity].
    unfold Qclt in *. rewrite Qc_this_inv. change (this (Q2Qc 0)) with 0%Q in *.
    apply Qinv_lt_0_compat. exact Hs. }
  assert (E : ((l - s) / s * Q2Qc (inject_Z 100)
               = (l - s) * (/ s * Q2Qc (inject_Z 100)))%Qc)
    by (unfold Qcdiv; ring).
  rewrite E. set (k := (/ s * Q2Qc (inject_Z 100))%Qc) in *.
  destruct (Qccompare l s) eqn:C.
  - apply Qceq_alt in C. subst l. apply Qceq_alt. ring.
  - apply Qclt_alt in C. apply Qclt_alt.
    replace (Q2Qc 0) with (Q2Qc 0 * k)%Qc by ring.
    apply Qcmult_lt_compat_r; [exact Hk|].
    unfold Qclt in *. unfold Qcminus. rewrite Qc_this_add.
    change (this (Q2Qc 0)) with 0%Q.
    assert (Ho : (this (- s)%Qc == - this s)%Q)
      by (unfold Qcopp, Q2Qc; cbn [this]; apply Qred_correct).
    rewrite Ho. lra.
  - apply Qcgt_alt in C. apply Qcgt_alt.
    replace (Q2Qc 0) with (Q2Qc 0 * k)%Qc by ring.
    apply Qcmult_lt_compat_r; [exact Hk|].
    unfold Qclt in *. unfold Qcminus. rewrite Qc_this_add.
    change (this (Q2Qc 0)) with 0%Q.
    assert (Ho : (this (- s)%Qc == - this s)%Q)
      by (unfold Qcopp, Q2Qc; cbn [this]; apply Qred_correct).
    rewrite Ho. lra.
Qed.

(** A positive latest value does not lose more than 100 percent. *)
Lemma change_floor (l s : Qc) :
  (Q2Qc 0 < l)%Qc -> (Q2Qc 0 < s)%Qc ->
  (Q2Qc (inject_Z (-100)) < (l - s) / s * Q2Qc (inject_Z 100))%Qc.
Proof.
  intros Hl Hs.
  assert (E : ((l - s) / s * Q2Qc (inject_Z 100)
               = l / s * Q2Qc (inject_Z 100) + Q2Qc (inject_Z (-100)))%Qc).
  { assert (Hm : (Q2Qc (inject_Z (-100)) = - Q2Qc (inject_Z 100))%Qc)
      by (apply Qc_is_canon; reflexivity).
    rewrite Hm. field. apply Qc_pos_nonzero. exact Hs. }
  rewrite E.
  pose proof (Qc_pos_mul _ _ (Qc_pos_div l s Hl Hs)
                (eq_refl : (Q2Qc 0 < Q2Qc (inject_Z 100))%Qc)) as Hp.
  unfold Qclt in *. rewrite Qc_this_add.
  change (this (Q2Qc 0)) with 0%Q in Hp. lra.
Qed.

(** X17.  On a feed of positive NAVs, every period whose return is shown
    has a positive start value, its isPositive flag says exactly that the
    latest NAV is at least the start NAV, and its change is not below -100
    percent; and every period, ALL and the finite ones, has a return as soon
    as one record has a valid date. *)
Theorem period_return_sign_and_floor
    (now : Date) (data : list NavData) (p : NavChart.TimePeriod) :
  valuesPositive data ->
  (validTimes data <> [] -> NavChart.periodReturns now data p <> None) /\
  (forall r, NavChart.periodReturns now data p = Some r ->
     exists first start,
       hd_error data = Some first /\
       NavChart.startNavOf now data p = Some start /\
       positive start /\
       NavChart.isPositive r = geb (parseFloat (nav first)) start /\
       geb (NavChart.change r) (ofZ (-100)) = true).
Proof.
  intros Hpos. split.
  - intros Hv. unfold NavChart.periodReturns.
    destruct data as [|first rest]; [contradiction Hv; reflexivity|].
    destruct (startNav_exists now (first :: rest) p Hv) as [start Hs].
    rewrite Hs.
    destruct (startNav_positive now _ p start Hpos Hs) as (s & -> & Hs0).
    rewrite (gtb_positive s Hs0). discriminate.
  - intros r Hr. unfold NavChart.periodReturns in Hr.
    destruct data as [|first rest]; [discriminate|].
    destruct (NavChart.startNavOf now (first :: rest) p) as [start|] eqn:Hs;
      [|discriminate].
    pose proof (startNav_positive now _ p start Hpos Hs) as Hstart.
    destruct Hstart as (s & -> & Hs0).
    rewrite (gtb_positive s Hs0) in Hr.
    inversion Hpos as [|? ? (l & Hl & Hl0) _]; subst.
    rewrite Hl in Hr. cbn [sub] in Hr.
    rewrite (div_Fin _ s (Qc_pos_nonzero s Hs0)) in Hr.
    unfold ofZ in Hr. cbn [mul] in Hr.
    assert (E : r = {| NavChart.change :=
                         Fin ((l - s) / s * Q2Qc (inject_Z 100))%Qc;
                       NavChart.isPositive :=
                         geb (Fin ((l - s) / s * Q2Qc (inject_Z 100))%Qc) zero |})
      by congruence.
    subst r. exists first, (Fin s).
    split; [reflexivity|]. split; [reflexivity|].
    split; [exists s; split; [reflexivity | exact Hs0]|].
    cbn [NavChart.isPositive NavChart.change]. rewrite Hl. split.
    + unfold geb, cmp, zero. rewrite (change_sign l s Hs0). reflexivity.
    + unfold geb, cmp, ofZ.
      assert (C : Qccompare ((l - s) / s * Q2Qc (inject_Z 100))%Qc
                    (Q2Qc (inject_Z (-100))) = Gt)
        by (apply Qcgt_alt; apply change_floor; assumption).
      rewrite C. reflexivity.
Qed.

Lemma period_return_sign_and_floor_witness :
  exists r first start,
    NavChart.periodReturns aNow feed NavChart.P1Y = Some r /\
    hd_error feed = Some first /\
    NavChart.startNavOf aNow feed NavChart.P1Y = Some start /\
    NavChart.isPositive r = geb (parseFloat (nav first)) start.
Proof.
  destruct (NavChart.periodReturns aNow feed NavChart.P1Y) as [r|] eqn:Hr;
    [|vm_compute in Hr; discriminate].
  destruct (proj2 (period_return_sign_and_floor aNow feed NavChart.P1Y
                     valuesPositive_feed) r Hr)
    as (first & start & Hf & Hs & _ & Hp & _).
  exists r, first, start. exact (conj eq_refl (conj Hf (conj Hs Hp))).
Defined.

(** X18.  When the history does not reach back to the cutoff of a finite
    period (no record is dated before it), the return shown for that period
    is the all-time return: on a feed of validly dated records given newest
    first, one per date, the start value is that of the oldest record. *)
Theorem short_history_period_is_all_time
    (now : Date) (data : list NavData) (p : NavChart.TimePeriod) (months : Z) :
  NavChart.periodMonths p = Some months ->
  datesValid data ->
  strictlyDescending data ->
  (forall r t, In r data -> navTime (date r) = Some t ->
               getTime (Chart.cutoffDate now months) <= t) ->
  NavChart.periodReturns now data p = NavChart.periodReturns now data NavChart.ALL.
Proof.
  intros Hp Hvalid Hsorted Hshort.
  destruct data as [|first rest] eqn:Hdata; [reflexivity|].
  rewrite <- Hdata in *.
  assert (Hne : data <> []) by (rewrite Hdata; discriminate).
  destruct (exists_last Hne) as (pre & oldest & Hlast).
  assert (Hall : NavChart.startNavOf now data NavChart.ALL
                 = Some (parseFloat (nav oldest))).
  { unfold NavChart.startNavOf. cbn [NavChart.periodMonths].
    rewrite Hlast, rev_unit. reflexivity. }
  assert (Hfin : NavChart.startNavOf now data p
                 = Some (parseFloat (nav oldest))).
  { unfold NavChart.startNavOf. rewrite Hp, closest_is_lookup.
    fold (Chart.cutoffDate now months).
    set (cutoff := Chart.cutoffDate now months) in *.
    destruct (findNearestNav_some data cutoff
                (datesValid_validTimes data Hne Hvalid)) as [r Hr].
    rewrite Hr. cbn [option_map]. f_equal. f_equal. f_equal.
    pose proof (findNearestNav_spec data cutoff) as Hspec.
    rewrite Hr in Hspec. destruct Hspec as (d & Hin & Hd & Hmin).
    unfold distance, diffTo in Hd.
    destruct (navTime (date r)) as [t|] eqn:Ht; [|discriminate].
    cbn [option_map] in Hd. injection Hd as Hd.
    assert (Hino : In oldest data)
      by (rewrite Hlast; apply in_or_app; right; left; reflexivity).
    unfold datesValid in Hvalid. rewrite Forall_forall in Hvalid.
    destruct (navTime (date oldest)) as [t0|] eqn:Ht0;
      [|exfalso; apply (Hvalid oldest Hino); exact Ht0].
    assert (Hd0 : distance cutoff oldest (Z.abs (t0 - getTime cutoff)))
      by (unfold distance, diffTo; rewrite Ht0; reflexivity).
    pose proof (Hmin oldest _ Hino Hd0) as Hle.
    pose proof (Hshort r t Hin Ht) as Hc. pose proof (Hshort oldest t0 Hino Ht0) as Hc0.
    rewrite Hlast in Hin. apply in_app_or in Hin.
    destruct Hin as [Hin|[<-|[]]]; [|reflexivity].
    exfalso. unfold strictlyDescending in Hsorted.
    rewrite Hlast, validTimes_app in Hsorted.
    assert (t > t0); [|lia].
    apply (StronglySorted_app_order Z.gt _ _ Hsorted).
    - apply (validTimes_In pre r t Hin Ht).
    - apply (validTimes_In [oldest] oldest t0); [left; reflexivity | exact Ht0]. }
  unfold NavChart.periodReturns. rewrite Hdata. rewrite <- Hdata.
  rewrite Hall, Hfin. reflexivity.
Qed.

Lemma short_history_period_is_all_time_witness :
  NavChart.periodReturns (newDate 2020 1 1) feed NavChart.P5Y
  = NavChart.periodReturns (newDate 2020 1 1) feed NavChart.ALL.
Proof.
  assert (H1 : NavChart.periodMonths NavChart.P5Y = Some 60) by reflexivity.
  assert (H3 : strictlyDescending feed).
  { unfold strictlyDescending.
    change (validTimes feed)
      with [18270 * msPerDay; 18264 * msPerDay; 18262 * msPerDay].
    repeat constructor; unfold msPerDay; lia. }
  assert (H4 : forall r t, In r feed -> navTime (date r) = Some t ->
                 getTime (Chart.cutoffDate (newDate 2020 1 1) 60) <= t).
  { intros r t Hin Ht.
    destruct Hin as [<-|[<-|[<-|[]]]]; vm_compute in Ht; injection Ht as <-;
      vm_compute; discriminate. }
  exact (short_history_period_is_all_time (newDate 2020 1 1) feed NavChart.P5Y
           60 H1 datesValid_feed H3 H4).
Defined.

(** ** NavChart: the domain of the value axis *)

Lemma ltb_Fin (a b : Qc) : ltb (Fin a) (Fin b) = true <-> (a < b)%Qc.
Proof.
  unfold ltb, cmp. split.
  - destruct (Qccompare a b) eqn:E; try discriminate. intros _.
    apply Qclt_alt. exact E.
  - intros H. assert (E : Qccompare a b = Lt) by (apply Qclt_alt; exact H).
    rewrite E. reflexivity.
Qed.

Lemma gtb_Fin (a b : Qc) : gtb (Fin a) (Fin b) = true <-> (b < a)%Qc.
Proof.
  unfold gtb, cmp. split.
  - destruct (Qccompare a b) eqn:E; try discriminate. intros _.
    apply Qcgt_alt. exact E.
  - intros H. assert (E : Qccompare a b = Gt) by (apply Qcgt_alt; exact H).
    rewrite E. reflexivity.
Qed.

Lemma Qc_not_lt_le (a b : Qc) : ~ (a < b)%Qc -> (b <= a)%Qc.
Proof. apply Qcnot_lt_le. Qed.

(** The least of positive values is one of them, positive and at most
    each. *)
Lemma mathMin_least (xs : list num) :
  Forall positive xs -> xs <> [] ->
  exists m, Chart.mathMin xs = Fin m /\ (Q2Qc 0 < m)%Qc /\
            forall x, In x xs -> exists q, x = Fin q /\ (m <= q)%Qc.
Proof.
  intros Hpos Hne. rewrite Forall_forall in Hpos.
  assert (Inv : (xs = [] /\ Chart.mathMin xs = PInf) \/
                exists m, Chart.mathMin xs = Fin m /\ (Q2Qc 0 < m)%Qc /\
                  forall x, In x xs -> exists q, x = Fin q /\ (m <= q)%Qc).
  { unfold Chart.mathMin.
    apply (fold_left_invariant Chart.min2
             (fun done acc =>
                (done = [] /\ acc = PInf) \/
                exists m, acc = Fin m /\ (Q2Qc 0 < m)%Qc /\
                  forall x, In x done -> exists q, x = Fin q /\ (m <= q)%Qc)).
    - left. split; reflexivity.
    - intros done x acc Hx Hacc. right.
      destruct (Hpos x Hx) as (q & -> & Hq).
      destruct Hacc as [[-> ->]|(m & -> & Hm & Hall)].
      + exists q. split; [reflexivity|]. split; [exact Hq|].
        intros y [<-|[]]. exists q. split; [reflexivity | apply Qcle_refl].
      + unfold Chart.min2. destruct (ltb (Fin q) (Fin m)) eqn:E.
        * apply ltb_Fin in E. exists q. split; [reflexivity|].
          split; [exact Hq|]. intros y Hy. apply in_app_or in Hy.
          destruct Hy as [Hy|[<-|[]]].
          -- destruct (Hall y Hy) as (qy & -> & Hle). exists qy.
             split; [reflexivity|].
             apply (Qcle_trans _ m); [apply Qclt_le_weak; exact E | exact Hle].
          -- exists q. split; [reflexivity | apply Qcle_refl].
        * exists m. split; [reflexivity|]. split; [exact Hm|].
          intros y Hy. apply in_app_or in Hy.
          destruct Hy as [Hy|[<-|[]]]; [apply Hall; exact Hy|].
          exists q. split; [reflexivity|]. apply Qc_not_lt_le.
          intros Hlt. apply ltb_Fin in Hlt. rewrite Hlt in E. discriminate. }
  destruct Inv as [[Hnil _]|H]; [contradiction | exact H].
Qed.

Lemma mathMax_greatest (xs : list num) :
  Forall positive xs -> xs <> [] ->
  exists m, Chart.mathMax xs = Fin m /\ (Q2Qc 0 < m)%Qc /\
            forall x, In x xs -> exists q, x = Fin q /\ (q <= m)%Qc.
Proof.
  intros Hpos Hne. rewrite Forall_forall in Hpos.
  assert (Inv : (xs = [] /\ Chart.mathMax xs = NInf) \/
                exists m, Chart.mathMax xs = Fin m /\ (Q2Qc 0 < m)%Qc /\
                  forall x, In x xs -> exists q, x = Fin q /\ (q <= m)%Qc).
  { unfold Chart.mathMax.
    apply (fold_left_invariant Chart.max2
             (fun done acc =>
                (done = [] /\ acc = NInf) \/
                exists m, acc = Fin m /\ (Q2Qc 0 < m)%Qc /\
                  forall x, In x done -> exists q, x = Fin q /\ (q <= m)%Qc)).
    - left. split; reflexivity.
    - intros done x acc Hx Hacc. right.
      destruct (Hpos x Hx) as (q & -> & Hq).
      destruct Hacc as [[-> ->]|(m & -> & Hm & Hall)].
      + exists q. split; [reflexivity|]. split; [exact Hq|].
        intros y [<-|[]]. exists q. split; [reflexivity | apply Qcle_refl].
      + unfold Chart.max2. destruct (gtb (Fin q) (Fin m)) eqn:E.
        * apply gtb_Fin in E. exists q. split; [reflexivity|].
          split; [exact Hq|]. intros y Hy. apply in_app_or in Hy.
          destruct Hy as [Hy|[<-|[]]].
          -- destruct (Hall y Hy) as (qy & -> & Hle). exists qy.
             split; [reflexivity|].
             apply (Qcle_trans _ m); [exact Hle | apply Qclt_le_weak; exact E].
          -- exists q. split; [reflexivity | apply Qcle_refl].
        * exists m. split; [reflexivity|]. split; [exact Hm|].
          intros y Hy. apply in_app_or in Hy.
          destruct Hy as [Hy|[<-|[]]]; [apply Hall; exact Hy|].
          exists q. split; [reflexivity|]. apply Qc_not_lt_le.
          intros Hlt. apply gtb_Fin in Hlt. rewrite Hlt in E. discriminate. }
  destruct Inv as [[Hnil _]|H]; [contradiction | exact H].
Qed.

Lemma Qc_shrink (m : Qc) : (Q2Qc 0 < m)%Qc -> (m * Q2Qc (98 # 100) < m)%Qc.
Proof.
  unfold Qclt. rewrite Qc_this_mul. change (this (Q2Qc 0)) with 0%Q.
  change (this (Q2Qc (98 # 100))) with (49 # 50)%Q. intros H. lra.
Qed.

Lemma Qc_stretch (m : Qc) : (Q2Qc 0 < m)%Qc -> (m < m * Q2Qc (102 # 100))%Qc.
Proof.
  unfold Qclt. rewrite Qc_this_mul. change (this (Q2Qc 0)) with 0%Q.
  change (this (Q2Qc (102 # 100))) with (51 # 50)%Q. intros H. lra.
Qed.

(** X19.  The value axis of the chart contains every value plotted: on a
    window of positive NAVs that is not empty, the lower end of the domain
    is at most, and the upper end at least, every plotted value; for an
    empty window the domain is 0 to 100. *)
Theorem axis_domain_contains_every_value (filteredData : list NavData) :
  valuesPositive filteredData ->
  (filteredData = [] ->
   Chart.minNav filteredData = zero /\ Chart.maxNav filteredData = ofZ 100) /\
  (forall x, In x (Chart.chartNavs filteredData) ->
     leb (Chart.minNav filteredData) x = true /\
     leb x (Chart.maxNav filteredData) = true).
Proof.
  intros Hpos. split; [intros ->; split; reflexivity|].
  intros x Hx.
  assert (Hall : Forall positive (Chart.chartNavs filteredData)).
  { unfold Chart.chartNavs. apply Forall_forall. intros y Hy.
    apply in_map_iff in Hy. destruct Hy as (item & <- & Hitem).
    unfold valuesPositive in Hpos. rewrite Forall_forall in Hpos.
    apply Hpos.
    apply (sampled_incl filteredData item Hitem). }
  assert (Hne : Chart.chartNavs filteredData <> [])
    by (intros E; rewrite E in Hx; contradiction).
  destruct (mathMin_least _ Hall Hne) as (lo & Hlo & Hlo0 & Hmin).
  destruct (mathMax_greatest _ Hall Hne) as (hi & Hhi & Hhi0 & Hmax).
  destruct (Hmin x Hx) as (q & -> & Hq1). destruct (Hmax _ Hx) as (q' & E & Hq2).
  injection E as <-.
  unfold Chart.minNav, Chart.maxNav.
  destruct (Chart.chartNavs filteredData) as [|y ys] eqn:Hnavs;
    [contradiction|].
  rewrite Hlo, Hhi. cbn [mul]. split; apply leb_Fin.
  - apply (Qcle_trans _ lo);
      [apply Qclt_le_weak; apply Qc_shrink; exact Hlo0 | exact Hq1].
  - apply (Qcle_trans _ hi);
      [exact Hq2 | apply Qclt_le_weak; apply Qc_stretch; exact Hhi0].
Qed.

Lemma axis_domain_contains_every_value_witness :
  leb (Chart.minNav feed) (parseFloat (nav day3)) = true /\
  leb (parseFloat (nav day3)) (Chart.maxNav feed) = true.
Proof.
  assert (H : In (parseFloat (nav day3)) (Chart.chartNavs feed))
    by (right; left; reflexivity).
  exact (proj2 (axis_domain_contains_every_value feed valuesPositive_feed)
           (parseFloat (nav day3)) H).
Defined.

(** ** PastAnalysis: the dates on offer *)

Module Sel := Selection.

Lemma insertBy_perm {A : Type} (compare : A -> A -> Z) (a : A) (l : list A) :
  Permutation (Sel.insertBy compare a l) (a :: l).
Proof.
  induction l as [|b l IH]; cbn [Sel.insertBy]; [apply Permutation_refl|].
  destruct (compare a b <=? 0); [apply Permutation_refl|].
  apply (perm_trans (perm_skip b IH)). apply perm_swap.
Qed.

Lemma sortBy_perm {A : Type} (compare : A -> A -> Z) (l : list A) :
  Permutation (Sel.sortBy compare l) l.
Proof.
  induction l as [|a l IH]; [apply perm_nil|].
  unfold Sel.sortBy. cbn [fold_right]. fold (Sel.sortBy compare l).
  apply (perm_trans (insertBy_perm compare a (Sel.sortBy compare l))).
  apply perm_skip. exact IH.
Qed.

(** Sorting commutes with a map that keeps the comparator. *)
Lemma sortBy_map {A B : Type} (f : A -> B) (compare : A -> A -> Z)
    (compare' : B -> B -> Z) (l : list A) :
  (forall a b, compare' (f a) (f b) = compare a b) ->
  Sel.sortBy compare' (map f l) = map f (Sel.sortBy compare l).
Proof.
  intros Hc. induction l as [|a l IH]; [reflexivity|].
  unfold Sel.sortBy. cbn [map fold_right].
  fold (Sel.sortBy compare' (map f l)). fold (Sel.sortBy compare l).
  rewrite IH. generalize (Sel.sortBy compare l) as s.
  induction s as [|b s IHs]; [reflexivity|].
  cbn [map Sel.insertBy]. rewrite Hc.
  destruct (compare a b <=? 0); [reflexivity|].
  cbn [map]. rewrite IHs. reflexivity.
Qed.

Lemma insertBy_sorted (a : Z) (l : list Z) :
  StronglySorted Z.le l ->
  StronglySorted Z.le (Sel.insertBy (fun x y => x - y) a l).
Proof.
  induction l as [|b l IH]; intros Hs; cbn [Sel.insertBy].
  - constructor; constructor.
  - inversion Hs as [|? ? Hs' Hb]; subst.
    destruct (a - b <=? 0) eqn:E.
    + apply Z.leb_le in E. constructor; [exact Hs|].
      constructor; [lia|]. rewrite Forall_forall in *.
      intros x Hx. specialize (Hb x Hx). lia.
    + apply Z.leb_gt in E. constructor; [apply IH; exact Hs'|].
      rewrite Forall_forall in *. intros x Hx.
      apply (Permutation_in _ (insertBy_perm _ a l)) in Hx.
      destruct Hx as [<-|Hx]; [lia | apply Hb; exact Hx].
Qed.

Lemma sortBy_sorted (l : list Z) :
  StronglySorted Z.le (Sel.sortBy (fun x y => x - y) l).
Proof.
  induction l as [|a l IH]; [constructor|].
  unfold Sel.sortBy. cbn [fold_right]. apply insertBy_sorted. exact IH.
Qed.

(** The sorted list of distinct integers given as numbers. *)
Lemma sortBy_numbers (zs : list Z) :
  NoDup zs ->
  exists ys,
    Sel.sortBy Sel.byNumber (map Some zs) = map Some ys /\
    StronglySorted Z.lt ys /\ forall y, In y ys <-> In y zs.
Proof.
  intros Hn. exists (Sel.sortBy (fun x y => x - y) zs).
  split; [apply sortBy_map; intros a b; reflexivity|].
  split.
  - apply sorted_nodup_strict; [apply sortBy_sorted|].
    apply (Permutation_NoDup
             (Permutation_sym (sortBy_perm (fun x y => x - y) zs))).
    exact Hn.
  - intros y. split; intros H.
    + apply (Permutation_in _ (sortBy_perm (fun x y => x - y) zs)). exact H.
    + apply (Permutation_in _
               (Permutation_sym (sortBy_perm (fun x y => x - y) zs))).
      exact H.
Qed.

Lemma all_numbers (l : list Sel.jsInt) :
  (forall x, In x l -> x <> None) -> exists zs, l = map Some zs.
Proof.
  induction l as [|x l IH]; intros H; [exists []; reflexivity|].
  destruct IH as [zs ->]; [intros y Hy; apply H; right; exact Hy|].
  destruct x as [z|]; [|exfalso; apply (H None); [left|]; reflexivity].
  exists (z :: zs). reflexivity.
Qed.

Lemma sameValueZero_eq (a b : Sel.jsInt) :
  Sel.sameValueZero a b = true <-> a = b.
Proof.
  destruct a as [x|], b as [y|]; cbn [Sel.sameValueZero];
    try (split; [discriminate | intros [=]]); try tauto.
  rewrite Z.eqb_eq. split; [intros ->; reflexivity | intros [= ->]; reflexivity].
Qed.

Lemma sameValueZero_refl (a : Sel.jsInt) : Sel.sameValueZero a a = true.
Proof. apply sameValueZero_eq. reflexivity. Qed.

Lemma sameValueZero_neq (a b : Sel.jsInt) :
  a <> b -> Sel.sameValueZero a b = false.
Proof.
  intros H. destruct (Sel.sameValueZero a b) eqn:E; [|reflexivity].
  apply sameValueZero_eq in E. contradiction.
Qed.

Lemma setHas_In (x : Sel.jsInt) (s : list Sel.jsInt) :
  Sel.setHas x s = true <-> In x s.
Proof.
  unfold Sel.setHas. rewrite existsb_exists. split.
  - intros (y & Hy & E). apply sameValueZero_eq in E. subst y. exact Hy.
  - intros H. exists x. split; [exact H | apply sameValueZero_refl].
Qed.

Lemma setAdd_In (x y : Sel.jsInt) (s : list Sel.jsInt) :
  In x (Sel.setAdd y s) <-> x = y \/ In x s.
Proof.
  unfold Sel.setAdd. destruct (Sel.setHas y s) eqn:E.
  - apply setHas_In in E. split; [tauto|]. intros [->|H]; assumption.
  - rewrite in_app_iff. cbn [In]. split; intros H; intuition congruence.
Qed.

Lemma setAdd_NoDup (y : Sel.jsInt) (s : list Sel.jsInt) :
  NoDup s -> NoDup (Sel.setAdd y s).
Proof.
  intros Hn. unfold Sel.setAdd. destruct (Sel.setHas y s) eqn:E; [exact Hn|].
  apply (Permutation_NoDup (l := y :: s)); [apply Permutation_cons_append|].
  constructor; [|exact Hn]. intros Hin. apply setHas_In in Hin.
  rewrite Hin in E. discriminate.
Qed.

Lemma ymGet_ymSet (k k' : Sel.jsInt) (v : list Sel.jsInt) (m : Sel.YearMonths) :
  Sel.ymGet k' (Sel.ymSet k v m) =
  if Sel.sameValueZero k k' then Some v else Sel.ymGet k' m.
Proof.
  induction m as [|[k0 v0] m IH]; cbn [Sel.ymSet Sel.ymGet].
  - destruct (Sel.sameValueZero k k'); reflexivity.
  - destruct (Sel.sameValueZero k0 k) eqn:E0; cbn [Sel.ymGet].
    + apply sameValueZero_eq in E0. subst k0.
      destruct (Sel.sameValueZero k k'); reflexivity.
    + rewrite IH. destruct (Sel.sameValueZero k0 k') eqn:E1; [|reflexivity].
      apply sameValueZero_eq in E1. subst k0.
      rewrite sameValueZero_neq; [reflexivity|].
      intros ->. rewrite sameValueZero_refl in E0. discriminate.
Qed.

Lemma ymGet_keys (k : Sel.jsInt) (m : Sel.YearMonths) :
  In k (map fst m) <-> Sel.ymGet k m <> None.
Proof.
  induction m as [|[k0 v0] m IH]; cbn [map fst In Sel.ymGet]; [tauto|].
  destruct (Sel.sameValueZero k0 k) eqn:E.
  - apply sameValueZero_eq in E. split; [discriminate | intros _; left; exact E].
  - rewrite <- IH. split; [|tauto]. intros [H|H]; [|exact H].
    subst k0. rewrite sameValueZero_refl in E. discriminate.
Qed.

Lemma ymSet_keys (k : Sel.jsInt) (v : list Sel.jsInt) (m : Sel.YearMonths) :
  map fst (Sel.ymSet k v m) =
  if Sel.ymHas k m then map fst m else map fst m ++ [k].
Proof.
  unfold Sel.ymHas. induction m as [|[k0 v0] m IH]; cbn [Sel.ymSet Sel.ymGet map fst];
    [reflexivity|].
  destruct (Sel.sameValueZero k0 k) eqn:E; cbn [map fst].
  - apply sameValueZero_eq in E. subst k0. reflexivity.
  - rewrite IH. destruct (Sel.ymGet k m); reflexivity.
Qed.

Lemma ymSet_NoDup (k : Sel.jsInt) (v : list Sel.jsInt) (m : Sel.YearMonths) :
  NoDup (map fst m) -> NoDup (map fst (Sel.ymSet k v m)).
Proof.
  intros Hn. rewrite ymSet_keys. unfold Sel.ymHas.
  destruct (Sel.ymGet k m) eqn:E; [exact Hn|].
  apply (Permutation_NoDup (l := k :: map fst m));
    [apply Permutation_cons_append|].
  constructor; [|exact Hn]. intros Hin. apply ymGet_keys in Hin.
  contradiction.
Qed.

(** What the body of the loop does to the map, read through [get]. *)
Lemma yearMonthStep_get (m : Sel.YearMonths) (d : Sel.Entry) (k : Sel.jsInt) :
  Sel.ymGet k (Sel.yearMonthStep m d) =
  if Sel.sameValueZero (Sel.yearOf (fst d)) k
  then Some (Sel.setAdd (Sel.monthOf (fst d))
               match Sel.ymGet (Sel.yearOf (fst d)) m with
               | Some months => months
               | None => []
               end)
  else Sel.ymGet k m.
Proof.
  unfold Sel.yearMonthStep, Sel.ymHas.
  set (year := Sel.yearOf (fst d)). set (month := Sel.monthOf (fst d)).
  destruct (Sel.ymGet year m) as [months|] eqn:Hg.
  - rewrite Hg, ymGet_ymSet. reflexivity.
  - rewrite ymGet_ymSet, sameValueZero_refl, !ymGet_ymSet.
    destruct (Sel.sameValueZero year k); reflexivity.
Qed.

Lemma yearMonthStep_NoDup (m : Sel.YearMonths) (d : Sel.Entry) :
  NoDup (map fst m) -> NoDup (map fst (Sel.yearMonthStep m d)).
Proof.
  intros Hn. unfold Sel.yearMonthStep.
  set (m1 := if Sel.ymHas (Sel.yearOf (fst d)) m then m
             else Sel.ymSet (Sel.yearOf (fst d)) [] m).
  assert (Hn1 : NoDup (map fst m1)).
  { unfold m1. destruct (Sel.ymHas (Sel.yearOf (fst d)) m); [exact Hn|].
    apply ymSet_NoDup. exact Hn. }
  destruct (Sel.ymGet (Sel.yearOf (fst d)) m1); [|exact Hn1].
  apply ymSet_NoDup. exact Hn1.
Qed.

(** The map built by the loop over any entries: its keys are distinct, and
    the set kept for a year holds, once each, the months of the entries of
    that year. *)
Lemma yearMonthMap_spec (dates : list Sel.Entry) :
  NoDup (map fst (fold_left Sel.yearMonthStep dates [])) /\
  forall k,
    match Sel.ymGet k (fold_left Sel.yearMonthStep dates []) with
    | Some months =>
        NoDup months /\
        (forall mo, In mo months <->
           exists e, In e dates /\ Sel.yearOf (fst e) = k /\
                     Sel.monthOf (fst e) = mo) /\
        exists e, In e dates /\ Sel.yearOf (fst e) = k
    | None => forall e, In e dates -> Sel.yearOf (fst e) <> k
    end.
Proof.
  apply (fold_left_invariant Sel.yearMonthStep
           (fun done m =>
              NoDup (map fst m) /\
              forall k,
                match Sel.ymGet k m with
                | Some months =>
                    NoDup months /\
                    (forall mo, In mo months <->
                       exists e, In e done /\ Sel.yearOf (fst e) = k /\
                                 Sel.monthOf (fst e) = mo) /\
                    exists e, In e done /\ Sel.yearOf (fst e) = k
                | None => forall e, In e done -> Sel.yearOf (fst e) <> k
                end)).
  - split; [constructor|]. intros k e [].
  - intros done x m _ (Hn & Hm). split; [apply yearMonthStep_NoDup; exact Hn|].
    intros k. rewrite yearMonthStep_get.
    destruct (Sel.sameValueZero (Sel.yearOf (fst x)) k) eqn:E.
    + apply sameValueZero_eq in E. subst k. specialize (Hm (Sel.yearOf (fst x))).
      split; [|split].
      * apply setAdd_NoDup.
        destruct (Sel.ymGet (Sel.yearOf (fst x)) m); [apply Hm | constructor].
      * intros mo. rewrite setAdd_In. split.
        -- intros [->|Hin].
           ++ exists x. split; [apply in_or_app; right; left; reflexivity|].
              split; reflexivity.
           ++ destruct (Sel.ymGet (Sel.yearOf (fst x)) m); [|contradiction].
              destruct Hm as (_ & Hmem & _). apply Hmem in Hin.
              destruct Hin as (e & He & Hy & Hmo). exists e.
              split; [apply in_or_app; left; exact He|]. split; assumption.
        -- intros (e & He & Hy & Hmo). apply in_app_or in He.
           destruct He as [He|[<-|[]]]; [|left; symmetry; exact Hmo].
           right. destruct (Sel.ymGet (Sel.yearOf (fst x)) m).
           ++ destruct Hm as (_ & Hmem & _). apply Hmem. exists e.
              split; [exact He|]. split; assumption.
           ++ exfalso. apply (Hm e He). exact Hy.
      * exists x. split; [apply in_or_app; right; left; reflexivity|].
        reflexivity.
    + specialize (Hm k).
      assert (Hx : Sel.yearOf (fst x) <> k).
      { intros Hk. rewrite Hk, sameValueZero_refl in E. discriminate. }
      destruct (Sel.ymGet k m) as [months|].
      * destruct Hm as (Hnd & Hmem & (e0 & He0 & Hy0)).
        split; [exact Hnd|]. split.
        -- intros mo. rewrite Hmem. split.
           ++ intros (e & He & Hy & Hmo). exists e.
              split; [apply in_or_app; left; exact He|]. split; assumption.
           ++ intros (e & He & Hy & Hmo). apply in_app_or in He.
              destruct He as [He|[<-|[]]]; [|contradiction].
              exists e. split; [exact He|]. split; assumption.
        -- exists e0. split; [apply in_or_app; left; exact He0 | exact Hy0].
      * intros e He. apply in_app_or in He.
        destruct He as [He|[<-|[]]]; [apply Hm; exact He | exact Hx].
Qed.

Lemma ymGet_app (k : Sel.jsInt) (l1 l2 : Sel.YearMonths) :
  Sel.ymGet k (l1 ++ l2) =
  match Sel.ymGet k l1 with
  | Some v => Some v
  | None => Sel.ymGet k l2
  end.
Proof.
  induction l1 as [|[k0 v0] l1 IH]; cbn [app Sel.ymGet]; [reflexivity|].
  destruct (Sel.sameValueZero k0 k); [reflexivity | exact IH].
Qed.

(** Copying a map entry by entry, its sets sorted, sorts what [get]
    returns. *)
Lemma monthsByYear_get (rest : Sel.YearMonths) :
  forall done acc,
  NoDup (map fst (done ++ rest)) ->
  (forall k, Sel.ymGet k acc
             = option_map (Sel.sortBy Sel.byNumber) (Sel.ymGet k done)) ->
  forall k,
  Sel.ymGet k
    (fold_left (fun acc ym =>
                  Sel.ymSet (fst ym) (Sel.sortBy Sel.byNumber (snd ym)) acc)
       rest acc)
  = option_map (Sel.sortBy Sel.byNumber) (Sel.ymGet k (done ++ rest)).
Proof.
  induction rest as [|[k0 v0] rest IH]; intros done acc Hn Hacc k.
  - cbn [fold_left]. rewrite app_nil_r. apply Hacc.
  - cbn [fold_left fst snd].
    replace (done ++ (k0, v0) :: rest) with ((done ++ [(k0, v0)]) ++ rest) in *
      by (rewrite <- app_assoc; reflexivity).
    apply IH; [exact Hn|]. intros k'.
    rewrite ymGet_ymSet, ymGet_app. cbn [Sel.ymGet].
    destruct (Sel.sameValueZero k0 k') eqn:E.
    + apply sameValueZero_eq in E. subst k'.
      assert (Hfresh : Sel.ymGet k0 done = None).
      { destruct (Sel.ymGet k0 done) eqn:Hg; [|reflexivity]. exfalso.
        assert (Hin : In k0 (map fst done))
          by (apply ymGet_keys; rewrite Hg; discriminate).
        rewrite !map_app in Hn. cbn [map fst] in Hn.
        apply NoDup_app_remove_r in Hn.
        apply NoDup_remove_2 in Hn. apply Hn. rewrite app_nil_r. exact Hin. }
      rewrite Hfresh. reflexivity.
    + rewrite Hacc. destruct (Sel.ymGet k' done); reflexivity.
Qed.

Section DatesOnOffer.

Variable navData : list NavData.

Local Abbreviation entries :=
  (map (fun d => (parseNavDate (date d), date d)) navData).
Local Abbreviation dates := (Sel.sortBy Sel.byTime entries).
Local Abbreviation yearMonthMap := (fold_left Sel.yearMonthStep dates []).

Lemma dates_entries (e : Sel.Entry) :
  In e dates <->
  exists r, In r navData /\ e = (parseNavDate (date r), date r).
Proof.
  split.
  - intros H. apply (Permutation_in _ (sortBy_perm Sel.byTime entries)) in H.
    apply in_map_iff in H. destruct H as (r & <- & Hr). exists r.
    split; [exact Hr | reflexivity].
  - intros (r & Hr & ->).
    apply (Permutation_in _ (Permutation_sym (sortBy_perm Sel.byTime entries))).
    apply in_map_iff. exists r. split; [reflexivity | exact Hr].
Qed.

Lemma dated_month (y m : Z) :
  (exists e, In e dates /\ Sel.yearOf (fst e) = Some y /\
             Sel.monthOf (fst e) = Some m) <->
  datedIn navData y m.
Proof.
  unfold datedIn. split.
  - intros (e & He & Hy & Hm). apply dates_entries in He.
    destruct He as (r & Hr & ->). cbn [fst] in *.
    destruct (parseNavDate (date r)) as [d|] eqn:Hd; [|discriminate].
    cbn [Sel.yearOf Sel.monthOf option_map] in *.
    exists r, d. split; [exact Hr|]. split; [exact Hd|].
    split; congruence.
  - intros (r & d & Hr & Hd & Hy & Hm).
    exists (parseNavDate (date r), date r).
    split; [apply dates_entries; exists r; split; [exact Hr | reflexivity]|].
    cbn [fst]. rewrite Hd. cbn [Sel.yearOf Sel.monthOf option_map].
    split; congruence.
Qed.

Lemma dated_year (y : Z) :
  (exists e, In e dates /\ Sel.yearOf (fst e) = Some y) <->
  exists m, datedIn navData y m.
Proof.
  split.
  - intros (e & He & Hy).
    destruct (fst e) as [d|] eqn:Hd; [|discriminate].
    exists (monthIdx d + 1). apply dated_month. exists e.
    split; [exact He|]. rewrite Hd. split; [exact Hy | reflexivity].
  - intros (m & Hm). apply dated_month in Hm.
    destruct Hm as (e & He & Hy & _). exists e. split; assumption.
Qed.

Hypothesis dates_valid : datesValid navData.

Lemma entry_valid (e : Sel.Entry) : In e dates -> fst e <> None.
Proof.
  intros He. apply dates_entries in He. destruct He as (r & Hr & ->).
  unfold datesValid in dates_valid. rewrite Forall_forall in dates_valid.
  cbn [fst]. unfold navTime in dates_valid.
  specialize (dates_valid r Hr).
  destruct (parseNavDate (date r)); [discriminate|].
  exfalso. apply dates_valid. reflexivity.
Qed.

(** The years on offer are the years in which a record is dated, in
    ascending order, and the months on offer for each are the months of
    that year in which a record is dated, in ascending order. *)
Lemma dateInfo_spec :
  exists ys,
    Sel.years (Sel.dateInfo navData) = map Some ys /\
    StronglySorted Z.lt ys /\
    (forall y, In y ys <-> exists m, datedIn navData y m) /\
    (forall y, In y ys ->
       exists ms,
         Sel.ymGet (Some y) (Sel.monthsByYear (Sel.dateInfo navData))
           = Some (map Some ms) /\
         StronglySorted Z.lt ms /\
         forall m, In m ms <-> datedIn navData y m).
Proof.
  destruct (yearMonthMap_spec dates) as [Hnd Hget].
  assert (Hinfo : Sel.years (Sel.dateInfo navData)
                    = Sel.sortBy Sel.byNumber (map fst yearMonthMap) /\
                  forall k,
                    Sel.ymGet k (Sel.monthsByYear (Sel.dateInfo navData))
                    = option_map (Sel.sortBy Sel.byNumber)
                        (Sel.ymGet k yearMonthMap)).
  { unfold Sel.dateInfo. destruct navData as [|r0 l0] eqn:Hnav.
    - split; reflexivity.
    - cbn [Sel.years Sel.monthsByYear]. split; [reflexivity|].
      intros k. apply (monthsByYear_get _ [] []); [exact Hnd|].
      intros k'. reflexivity. }
  destruct Hinfo as [Hyears Hmonths].
  assert (Hkeys : forall k, In k (map fst yearMonthMap) -> k <> None).
  { intros k Hk. apply ymGet_keys in Hk. specialize (Hget k).
    destruct (Sel.ymGet k yearMonthMap) as [months|]; [|contradiction].
    destruct Hget as (_ & _ & (e & He & Hy)).
    pose proof (entry_valid e He) as Hv.
    destruct (fst e); [subst k; discriminate | contradiction]. }
  destruct (all_numbers _ Hkeys) as [zs Hzs].
  assert (Hnz : NoDup zs).
  { rewrite Hzs in Hnd. apply NoDup_map_inv in Hnd. exact Hnd. }
  destruct (sortBy_numbers zs Hnz) as (ys & Hsort & Hsorted & Hmem).
  exists ys. rewrite Hyears, Hzs. split; [exact Hsort|].
  split; [exact Hsorted|].
  assert (Hyear : forall y, In y ys <-> Sel.ymGet (Some y) yearMonthMap <> None).
  { intros y. rewrite Hmem, <- ymGet_keys, Hzs. split.
    - intros H. apply in_map. exact H.
    - intros H. apply in_map_iff in H. destruct H as (z & [= ->] & Hz). exact Hz. }
  split.
  - intros y. rewrite Hyear, <- dated_year. specialize (Hget (Some y)).
    destruct (Sel.ymGet (Some y) yearMonthMap) as [months|].
    + destruct Hget as (_ & _ & He). split; [intros _; exact He | discriminate].
    + split; [contradiction|]. intros (e & He & Hy). exfalso.
      apply (Hget e He). exact Hy.
  - intros y Hy. apply Hyear in Hy. rewrite Hmonths. specialize (Hget (Some y)).
    destruct (Sel.ymGet (Some y) yearMonthMap) as [months|]; [|contradiction].
    destruct Hget as (Hndm & Hmo & _).
    assert (Hall : forall mo, In mo months -> mo <> None).
    { intros mo Hin. apply Hmo in Hin. destruct Hin as (e & He & _ & Hm).
      pose proof (entry_valid e He) as Hv.
      destruct (fst e); [subst mo; discriminate | contradiction]. }
    destruct (all_numbers _ Hall) as [ws Hws]. subst months.
    apply NoDup_map_inv in Hndm.
    destruct (sortBy_numbers ws Hndm) as (ms & Hms & Hmsorted & Hmmem).
    exists ms. cbn [option_map]. rewrite Hms. split; [reflexivity|].
    split; [exact Hmsorted|].
    intros m. rewrite Hmmem, <- dated_month, <- Hmo. split.
    + intros H. apply in_map. exact H.
    + intros H. apply in_map_iff in H. destruct H as (z & [= ->] & Hz). exact Hz.
Qed.

End DatesOnOffer.

(** X20.  On a series of validly dated records, the years offered by the
    date picker are exactly the years in which some record is dated, in
    strictly ascending order, and the months offered for a year are exactly
    the months of that year in which some record is dated, in strictly
    ascending order. *)
Theorem date_picker_offers_the_dated_months (navData : list NavData) :
  datesValid navData ->
  exists ys,
    Sel.years (Sel.dateInfo navData) = map Some ys /\
    StronglySorted Z.lt ys /\
    (forall y, In y ys <-> exists m, datedIn navData y m) /\
    (forall y, In y ys ->
       exists ms,
         Sel.ymGet (Some y) (Sel.monthsByYear (Sel.dateInfo navData))
           = Some (map Some ms) /\
         StronglySorted Z.lt ms /\
         forall m, In m ms <-> datedIn navData y m).
Proof. exact (dateInfo_spec navData). Qed.

Lemma date_picker_offers_the_dated_months_witness :
  exists ys,
    Sel.years (Sel.dateInfo feed) = map Some ys /\
    StronglySorted Z.lt ys /\
    (forall y, In y ys <-> exists m, datedIn feed y m).
Proof.
  destruct (date_picker_offers_the_dated_months feed datesValid_feed)
    as (ys & H1 & H2 & H3 & _).
  exists ys. exact (conj H1 (conj H2 H3)).
Defined.

Example date_picker_sample :
  Sel.years (Sel.dateInfo feed) = [Some 2020] /\
  Sel.ymGet (Some 2020) (Sel.monthsByYear (Sel.dateInfo feed)) = Some [Some 1].
Proof. split; reflexivity. Qed.

(** ** PastAnalysis: the handlers of the selection *)

Lemma parseNavDate_month (s : string) (d : Date) :
  parseNavDate s = Some d -> 0 <= monthIdx d <= 11.
Proof.
  unfold parseNavDate.
  destruct (map toNumber (splitOn "-" s)) as [|[day|] [|[month|] [|[year|] l]]];
    try discriminate.
  intros [= <-]. unfold newDate.
  match goal with
  | |- context [normalize ?raw] =>
      destruct (normalize_month raw) as [H _]; [|exact H]
  end.
  cbn [monthIdx]. pose proof (Z.mod_pos_bound (month - 1) 12). lia.
Qed.

Lemma datedIn_month (navData : list NavData) (y m : Z) :
  datedIn navData y m -> 1 <= m <= 12.
Proof.
  intros (r & d & _ & Hd & _ & Hm). apply parseNavDate_month in Hd. lia.
Qed.

(** The loop that finds the closest year, over years in ascending order:
    the greatest year not after the target, or the initial choice when
    every year is after it. *)
Lemma closestYear_fold (t : Z) (ys : list Z) :
  StronglySorted Z.lt ys ->
  forall init,
  ((forall y, In y ys -> t < y) /\
   fold_left (fun chosen yr => if Sel.notAfter yr t then Some yr else chosen)
     (map Some ys) init = init) \/
  (exists y,
     fold_left (fun chosen yr => if Sel.notAfter yr t then Some yr else chosen)
       (map Some ys) init = Some (Some y) /\
     In y ys /\ y <= t /\
     forall y', In y' ys -> y' <= t -> y' <= y).
Proof.
  induction ys as [|a ys IH]; intros Hs init; cbn [map fold_left].
  - left. split; [intros y []| reflexivity].
  - inversion Hs as [|? ? Hs' Ha]; subst. rewrite Forall_forall in Ha.
    change (Sel.notAfter (Some a) t) with (a <=? t).
    destruct (a <=? t) eqn:E.
    + apply Z.leb_le in E. right.
      destruct (IH Hs' (Some (Some a)))
        as [[Hall Hres]|(y & Hres & Hy & Hle & Hmax)].
      * exists a. split; [exact Hres|]. split; [left; reflexivity|].
        split; [exact E|]. intros y' [<-|Hy'] Hy't; [lia|].
        specialize (Hall y' Hy'). lia.
      * exists y. split; [exact Hres|]. split; [right; exact Hy|].
        split; [exact Hle|]. intros y' [<-|Hy'] Hy't.
        -- specialize (Ha y Hy). lia.
        -- apply Hmax; assumption.
    + apply Z.leb_gt in E.
      destruct (IH Hs' init) as [[Hall Hres]|(y & Hres & Hy & Hle & Hmax)].
      * left. split; [|exact Hres].
        intros y [<-|Hy]; [lia | apply Hall, Hy].
      * exfalso. specialize (Ha y Hy). lia.
Qed.

Lemma closestYear_spec (t : Z) (ys : list Z) :
  StronglySorted Z.lt ys -> ys <> [] ->
  exists y,
    Sel.closestYear (map Some ys) t = Some (Some y) /\ In y ys /\
    ((exists y0, In y0 ys /\ y0 <= t) ->
     y <= t /\ forall y', In y' ys -> y' <= t -> y' <= y) /\
    ((forall y0, In y0 ys -> t < y0) -> forall y', In y' ys -> y <= y').
Proof.
  intros Hs Hne. unfold Sel.closestYear.
  destruct ys as [|a ys']; [contradiction|].
  destruct (closestYear_fold t (a :: ys') Hs (hd_error (map Some (a :: ys'))))
    as [[Hall Hres]|(y & Hres & Hy & Hle & Hmax)].
  - exists a. split; [exact Hres|].
    split; [left; reflexivity|]. split.
    + intros (y0 & Hy0 & Hle). specialize (Hall y0 Hy0). lia.
    + intros _ y' [<-|Hy']; [lia|].
      inversion Hs as [|? ? _ Ha]; subst. rewrite Forall_forall in Ha.
      specialize (Ha y' Hy'). lia.
  - exists y. split; [exact Hres|]. split; [exact Hy|]. split.
    + intros _. split; assumption.
    + intros Hall. specialize (Hall y Hy). lia.
Qed.

(** The ends of a list of numbers in ascending order. *)
Lemma ascending_ends (ms : list Z) :
  StronglySorted Z.lt ms -> ms <> [] ->
  exists lo hi,
    hd_error (map Some ms) = Some (Some lo) /\
    Sel.lastOf (map Some ms) = Some (Some hi) /\
    In lo ms /\ In hi ms /\
    forall m, In m ms -> lo <= m <= hi.
Proof.
  intros Hs Hne. destruct (exists_last Hne) as (pre & hi & Hlast).
  destruct ms as [|lo rest]; [contradiction|].
  exists lo, hi. split; [reflexivity|]. split.
  - unfold Sel.lastOf. rewrite Hlast, map_app, rev_app_distr. reflexivity.
  - split; [left; reflexivity|].
    split; [rewrite Hlast; apply in_or_app; right; left; reflexivity|].
    intros m Hm. split.
    + destruct Hm as [<-|Hm]; [lia|].
      inversion Hs as [|? ? _ Ha]; subst. rewrite Forall_forall in Ha.
      specialize (Ha m Hm). lia.
    + rewrite Hlast in Hm, Hs. apply in_app_or in Hm.
      destruct Hm as [Hm|[<-|[]]]; [|lia].
      pose proof (StronglySorted_app_order Z.lt pre [hi] Hs m hi Hm
                    (or_introl eq_refl)). lia.
Qed.

(** The first month not before the target, in a list in ascending order. *)
Lemma findFrom_spec (t : Z) (ms : list Z) :
  StronglySorted Z.lt ms ->
  match Sel.findFrom t (map Some ms) with
  | Some (Some x) =>
      In x ms /\ t <= x /\ forall m, In m ms -> t <= m -> x <= m
  | Some None => False
  | None => forall m, In m ms -> m < t
  end.
Proof.
  unfold Sel.findFrom. induction ms as [|a ms IH]; intros Hs; cbn [map find].
  - intros m [].
  - inversion Hs as [|? ? Hs' Ha]; subst. rewrite Forall_forall in Ha.
    destruct (t <=? a) eqn:E.
    + apply Z.leb_le in E. split; [left; reflexivity|]. split; [exact E|].
      intros m [<-|Hm] _; [lia|]. specialize (Ha m Hm). lia.
    + apply Z.leb_gt in E. specialize (IH Hs').
      destruct (find _ (map Some ms)) as [[x|]|].
      * destruct IH as (Hx & Hle & Hmin). split; [right; exact Hx|].
        split; [exact Hle|]. intros m [<-|Hm] Hm'; [lia | apply Hmin; assumption].
      * exact IH.
      * intros m [<-|Hm]; [lia | apply IH; exact Hm].
Qed.

Section Handlers.

Variable navData : list NavData.
Hypothesis dates_valid : datesValid navData.

(** The closest year and its months, as the handlers see them. *)
Lemma closest_year_months (t : Z) :
  navData <> [] ->
  exists y ms,
    Sel.closestYear (Sel.years (Sel.dateInfo navData)) t = Some (Some y) /\
    Sel.monthsOf (Sel.dateInfo navData) (Some (Some y)) = map Some ms /\
    StronglySorted Z.lt ms /\ ms <> [] /\
    (forall m, In m ms <-> datedIn navData y m) /\
    ((exists y0 m0, datedIn navData y0 m0 /\ y0 <= t) ->
     y <= t /\ forall y' m', datedIn navData y' m' -> y' <= t -> y' <= y) /\
    ((forall y0 m0, datedIn navData y0 m0 -> t < y0) ->
     forall y' m', datedIn navData y' m' -> y <= y').
Proof.
  intros Hne.
  destruct (dateInfo_spec navData dates_valid) as (ys & Hys & Hsorted & Hmem & Hms).
  assert (Hys_ne : ys <> []).
  { destruct navData as [|r l] eqn:Hnav; [contradiction|].
    rewrite <- Hnav in *.
    assert (Hr : In r navData) by (rewrite Hnav; left; reflexivity).
    unfold datesValid in dates_valid. rewrite Forall_forall in dates_valid.
    pose proof (dates_valid r Hr) as Hv. unfold navTime in Hv.
    destruct (parseNavDate (date r)) as [d|] eqn:Hd;
      [|exfalso; apply Hv; reflexivity].
    assert (Hin : In (fullYear d) ys).
    { apply Hmem. exists (monthIdx d + 1). exists r, d.
      repeat split; assumption. }
    intros E. rewrite E in Hin. contradiction. }
  destruct (closestYear_spec t ys Hsorted Hys_ne) as (y & Hres & Hy & Hle & Hgt).
  destruct (Hms y Hy) as (ms & Hget & Hmsorted & Hmmem).
  exists y, ms. rewrite Hys. split; [exact Hres|].
  split; [unfold Sel.monthsOf; rewrite Hget; reflexivity|].
  split; [exact Hmsorted|]. split; [|split; [exact Hmmem|split]].
  - apply Hmem in Hy. destruct Hy as (m & Hm). apply Hmmem in Hm.
    intros E. rewrite E in Hm. contradiction.
  - intros (y0 & m0 & Hd0 & Hle0).
    destruct Hle as [H1 H2];
      [exists y0; split; [apply Hmem; exists m0; exact Hd0 | exact Hle0]|].
    split; [exact H1|]. intros y' m' Hd' Hle'. apply H2; [|exact Hle'].
    apply Hmem. exists m'. exact Hd'.
  - intros Hall y' m' Hd'. apply Hgt.
    + intros y0 Hy0. apply Hmem in Hy0. destruct Hy0 as (m0 & Hd0).
      apply (Hall y0 m0 Hd0).
    + apply Hmem. exists m'. exact Hd'.
Qed.

(** The month picked when the closest year is the target year: the first
    month on offer that is not before the target month, or the last one on
    offer. *)
Lemma closest_month (t : Z) (y : Z) (ms : list Z) :
  StronglySorted Z.lt ms -> ms <> [] ->
  (forall m, In m ms <-> datedIn navData y m) ->
  exists m,
    Sel.orElse (Sel.findFrom t (map Some ms)) (Sel.lastOf (map Some ms))
      = Some (Some m) /\
    In m ms /\
    ((exists m0, In m0 ms /\ t <= m0) ->
     t <= m /\ forall m', In m' ms -> t <= m' -> m <= m') /\
    ((forall m0, In m0 ms -> m0 < t) -> forall m', In m' ms -> m' <= m).
Proof.
  intros Hs Hne Hmem.
  destruct (ascending_ends ms Hs Hne) as (lo & hi & _ & Hlast & _ & Hhi & Hends).
  pose proof (findFrom_spec t ms Hs) as Hfind.
  destruct (Sel.findFrom t (map Some ms)) as [[x|]|]; [|contradiction|].
  - destruct Hfind as (Hx & Hle & Hmin).
    assert (Hpos : 1 <= x <= 12)
      by (apply (datedIn_month navData y); apply Hmem; exact Hx).
    exists x. unfold Sel.orElse, Sel.truthy.
    replace (x =? 0) with false by (symmetry; apply Z.eqb_neq; lia).
    cbn [negb]. split; [reflexivity|]. split; [exact Hx|]. split.
    + intros _. split; assumption.
    + intros Hall. specialize (Hall x Hx). lia.
  - exists hi. unfold Sel.orElse, Sel.truthy. rewrite Hlast.
    split; [reflexivity|]. split; [exact Hhi|]. split.
    + intros (m0 & Hm0 & Hle). specialize (Hfind m0 Hm0). lia.
    + intros _ m' Hm'. apply Hends. exact Hm'.
Qed.

End Handlers.

Lemma months_on_offer (navData : list NavData) (y : Z) :
  datesValid navData ->
  (exists m0, datedIn navData y m0) ->
  exists ms,
    Sel.monthsOf (Sel.dateInfo navData) (Some (Some y)) = map Some ms /\
    StronglySorted Z.lt ms /\ ms <> [] /\
    forall m, In m ms <-> datedIn navData y m.
Proof.
  intros Hv Hy.
  destruct (dateInfo_spec navData Hv) as (ys & _ & _ & Hmem & Hms).
  destruct (Hms y (proj2 (Hmem y) Hy)) as (ms & Hget & Hsorted & Hmmem).
  exists ms. split; [unfold Sel.monthsOf; rewrite Hget; reflexivity|].
  split; [exact Hsorted|]. split; [|exact Hmmem].
  destruct Hy as (m0 & Hm0). apply Hmmem in Hm0.
  intros E. rewrite E in Hm0. contradiction.
Qed.

(** X21.  The quick-select preset, when its button is enabled (some record
    is dated in a year not after the target year): the year selected is the
    latest year with a record that is not after the target year, and the
    month selected is a month of that year with a record: the first one not
    before the target month when the year is the target year and there is
    one, the last one otherwise. *)
Theorem preset_selects_closest_dated_month
    (now : Date) (navData : list NavData) (yearsAgo : Z) :
  datesValid navData ->
  (exists y0 m0, datedIn navData y0 m0 /\
                 y0 <= fullYear (Sel.yearsBack now yearsAgo)) ->
  exists y m,
    Sel.setPresetFromYearsAgo now (Sel.dateInfo navData) yearsAgo
      = (Some (Some y), Some (Some m)) /\
    datedIn navData y m /\
    y <= fullYear (Sel.yearsBack now yearsAgo) /\
    (forall y' m', datedIn navData y' m' ->
       y' <= fullYear (Sel.yearsBack now yearsAgo) -> y' <= y) /\
    (y = fullYear (Sel.yearsBack now yearsAgo) ->
     (exists m0, datedIn navData y m0 /\
                 monthIdx (Sel.yearsBack now yearsAgo) + 1 <= m0) ->
     monthIdx (Sel.yearsBack now yearsAgo) + 1 <= m /\
     forall m', datedIn navData y m' ->
       monthIdx (Sel.yearsBack now yearsAgo) + 1 <= m' -> m <= m') /\
    (y < fullYear (Sel.yearsBack now yearsAgo) \/
     (forall m0, datedIn navData y m0 ->
        m0 < monthIdx (Sel.yearsBack now yearsAgo) + 1) ->
     forall m', datedIn navData y m' -> m' <= m).
Proof.
  intros Hv Hen. unfold Sel.setPresetFromYearsAgo.
  set (target := Sel.yearsBack now yearsAgo) in *.
  assert (Hne : navData <> []).
  { destruct Hen as (y0 & m0 & (r & d & Hr & _) & _). intros E.
    rewrite E in Hr. contradiction. }
  destruct (closest_year_months navData Hv (fullYear target) Hne)
    as (y & ms & Hy & Hmonths & Hsorted & Hmne & Hmem & Hle & _).
  destruct (Hle Hen) as [Hyle Hmax].
  rewrite Hy, Hmonths. cbn [Sel.strictEq].
  destruct (ascending_ends ms Hsorted Hmne)
    as (lo & hi & _ & Hlast & _ & Hhi & Hends).
  destruct (y =? fullYear target) eqn:E.
  - apply Z.eqb_eq in E.
    destruct (closest_month navData (monthIdx target + 1) y ms Hsorted Hmne Hmem)
      as (m & Hm & Hin & Hfirst & Hfallback).
    exists y, m. rewrite Hm. split; [reflexivity|].
    split; [apply Hmem; exact Hin|]. split; [exact Hyle|].
    split; [exact Hmax|]. split.
    + intros _ (m0 & Hd0 & Hle0).
      destruct Hfirst as [H1 H2];
        [exists m0; split; [apply Hmem; exact Hd0 | exact Hle0]|].
      split; [exact H1|]. intros m' Hd' Hle'. apply H2; [|exact Hle'].
      apply Hmem. exact Hd'.
    + intros [Hlt|Hnone]; [lia|]. intros m' Hd'. apply Hfallback.
      * intros m1 Hm1. apply Hnone. apply Hmem. exact Hm1.
      * apply Hmem. exact Hd'.
  - apply Z.eqb_neq in E. exists y, hi. rewrite Hlast.
    split; [reflexivity|]. split; [apply Hmem; exact Hhi|].
    split; [exact Hyle|]. split; [exact Hmax|]. split; [intros Heq; contradiction|].
    intros _ m' Hd'. apply Hends. apply Hmem. exact Hd'.
Qed.

Lemma preset_selects_closest_dated_month_witness :
  exists y m,
    Sel.setPresetFromYearsAgo aNow (Sel.dateInfo feed) 5
      = (Some (Some y), Some (Some m)) /\
    datedIn feed y m.
Proof.
  assert (H : exists y0 m0, datedIn feed y0 m0 /\
                            y0 <= fullYear (Sel.yearsBack aNow 5)).
  { exists 2020, 1. split; [|vm_compute; discriminate].
    exists day1. eexists. split; [right; right; left; reflexivity|].
    split; [reflexivity|]. split; reflexivity. }
  destruct (preset_selects_closest_dated_month aNow feed 5 datesValid_feed H)
    as (y & m & H1 & H2 & _).
  exists y, m. exact (conj H1 H2).
Defined.

(** X22.  The default date.  With a selection already made nothing
    changes.  Otherwise, on a series that is not empty, the year selected is
    the latest year with a record that is not after the year three years
    back, or the earliest year with a record when all are after it; the
    month selected is a month of that year with a record: in the target
    year the first one not before the target month, or the last one when
    there is none; in any other year the first one. *)
Theorem default_date_is_closest_dated_month
    (now : Date) (navData : list NavData) (selectedYear selectedMonth : Sel.Slot) :
  datesValid navData -> navData <> [] ->
  (Sel.truthy selectedYear = true ->
   Sel.defaultDate now (Sel.dateInfo navData) selectedYear selectedMonth
     = (selectedYear, selectedMonth)) /\
  (Sel.truthy selectedYear = false ->
   exists y m,
     Sel.defaultDate now (Sel.dateInfo navData) selectedYear selectedMonth
       = (Some (Some y), Some (Some m)) /\
     datedIn navData y m /\
     ((exists y0 m0, datedIn navData y0 m0 /\
                     y0 <= fullYear (Sel.yearsBack now 3)) ->
      y <= fullYear (Sel.yearsBack now 3) /\
      forall y' m', datedIn navData y' m' ->
        y' <= fullYear (Sel.yearsBack now 3) -> y' <= y) /\
     ((forall y0 m0, datedIn navData y0 m0 ->
         fullYear (Sel.yearsBack now 3) < y0) ->
      forall y' m', datedIn navData y' m' -> y <= y') /\
     (y = fullYear (Sel.yearsBack now 3) ->
      (exists m0, datedIn navData y m0 /\
                  monthIdx (Sel.yearsBack now 3) + 1 <= m0) ->
      monthIdx (Sel.yearsBack now 3) + 1 <= m /\
      forall m', datedIn navData y m' ->
        monthIdx (Sel.yearsBack now 3) + 1 <= m' -> m <= m') /\
     (y = fullYear (Sel.yearsBack now 3) ->
      (forall m0, datedIn navData y m0 ->
         m0 < monthIdx (Sel.yearsBack now 3) + 1) ->
      forall m', datedIn navData y m' -> m' <= m) /\
     (y <> fullYear (Sel.yearsBack now 3) ->
      forall m', datedIn navData y m' -> m <= m')).
Proof.
  intros Hv Hne. unfold Sel.defaultDate.
  set (target := Sel.yearsBack now 3) in *.
  destruct (closest_year_months navData Hv (fullYear target) Hne)
    as (y & ms & Hy & Hmonths & Hsorted & Hmne & Hmem & Hle & Hgt).
  destruct (Sel.years (Sel.dateInfo navData)) as [|y0 ys0] eqn:Hyears;
    [discriminate Hy|].
  split; [intros ->; reflexivity|]. intros ->.
  rewrite Hy, Hmonths. cbn [Sel.strictEq].
  destruct (ascending_ends ms Hsorted Hmne)
    as (lo & hi & Hfirst0 & _ & Hlo & _ & Hends).
  destruct (y =? fullYear target) eqn:E.
  - apply Z.eqb_eq in E.
    destruct (closest_month navData (monthIdx target + 1) y ms Hsorted Hmne Hmem)
      as (m & Hm & Hin & Hfirst & Hfallback).
    exists y, m. rewrite Hm. split; [reflexivity|].
    split; [apply Hmem; exact Hin|]. split; [exact Hle|]. split; [exact Hgt|].
    split; [|split; [|intros Hneq; contradiction]].
    + intros _ (m0 & Hd0 & Hle0).
      destruct Hfirst as [H1 H2];
        [exists m0; split; [apply Hmem; exact Hd0 | exact Hle0]|].
      split; [exact H1|]. intros m' Hd' Hle'. apply H2; [|exact Hle'].
      apply Hmem. exact Hd'.
    + intros _ Hnone m' Hd'. apply Hfallback.
      * intros m1 Hm1. apply Hnone. apply Hmem. exact Hm1.
      * apply Hmem. exact Hd'.
  - apply Z.eqb_neq in E. exists y, lo.
    split; [apply f_equal; exact Hfirst0|]. split; [apply Hmem; exact Hlo|].
    split; [exact Hle|]. split; [exact Hgt|].
    split; [intros Heq; contradiction|].
    split; [intros Heq; contradiction|].
    intros _ m' Hd'. apply Hends. apply Hmem. exact Hd'.
Qed.

Lemma default_date_is_closest_dated_month_witness :
  exists y m,
    Sel.defaultDate aNow (Sel.dateInfo feed) (Some (Some 0)) (Some (Some 1))
      = (Some (Some y), Some (Some m)) /\
    datedIn feed y m.
Proof.
  assert (H1 : feed <> []) by discriminate.
  assert (H2 : Sel.truthy (Some (Some 0)) = false) by reflexivity.
  destruct (proj2 (default_date_is_closest_dated_month aNow feed
                     (Some (Some 0)) (Some (Some 1)) datesValid_feed H1) H2)
    as (y & m & Hd & Hin & _).
  exists y, m. exact (conj Hd Hin).
Defined.

(** X23.  Changing the year to a year with a record keeps the selection on
    a month with a record: the selected month stays when some record is
    dated in that month of the new year, and becomes the first month of the
    new year with a record otherwise. *)
Theorem year_change_keeps_month_on_offer
    (navData : list NavData) (selectedMonth : Sel.Slot) (y : Z) :
  datesValid navData ->
  (exists m0, datedIn navData y m0) ->
  exists m,
    Sel.handleYearChange (Sel.dateInfo navData) selectedMonth (Some y)
      = (Some (Some y), Some (Some m)) /\
    datedIn navData y m /\
    (forall sm, selectedMonth = Some (Some sm) -> datedIn navData y sm ->
                m = sm) /\
    ((forall sm, selectedMonth = Some (Some sm) -> ~ datedIn navData y sm) ->
     forall m', datedIn navData y m' -> m <= m').
Proof.
  intros Hv Hy. unfold Sel.handleYearChange.
  destruct (months_on_offer navData y Hv Hy) as (ms & Hmonths & Hsorted & Hne & Hmem).
  unfold Sel.jsInt, Sel.Slot in *. rewrite Hmonths.
  destruct (ascending_ends ms Hsorted Hne)
    as (lo & hi & Hfirst & _ & Hlo & _ & Hends).
  assert (Hhas : forall sm, Sel.setHas (Some sm) (map Some ms) = true <->
                            datedIn navData y sm).
  { intros sm. rewrite setHas_In, <- Hmem. split.
    - intros H. apply in_map_iff in H. destruct H as (z & [= ->] & Hz). exact Hz.
    - intros H. apply in_map. exact H. }
  destruct selectedMonth as [[sm|]|].
  - destruct (Sel.setHas (Some sm) (map Some ms)) eqn:E.
    + apply Hhas in E. exists sm. split; [reflexivity|]. split; [exact E|].
      split; [intros sm' [= ->] _; reflexivity|].
      intros Hnot. exfalso. apply (Hnot sm eq_refl). exact E.
    + exists lo. split; [apply f_equal; exact Hfirst|].
      split; [apply Hmem; exact Hlo|]. split.
      * intros sm' [= ->] Hd. apply Hhas in Hd. rewrite Hd in E. discriminate.
      * intros _ m' Hd'. apply Hends. apply Hmem. exact Hd'.
  - assert (E : Sel.setHas None (map Some ms) = false).
    { destruct (Sel.setHas None (map Some ms)) eqn:E; [|reflexivity].
      apply setHas_In in E. apply in_map_iff in E.
      destruct E as (z & Hz & _). discriminate. }
    rewrite E. exists lo. split; [apply f_equal; exact Hfirst|].
    split; [apply Hmem; exact Hlo|]. split; [intros sm [=]|].
    intros _ m' Hd'. apply Hends. apply Hmem. exact Hd'.
  - exists lo. split; [apply f_equal; exact Hfirst|].
    split; [apply Hmem; exact Hlo|]. split; [intros sm [=]|].
    intros _ m' Hd'. apply Hends. apply Hmem. exact Hd'.
Qed.

Lemma year_change_keeps_month_on_offer_witness :
  exists m,
    Sel.handleYearChange (Sel.dateInfo feed) (Some (Some 7)) (Some 2020)
      = (Some (Some 2020), Some (Some m)) /\
    datedIn feed 2020 m.
Proof.
  assert (H : exists m0, datedIn feed 2020 m0).
  { exists 1. exists day1. eexists. split; [right; right; left; reflexivity|].
    split; [reflexivity|]. split; reflexivity. }
  destruct (year_change_keeps_month_on_offer feed (Some (Some 7)) 2020
              datesValid_feed H) as (m & H1 & H2 & _).
  exists m. exact (conj H1 H2).
Defined.

(** ** PastAnalysis: the years of the breakdown *)

Lemma track_keys (y : Z) (a u : num) (m : SC.YearlyData) (k : Z) :
  In k (map fst (SC.track y a u m)) <-> In k (map fst m) \/ k = y.
Proof.
  rewrite track_spec. destruct (SC.mapGet y m) as [yd|] eqn:Hg.
  - rewrite (mapSet_keys y _ yd m Hg). split; [tauto|].
    intros [H | ->]; [exact H|].
    apply mapGet_some_In in Hg. apply (in_map fst) in Hg. exact Hg.
  - rewrite map_app, in_app_iff. cbn [map fst In]. intuition congruence.
Qed.

Lemma sorted_unique (l1 : list Z) :
  forall l2,
  StronglySorted Z.lt l1 -> StronglySorted Z.lt l2 ->
  (forall x, In x l1 <-> In x l2) -> l1 = l2.
Proof.
  induction l1 as [|a l1 IH]; intros l2 H1 H2 Hmem.
  - destruct l2 as [|b l2]; [reflexivity|].
    exfalso. apply (proj2 (Hmem b)). left. reflexivity.
  - destruct l2 as [|b l2];
      [exfalso; apply (proj1 (Hmem a)); left; reflexivity|].
    inversion H1 as [|? ? H1' Ha]; subst. inversion H2 as [|? ? H2' Hb]; subst.
    rewrite Forall_forall in Ha, Hb.
    assert (E : a = b).
    { destruct (proj1 (Hmem a) (or_introl eq_refl)) as [E|Hin]; [congruence|].
      destruct (proj2 (Hmem b) (or_introl eq_refl)) as [E|Hin']; [congruence|].
      specialize (Ha b Hin'). specialize (Hb a Hin). lia. }
    subst b. f_equal. apply IH; [assumption | assumption|].
    intros x. split; intros Hx.
    + destruct (proj1 (Hmem x) (or_intror Hx)) as [E|H]; [|exact H].
      specialize (Ha x Hx). lia.
    + destruct (proj2 (Hmem x) (or_intror Hx)) as [E|H]; [|exact H].
      specialize (Hb x Hx). lia.
Qed.

Lemma yearsFrom_spec (first last : Z) :
  StronglySorted Z.lt (SC.yearsFrom first last) /\
  forall y, In y (SC.yearsFrom first last) <-> first <= y <= last.
Proof.
  unfold SC.yearsFrom. split.
  - generalize (Z.to_nat (last - first + 1)) as n. intros n.
    assert (G : forall k, StronglySorted Z.lt
                            (map (fun i => first + Z.of_nat i) (seq k n))).
    { induction n as [|n IH]; intros k; cbn [seq map]; constructor.
      - apply IH.
      - apply Forall_forall. intros x Hx. apply in_map_iff in Hx.
        destruct Hx as (i & <- & Hi). apply in_seq in Hi. lia. }
    apply G.
  - intros y. rewrite in_map_iff. split.
    + intros (i & <- & Hi). apply in_seq in Hi. lia.
    + intros Hy. exists (Z.to_nat (y - first)).
      split; [lia|]. apply in_seq. lia.
Qed.

Section BreakdownYears.

Variables (now : Date) (navData : list NavData) (ty : SC.InvestmentType).
Variables (amount stepUpPercent : num) (selectedYear selectedMonth : Z).

Hypothesis dated : validTimes navData <> [].

(** The years of the map after the loop: those it had, and the years of
    the events of the schedule. *)
Lemma loop_years (fuel : nat) :
  forall st k,
  In k (map fst (SC.Loop.yearlyData
                   (SC.loop now navData ty amount stepUpPercent selectedYear
                      selectedMonth fuel st))) <->
  In k (map fst (SC.Loop.yearlyData st)) \/
  In k (map (fun e => fullYear (fst e))
          (SC.schedule now navData ty amount stepUpPercent selectedYear
             selectedMonth fuel st)).
Proof.
  induction fuel as [|fuel IH]; intros st k; cbn [SC.loop SC.schedule].
  - cbn [map In]. tauto.
  - destruct (SC.running now st); [|cbn [map In]; tauto].
    rewrite IH. cbn [map In fst].
    assert (Hb : In k (map fst (SC.Loop.yearlyData
                   (SC.body navData ty amount stepUpPercent selectedYear
                      selectedMonth st))) <->
                 In k (map fst (SC.Loop.yearlyData st)) \/
                 k = fullYear (SC.Loop.currentDate st)).
    { unfold SC.body.
      destruct (SC.stepUp ty amount stepUpPercent selectedYear selectedMonth st)
        as [ca yc].
      destruct (findNearestNav_some navData (SC.Loop.currentDate st) dated)
        as [e He].
      rewrite He. cbn [SC.Loop.yearlyData]. apply track_keys. }
    rewrite Hb. intuition congruence.
Qed.

End BreakdownYears.

(** X26.  In the schedule modes, when some record of the series has a valid
    date, the breakdown has exactly one slice for each calendar year from
    the selected start year through the current year, in this order; it is
    empty when the start month is after the current month. *)
Theorem schedule_breakdown_covers_years
    (now : Date) (navData : list NavData) (ty : SC.InvestmentType)
    (amount stepUpPercent : num) (selectedYear selectedMonth : Z)
    (res : SC.Past.t) :
  ty <> SC.onetime ->
  validDate now ->
  100 <= selectedYear ->
  1 <= selectedMonth <= 12 ->
  validTimes navData <> [] ->
  SC.pastResult now navData ty amount stepUpPercent selectedYear selectedMonth
    = Some res ->
  (monthsThrough now selectedYear selectedMonth = 0%nat ->
   SC.Past.yearlyBreakdown res = []) /\
  (monthsThrough now selectedYear selectedMonth <> 0%nat ->
   map SC.Row.year (SC.Past.yearlyBreakdown res)
     = SC.yearsFrom selectedYear (fullYear now)).
Proof.
  intros Hty Hnow Hy Hm Hv Hres. unfold SC.pastResult in Hres.
  destruct (falsy amount || (selectedYear =? 0)
            || Nat.eqb (List.length navData) 0); [discriminate|].
  assert (E : res = SC.scheduleResult now navData ty amount stepUpPercent
                      selectedYear selectedMonth).
  { destruct ty; try (injection Hres as <-; reflexivity). contradiction. }
  clear Hres. subst res. unfold SC.scheduleResult.
  cbn [SC.Past.yearlyBreakdown]. unfold SC.buildBreakdown.
  destruct (balanced_loopEnd now navData ty amount stepUpPercent selectedYear
              selectedMonth) as (Hnd & _ & _).
  set (m := SC.Loop.yearlyData
              (SC.loopEnd now navData ty amount stepUpPercent selectedYear
                 selectedMonth)) in *.
  assert (Hkeys : forall y, In y (SC.sortYears (map fst m)) -> In y (map fst m)).
  { intros y Hin. apply (Permutation_in _ (sortYears_perm (map fst m))). exact Hin. }
  destruct (build_sums now navData m (SC.sortYears (map fst m)) Hkeys)
    as [Hyears _].
  (* the years of the map are the years of the events *)
  assert (Hs : SC.startDate selectedYear selectedMonth
               = monthFirst (12 * selectedYear + selectedMonth - 1)).
  { unfold SC.startDate. rewrite newDate_monthFirst by exact Hy. f_equal. lia. }
  pose proof (schedule_months now navData ty amount stepUpPercent selectedYear
                selectedMonth Hnow
                (SC.turns now selectedYear selectedMonth)
                (12 * selectedYear + selectedMonth - 1)
                (SC.loopInit amount selectedYear selectedMonth) Hs
                (turns_enough now selectedYear selectedMonth Hnow _ Hs))
    as Hdates.
  fold (monthsThrough now selectedYear selectedMonth) in Hdates.
  assert (Hmem : forall y,
             In y (map fst m) <->
             exists k, (k < monthsThrough now selectedYear selectedMonth)%nat /\
                       (12 * selectedYear + selectedMonth - 1 + Z.of_nat k) / 12
                       = y).
  { intros y. unfold m, SC.loopEnd.
    rewrite (loop_years now navData ty amount stepUpPercent selectedYear
               selectedMonth Hv).
    unfold SC.loopInit at 1. cbn [SC.Loop.yearlyData map In].
    rewrite <- (map_map fst fullYear), Hdates, map_map.
    cbn [monthFirst fullYear]. rewrite in_map_iff. split.
    - intros [[]|(k & <- & Hk)]. apply in_seq in Hk. exists k. split; [lia|].
      reflexivity.
    - intros (k & Hk & <-). right. exists k. split; [reflexivity|].
      apply in_seq. lia. }
  split.
  - intros Hzero.
    assert (Hnil : map fst m = []).
    { destruct (map fst m) as [|y l] eqn:Ek; [reflexivity|]. exfalso.
      destruct (proj1 (Hmem y) (or_introl eq_refl)) as (k & Hk & _). lia. }
    rewrite Hnil. reflexivity.
  - intros Hnz. rewrite Hyears.
    destruct (yearsFrom_spec selectedYear (fullYear now)) as [Hsorted Hrange].
    apply sorted_unique; [apply sortYears_ascending; exact Hnd | exact Hsorted|].
    intros y. rewrite Hrange.
    assert (Hperm : In y (SC.sortYears (map fst m)) <-> In y (map fst m)).
    { split; intros H.
      - apply (Permutation_in _ (sortYears_perm (map fst m))). exact H.
      - apply (Permutation_in _ (Permutation_sym (sortYears_perm (map fst m)))).
        exact H. }
    rewrite Hperm, Hmem.
    destruct Hnow as (Hmi & _ & _).
    unfold monthsThrough, monthNumber in *. split.
    + intros (k & Hk & <-). split.
      * apply Z.div_le_lower_bound; lia.
      * assert ((12 * selectedYear + selectedMonth - 1 + Z.of_nat k) / 12
                < fullYear now + 1); [|lia].
        apply Z.div_lt_upper_bound; lia.
    + intros [Hlo Hhi].
      exists (Z.to_nat (Z.max (12 * selectedYear + selectedMonth - 1) (12 * y)
                        - (12 * selectedYear + selectedMonth - 1))).
      split; [lia|].
      rewrite Z2Nat.id by lia.
      replace (12 * selectedYear + selectedMonth - 1
               + (Z.max (12 * selectedYear + selectedMonth - 1) (12 * y)
                  - (12 * selectedYear + selectedMonth - 1)))
        with (Z.max (12 * selectedYear + selectedMonth - 1) (12 * y)) by lia.
      symmetry. apply (Z.div_unique _ 12 y
                         (Z.max (12 * selectedYear + selectedMonth - 1) (12 * y)
                          - 12 * y)); lia.
Qed.

Lemma schedule_breakdown_covers_years_witness :
  SC.pastResult aNow feed SC.stepup (ofZ 5000) (ofZ 10) 2024 1 = Some sampleRun /\
  map SC.Row.year (SC.Past.yearlyBreakdown sampleRun)
    = SC.yearsFrom 2024 (fullYear aNow).
Proof.
  assert (H1 : SC.stepup <> SC.onetime) by discriminate.
  assert (H2 : validDate aNow) by (vm_compute; intuition discriminate).
  assert (H3 : 100 <= 2024) by lia.
  assert (H4 : 1 <= 1 <= 12) by lia.
  assert (H5 : validTimes feed <> []) by (vm_compute; discriminate).
  assert (H6 : SC.pastResult aNow feed SC.stepup (ofZ 5000) (ofZ 10) 2024 1
               = Some sampleRun) by reflexivity.
  assert (H7 : monthsThrough aNow 2024 1 <> 0%nat) by (vm_compute; discriminate).
  exact (conj H6 (proj2 (schedule_breakdown_covers_years aNow feed SC.stepup
                           (ofZ 5000) (ofZ 10) 2024 1 sampleRun
                           H1 H2 H3 H4 H5 H6) H7)).
Defined.
